(** * The units-visual update engine of mol*

    A shallow embedding of the units-visual module: the three
    visuals [UnitsMeshVisual], [UnitsPointsVisual] and [UnitsLinesVisual],
    their [create] / [update] / [createOrUpdate] / [mark] / [destroy]
    operations, and [isEveryLoci] of [mol-model/loci.ts].

    The closure variables of a visual ([renderObject], [currentProps],
    [currentGroup], ...) become the fields of one [State] record that the
    operations thread through a state-and-exception monad; a JavaScript
    exception leaves the assignments made before it in place, and so does
    the monad.  The awaited calls are run in sequence: a visual is never
    re-entered while a call is pending. *)

From Stdlib Require Import Strings.Byte.
From stdpp Require Import base option list gmap strings fin_maps sorting.

Set Default Proof Using "Type".

(** ** Structural model: units and symmetry groups *)

Module Unit.

Inductive Kind := Atomic | Spheres | Gaussians.

#[global] Instance Kind_eq_dec : EqDecision Kind.
Proof. solve_decision. Defined.

(** Conformation ids are UUIDs; only their equality is ever observed. *)
Definition UUID := nat.

(** A unit: its id, its kind, the id of the coordinate set it reads and the
    symmetry operator that places it. *)
Record t := {
  unitId : nat;
  kind : Kind;
  conformation : UUID;
  operator : Z
}.

#[global] Instance t_eq_dec : EqDecision t.
Proof. solve_decision. Defined.

(** Modelled from the spec: [Unit.conformationId], of the structure model
    that is not embedded here, reads the conformation id the unit exposes. *)
Definition conformationId (u : t) : UUID := conformation u.

(** [Unit.SymmetryGroup]: the units array and the shape hash. *)
Record SymmetryGroup := {
  units : list t;
  hashCode : Z
}.

#[global] Instance SymmetryGroup_eq_dec : EqDecision SymmetryGroup.
Proof. solve_decision. Defined.

End Unit.

(** The structure a group belongs to; compared structurally by [deepEqual]. *)
Record Structure := {
  structureUnits : list Unit.t
}.

#[global] Instance Structure_eq_dec : EqDecision Structure.
Proof. solve_decision. Defined.

(** [type StructureGroup = { structure: Structure, group: Unit.SymmetryGroup }] *)
Record StructureGroup := {
  structure : Structure;
  group : Unit.SymmetryGroup
}.

(** ** Loci ([mol-model/loci.ts]) *)

Inductive Loci :=
| EveryLoci
| EmptyLoci
| DataLoci (tag : string) (indices : list nat)
| ElementLoci (elements : list (nat * list nat)).

Definition lociKind (x : Loci) : string :=
  match x with
  | EveryLoci => "every-loci"
  | EmptyLoci => "empty-loci"
  | DataLoci _ _ => "data-loci"
  | ElementLoci _ => "element-loci"
  end.

(** [isEveryLoci(x?: Loci)]: [!!x && x.kind === 'every-loci']. *)
Definition isEveryLoci (x : option Loci) : bool :=
  match x with
  | Some l => bool_decide (lociKind l = "every-loci")
  | None => false
  end.

(** ** Intervals, value cells, update flags *)

Module Interval.

(** Modelled from the spec: an interval of [mol-data/int] is the pair of its
    bounds, [start] inclusive and [end] exclusive. *)
Record t := ofBounds { start : nat; stop : nat }.

End Interval.

Module ValueCell.

(** Modelled from the spec: a value cell holds a value and is marked for
    re-upload by an update; the mark is a version counter. *)
Record t (A : Type) := mk { value : A; version : nat }.
Arguments mk {A} _ _.
Arguments value {A} _.
Arguments version {A} _.

Definition create {A} (v : A) : t A := mk v 0.

(** [ValueCell.update(cell, value)] *)
Definition update {A} (c : t A) (v : A) : t A := mk v (S (version c)).

(** Writing through [cell.ref.value] in place: the value changes, the cell is
    not marked. *)
Definition poke {A} (c : t A) (v : A) : t A := mk v (version c).

End ValueCell.

Module VisualUpdateState.

(** Modelled from the spec: the flags record of an update pass. *)
Record t := mk {
  updateTransform : bool;
  updateColor : bool;
  updateSize : bool;
  createGeometry : bool
}.

Definition create : t := mk false false false false.

(** [VisualUpdateState.reset(state)] *)
Definition reset (_ : t) : t := create.

Definition setUpdateTransform (b : bool) (f : t) : t :=
  mk b (updateColor f) (updateSize f) (createGeometry f).
Definition setUpdateColor (b : bool) (f : t) : t :=
  mk (updateTransform f) b (updateSize f) (createGeometry f).
Definition setUpdateSize (b : bool) (f : t) : t :=
  mk (updateTransform f) (updateColor f) b (createGeometry f).
Definition setCreateGeometry (b : bool) (f : t) : t :=
  mk (updateTransform f) (updateColor f) (updateSize f) b.

End VisualUpdateState.

(** ** Properties *)

(** Color-theme objects live in an object store: [create] and [update] write
    the [structure] field of the theme object their props point to, and that
    object is shared by every props object holding the same reference (the
    builder's defaults, the caller's partial props, [currentProps]). *)
Definition loc := nat.

Record SizeThemeProps := {
  sizeName : string;
  sizeValue : Z
}.

#[global] Instance SizeThemeProps_eq_dec : EqDecision SizeThemeProps.
Proof. solve_decision. Defined.

Record ColorThemeProps := {
  colorName : string;
  colorValue : Z;
  themeStructure : option Structure
}.

#[global] Instance ColorThemeProps_eq_dec : EqDecision ColorThemeProps.
Proof. solve_decision. Defined.

(** The props [P] of a visual: the three fields the engine itself reads, and
    the remaining (builder-specific) ones as a finite map from their names. *)
Record Props := {
  sizeTheme : SizeThemeProps;
  colorTheme : loc;
  unitKinds : list Unit.Kind;
  extra : gmap string Z
}.

#[global] Instance Props_eq_dec : EqDecision Props.
Proof. solve_decision. Defined.

(** [Partial<P>] *)
Record PartialProps := {
  sizeTheme_opt : option SizeThemeProps;
  colorTheme_opt : option loc;
  unitKinds_opt : option (list Unit.Kind);
  extra_opt : gmap string Z
}.

(** [props: Partial<P> = {}] *)
Definition noProps : PartialProps :=
  {| sizeTheme_opt := None; colorTheme_opt := None; unitKinds_opt := None;
     extra_opt := ∅ |}.

(** [Object.assign({}, base, props)]: the fields of [props] win. *)
Definition assign (base : Props) (props : PartialProps) : Props :=
  {| sizeTheme := default (sizeTheme base) (sizeTheme_opt props);
     colorTheme := default (colorTheme base) (colorTheme_opt props);
     unitKinds := default (unitKinds base) (unitKinds_opt props);
     extra := extra_opt props ∪ extra base |}.

(** Modelled from the spec: [deepEqual] of [mol-util] is structural equality. *)
Definition deepEqual {A} `{EqDecision A} (a b : A) : bool := bool_decide (a = b).

(** ** Geometry, location iterator, render object *)

(** A mesh, a points or a lines geometry: the number of its primitives
    ([triangleCount], [pointCount], [lineCount]) and its buffer. *)
Record Geometry := {
  primitiveCount : nat;
  buffer : list Z
}.

(** Modelled from the spec: [Mesh.createEmpty], [Points.createEmpty] and
    [Lines.createEmpty] give the canonical empty geometry. *)
Definition createEmpty (_ : option Geometry) : Geometry :=
  {| primitiveCount := 0; buffer := [] |}.

(** A location iterator: its counts and its cursor. *)
Record LocationIterator := {
  groupCount : nat;
  instanceCount : nat;
  cursor : nat
}.

(** [locationIt.reset()] *)
Definition resetIterator (it : LocationIterator) : LocationIterator :=
  {| groupCount := groupCount it; instanceCount := instanceCount it; cursor := 0 |}.

(** Modelled from the spec: the color and size evaluators walk the iterator
    over all its [groupCount * instanceCount] slots. *)
Definition exhaustIterator (it : LocationIterator) : LocationIterator :=
  {| groupCount := groupCount it; instanceCount := instanceCount it;
     cursor := groupCount it * instanceCount it |}.

(** Modelled from the spec: the marker actions. *)
Inductive MarkerAction := Highlight | Select | Clear.

(** Marker bytes are the entries of a [Uint8Array]. *)
#[global] Instance byte_eq_dec : EqDecision byte := Byte.byte_eq_dec.

(** The value cells of a render object: the draw count, the marker,
    transform, color and size buffers, and the declarative values that are
    pushed from the props. *)
Record Values := {
  drawCount : ValueCell.t nat;
  tMarker : ValueCell.t (list byte);
  aTransform : ValueCell.t (list Z);
  color : ValueCell.t (list Z);
  size : ValueCell.t (list Z);
  declared : list Z
}.

(** A render object: its [values] and its render [state]. *)
Record RenderObject := {
  values : Values;
  state : list Z
}.

(** The three visuals of the file. *)
Inductive Visual := MeshVisual | PointsVisual | LinesVisual.

(** What the builder's [mark] does with the [apply] callback it is handed:
    finish with a result, or apply an interval and go on from what [apply]
    returned. *)
Inductive MarkScript :=
| Done (changed : bool)
| Apply (interval : Interval.t) (k : bool → MarkScript).

(** [UnitsMeshVisualBuilder], [UnitsPointVisualBuilder] and
    [UnitsLinesVisualBuilder]; [createGeometry] is [createMesh],
    [createPoints] or [createLines]. *)
Record Builder := {
  defaultProps : Props;
  createGeometry :
    Unit.t → option Structure → Props → option Geometry → Geometry;
  createLocationIterator : Unit.SymmetryGroup → LocationIterator;
  mark : Loci → Unit.SymmetryGroup → MarkScript;
  setUpdateState :
    VisualUpdateState.t → Props → Props → VisualUpdateState.t
}.

(** The collaborators of [mol-geo] the engine calls: each is taken as the
    function it computes, whatever that function is. *)
Record Collaborators := {
  (** the transform [createUnitsTransform] writes for one unit *)
  unitTransform : Unit.t → Z;
  (** the color buffer [createColors] computes *)
  colorsOf : LocationIterator → option ColorThemeProps → list Z;
  (** the size buffer [createSizes] computes *)
  sizesOf : LocationIterator → SizeThemeProps → list Z;
  (** the declarative values [Mesh.updateValues] and its siblings push *)
  updateValues : Visual → list Z → Props → list Z;
  (** [updateRenderableState] *)
  updateRenderableState : list Z → Props → list Z;
  (** what a marker action makes of one marker byte *)
  markerByte : MarkerAction → byte → byte
}.

(** ** Engine state *)

(** The calls a visual makes to its builder and its collaborators, newest
    first. *)
Inductive Call :=
| CallCreateGeometry (unit : Unit.t) (props : Props)
| CallCreateEmpty
| CallCreateLocationIterator (g : Unit.SymmetryGroup)
| CallCreateRenderObject (g : Unit.SymmetryGroup)
| CallCreateUnitsTransform (g : Unit.SymmetryGroup)
| CallCreateMarkers (count : nat)
| CallCreateSizes
| CallCreateColors.

#[global] Instance Call_eq_dec : EqDecision Call.
Proof. solve_decision. Defined.

(** The closure variables of a visual, the store of color-theme objects and
    the call log. *)
Record State := {
  renderObject : option RenderObject;
  currentProps : option Props;
  geometry : option Geometry;
  currentGroup : option Unit.SymmetryGroup;
  currentStructure : option Structure;
  locationIt : option LocationIterator;
  currentConformationId : option Unit.UUID;
  updateState : VisualUpdateState.t;
  objects : gmap loc ColorThemeProps;
  calls : list Call
}.

(** A fresh visual over a given object store. *)
Definition initial (objs : gmap loc ColorThemeProps) : State :=
  {| renderObject := None; currentProps := None; geometry := None;
     currentGroup := None; currentStructure := None; locationIt := None;
     currentConformationId := None;
     updateState := VisualUpdateState.create;
     objects := objs; calls := [] |}.

Definition setRenderObject (v : option RenderObject) (s : State) : State :=
  {| renderObject := v; currentProps := currentProps s; geometry := geometry s;
     currentGroup := currentGroup s; currentStructure := currentStructure s;
     locationIt := locationIt s;
     currentConformationId := currentConformationId s;
     updateState := updateState s; objects := objects s; calls := calls s |}.

Definition setCurrentProps (v : option Props) (s : State) : State :=
  {| renderObject := renderObject s; currentProps := v; geometry := geometry s;
     currentGroup := currentGroup s; currentStructure := currentStructure s;
     locationIt := locationIt s;
     currentConformationId := currentConformationId s;
     updateState := updateState s; objects := objects s; calls := calls s |}.

Definition setGeometry (v : option Geometry) (s : State) : State :=
  {| renderObject := renderObject s; currentProps := currentProps s;
     geometry := v;
     currentGroup := currentGroup s; currentStructure := currentStructure s;
     locationIt := locationIt s;
     currentConformationId := currentConformationId s;
     updateState := updateState s; objects := objects s; calls := calls s |}.

Definition setCurrentGroup (v : option Unit.SymmetryGroup) (s : State) : State :=
  {| renderObject := renderObject s; currentProps := currentProps s;
     geometry := geometry s;
     currentGroup := v; currentStructure := currentStructure s;
     locationIt := locationIt s;
     currentConformationId := currentConformationId s;
     updateState := updateState s; objects := objects s; calls := calls s |}.

Definition setCurrentStructure (v : option Structure) (s : State) : State :=
  {| renderObject := renderObject s; currentProps := currentProps s;
     geometry := geometry s;
     currentGroup := currentGroup s; currentStructure := v;
     locationIt := locationIt s;
     currentConformationId := currentConformationId s;
     updateState := updateState s; objects := objects s; calls := calls s |}.

Definition setLocationIt (v : option LocationIterator) (s : State) : State :=
  {| renderObject := renderObject s; currentProps := currentProps s;
     geometry := geometry s;
     currentGroup := currentGroup s; currentStructure := currentStructure s;
     locationIt := v;
     currentConformationId := currentConformationId s;
     updateState := updateState s; objects := objects s; calls := calls s |}.

Definition setCurrentConformationId (v : option Unit.UUID) (s : State) : State :=
  {| renderObject := renderObject s; currentProps := currentProps s;
     geometry := geometry s;
     currentGroup := currentGroup s; currentStructure := currentStructure s;
     locationIt := locationIt s;
     currentConformationId := v;
     updateState := updateState s; objects := objects s; calls := calls s |}.

Definition setUpdateFlags (v : VisualUpdateState.t) (s : State) : State :=
  {| renderObject := renderObject s; currentProps := currentProps s;
     geometry := geometry s;
     currentGroup := currentGroup s; currentStructure := currentStructure s;
     locationIt := locationIt s;
     currentConformationId := currentConformationId s;
     updateState := v; objects := objects s; calls := calls s |}.

Definition setObjects (v : gmap loc ColorThemeProps) (s : State) : State :=
  {| renderObject := renderObject s; currentProps := currentProps s;
     geometry := geometry s;
     currentGroup := currentGroup s; currentStructure := currentStructure s;
     locationIt := locationIt s;
     currentConformationId := currentConformationId s;
     updateState := updateState s; objects := v; calls := calls s |}.

Definition logCall (c : Call) (s : State) : State :=
  {| renderObject := renderObject s; currentProps := currentProps s;
     geometry := geometry s;
     currentGroup := currentGroup s; currentStructure := currentStructure s;
     locationIt := locationIt s;
     currentConformationId := currentConformationId s;
     updateState := updateState s; objects := objects s;
     calls := c :: calls s |}.

(** ** The monad of the operations *)

Inductive Error :=
| MissingGroup   (** [new Error('missing group')] *)
| TypeError.     (** a property read of, or a call on, [undefined] *)

Inductive Result (A : Type) :=
| Ok (a : A)
| Throw (e : Error).
Arguments Ok {A} _.
Arguments Throw {A} _.

Definition M (A : Type) : Type := State → State * Result A.

#[global] Instance M_ret : MRet M := λ A a s, (s, Ok a).

#[global] Instance M_bind : MBind M := λ A B f m s,
  match m s with
  | (s', Ok a) => f a s'
  | (s', Throw e) => (s', Throw e)
  end.

Definition throw {A} (e : Error) : M A := λ s, (s, Throw e).
Definition get : M State := λ s, (s, Ok s).
Definition modify (f : State → State) : M unit := λ s, (f s, Ok tt).

(** Reading through a variable that may hold [undefined]. *)
Definition defined {A} (x : option A) : M A :=
  match x with
  | Some a => mret a
  | None => throw TypeError
  end.

(** [if (c) body] *)
Definition when (c : bool) (body : M unit) : M unit :=
  if c then body else mret tt.

(** [updateState.flag = true] *)
Definition raise (setFlag : bool → VisualUpdateState.t → VisualUpdateState.t) : M unit :=
  modify (λ s, setUpdateFlags (setFlag true (updateState s)) s).

(** An assignment to a cell of [renderObject.values]. *)
Definition setValues (f : Values → Values) : M unit :=
  modify (λ s, setRenderObject
    ((λ ro, {| values := f (values ro); state := state ro |}) <$> renderObject s) s).

Definition setDrawCount (c : ValueCell.t nat) (v : Values) : Values :=
  {| drawCount := c; tMarker := tMarker v; aTransform := aTransform v;
     color := color v; size := size v; declared := declared v |}.
Definition setTMarker (c : ValueCell.t (list byte)) (v : Values) : Values :=
  {| drawCount := drawCount v; tMarker := c; aTransform := aTransform v;
     color := color v; size := size v; declared := declared v |}.
Definition setATransform (c : ValueCell.t (list Z)) (v : Values) : Values :=
  {| drawCount := drawCount v; tMarker := tMarker v; aTransform := c;
     color := color v; size := size v; declared := declared v |}.
Definition setColor (c : ValueCell.t (list Z)) (v : Values) : Values :=
  {| drawCount := drawCount v; tMarker := tMarker v; aTransform := aTransform v;
     color := c; size := size v; declared := declared v |}.
Definition setSize (c : ValueCell.t (list Z)) (v : Values) : Values :=
  {| drawCount := drawCount v; tMarker := tMarker v; aTransform := aTransform v;
     color := color v; size := c; declared := declared v |}.
Definition setDeclared (d : list Z) (v : Values) : Values :=
  {| drawCount := drawCount v; tMarker := tMarker v; aTransform := aTransform v;
     color := color v; size := size v; declared := d |}.

(** ** The visual *)

(** [sameGroupConformation(groupA, groupB)]; [&&] does not evaluate its
    right operand when the lengths differ, and [Unit.conformationId] of an
    absent first unit reads a property of [undefined]. *)
Definition sameGroupConformation (groupA groupB : Unit.SymmetryGroup) : Result bool :=
  if bool_decide (length (Unit.units groupA) = length (Unit.units groupB)) then
    match Unit.units groupA !! 0, Unit.units groupB !! 0 with
    | Some a, Some b =>
        Ok (bool_decide (Unit.conformationId a = Unit.conformationId b))
    | _, _ => Throw TypeError
    end
  else Ok false.

(** A computation that leaves the state alone. *)
Definition liftResult {A} (r : Result A) : M A := λ s, (s, r).

(** The draw count a geometry gives: [mesh.triangleCount * 3],
    [points.pointCount], [lines.lineCount]. *)
Definition drawCountOf (visual : Visual) (g : Geometry) : nat :=
  match visual with
  | MeshVisual => primitiveCount g * 3
  | PointsVisual => primitiveCount g
  | LinesVisual => primitiveCount g
  end.

Section Engine.

Context (visual : Visual) (B : Builder) (C : Collaborators).

(** [props.colorTheme.structure = currentStructure] *)
Definition bindStructure (props : Props) : M unit :=
  modify (λ s, setObjects
    (alter (λ theme, {| colorName := colorName theme;
                        colorValue := colorValue theme;
                        themeStructure := currentStructure s |})
           (colorTheme props) (objects s)) s).

(** [props.unitKinds.includes(unit.kind) ? await createMesh(ctx, unit,
    currentStructure, props, mesh) : Mesh.createEmpty(mesh)], assigned to
    the geometry variable ([mesh], [points] or [lines]). *)
Definition buildGeometry (u : Unit.t) (props : Props) : M unit :=
  s ← get;
  if bool_decide (Unit.kind u ∈ unitKinds props) then
    modify (logCall (CallCreateGeometry u props));;
    modify (setGeometry
      (Some (createGeometry B u (currentStructure s) props (geometry s))))
  else
    modify (logCall CallCreateEmpty);;
    modify (setGeometry (Some (createEmpty (geometry s)))).

(** Modelled from the spec: [createUnitsTransform(group, values)] writes one
    transform per unit of the group. *)
Definition createUnitsTransform (g : Unit.SymmetryGroup) : M unit :=
  modify (logCall (CallCreateUnitsTransform g));;
  setValues (λ v, setATransform
    (ValueCell.update (aTransform v) (unitTransform C <$> Unit.units g)) v).

(** Modelled from the spec: [createMarkers(count, values)] reallocates the
    marker buffer to [count] cleared bytes. *)
Definition createMarkers (count : nat) : M unit :=
  modify (logCall (CallCreateMarkers count));;
  setValues (λ v, setTMarker
    (ValueCell.update (tMarker v) (replicate count x00)) v).

(** Modelled from the spec: [createColors(ctx, locationIt, colorTheme, values)]
    walks the iterator and writes the color buffer. *)
Definition createColors (it : LocationIterator) (theme : loc) : M unit :=
  s ← get;
  modify (logCall CallCreateColors);;
  modify (setLocationIt (exhaustIterator <$> locationIt s));;
  setValues (λ v, setColor
    (ValueCell.update (color v) (colorsOf C it (objects s !! theme))) v).

(** Modelled from the spec: [createSizes(ctx, locationIt, sizeTheme, values)]
    walks the iterator and writes the size buffer. *)
Definition createSizes (it : LocationIterator) (theme : SizeThemeProps) : M unit :=
  s ← get;
  modify (logCall CallCreateSizes);;
  modify (setLocationIt (exhaustIterator <$> locationIt s));;
  setValues (λ v, setSize (ValueCell.update (size v) (sizesOf C it theme)) v).

(** Modelled from the spec: the render-object factory
    ([createUnitsMeshRenderObject] and its siblings) allocates the value
    cells from the geometry, the iterator's counts and the props. *)
Definition createUnitsRenderObject (g : Unit.SymmetryGroup) (geo : Geometry)
    (it : LocationIterator) (props : Props)
    (objs : gmap loc ColorThemeProps) : RenderObject :=
  {| values :=
       {| drawCount := ValueCell.create (drawCountOf visual geo);
          tMarker := ValueCell.create
            (replicate (instanceCount it * groupCount it) x00);
          aTransform := ValueCell.create (unitTransform C <$> Unit.units g);
          color := ValueCell.create (colorsOf C it (objs !! colorTheme props));
          size := ValueCell.create (sizesOf C it (sizeTheme props));
          declared := updateValues C visual [] props |};
     state := updateRenderableState C [] props |}.

(** [create(ctx, group, props)] *)
Definition create (g : Unit.SymmetryGroup) (props : PartialProps) : M unit :=
  let currentProps' := assign (defaultProps B) props in
  modify (setCurrentProps (Some currentProps'));;
  bindStructure currentProps';;
  modify (setCurrentGroup (Some g));;
  u ← defined (Unit.units g !! 0);
  modify (setCurrentConformationId (Some (Unit.conformationId u)));;
  buildGeometry u currentProps';;
  modify (logCall (CallCreateLocationIterator g));;
  let it := createLocationIterator B g in
  modify (setLocationIt (Some it));;
  s ← get;
  geo ← defined (geometry s);
  modify (logCall (CallCreateRenderObject g));;
  modify (setRenderObject
    (Some (createUnitsRenderObject g geo it currentProps' (objects s)))).

(** The universal diff rules of [UnitsMeshVisual]'s [update]. *)
Definition diffRulesMesh (u : Unit.t) (g : Unit.SymmetryGroup)
    (newProps currentProps' : Props) : M unit :=
  s ← get;
  let newConformationId := Unit.conformationId u in
  when (negb (bool_decide (Some newConformationId = currentConformationId s)))
    (modify (setCurrentConformationId (Some newConformationId));;
     raise VisualUpdateState.setCreateGeometry);;
  it ← defined (locationIt s);
  when (negb (bool_decide (length (Unit.units g) = instanceCount it)))
    (raise VisualUpdateState.setUpdateTransform);;
  when (negb (deepEqual (sizeTheme newProps) (sizeTheme currentProps')))
    (raise VisualUpdateState.setCreateGeometry);;
  when (negb (deepEqual (objects s !! colorTheme newProps)
                        (objects s !! colorTheme currentProps')))
    (raise VisualUpdateState.setUpdateColor);;
  when (negb (deepEqual (unitKinds newProps) (unitKinds currentProps')))
    (raise VisualUpdateState.setCreateGeometry).

(** The universal diff rules of [UnitsPointsVisual]'s [update]. *)
Definition diffRulesPoints (u : Unit.t) (g : Unit.SymmetryGroup)
    (newProps currentProps' : Props) : M unit :=
  s ← get;
  let newConformationId := Unit.conformationId u in
  when (negb (bool_decide (Some newConformationId = currentConformationId s)))
    (modify (setCurrentConformationId (Some newConformationId));;
     raise VisualUpdateState.setCreateGeometry);;
  it ← defined (locationIt s);
  when (negb (bool_decide (length (Unit.units g) = instanceCount it)))
    (raise VisualUpdateState.setUpdateTransform);;
  when (negb (deepEqual (sizeTheme newProps) (sizeTheme currentProps')))
    (raise VisualUpdateState.setUpdateSize);;
  when (negb (deepEqual (objects s !! colorTheme newProps)
                        (objects s !! colorTheme currentProps')))
    (raise VisualUpdateState.setUpdateColor);;
  when (negb (deepEqual (unitKinds newProps) (unitKinds currentProps')))
    (raise VisualUpdateState.setCreateGeometry).

(** The universal diff rules of [UnitsLinesVisual]'s [update]. *)
Definition diffRulesLines (u : Unit.t) (g : Unit.SymmetryGroup)
    (newProps currentProps' : Props) : M unit :=
  s ← get;
  let newConformationId := Unit.conformationId u in
  when (negb (bool_decide (Some newConformationId = currentConformationId s)))
    (modify (setCurrentConformationId (Some newConformationId));;
     raise VisualUpdateState.setCreateGeometry);;
  it ← defined (locationIt s);
  when (negb (bool_decide (length (Unit.units g) = instanceCount it)))
    (raise VisualUpdateState.setUpdateTransform);;
  when (negb (deepEqual (sizeTheme newProps) (sizeTheme currentProps')))
    (raise VisualUpdateState.setUpdateSize);;
  when (negb (deepEqual (objects s !! colorTheme newProps)
                        (objects s !! colorTheme currentProps')))
    (raise VisualUpdateState.setUpdateColor);;
  when (negb (deepEqual (unitKinds newProps) (unitKinds currentProps')))
    (raise VisualUpdateState.setCreateGeometry).

Definition diffRules : Unit.t → Unit.SymmetryGroup → Props → Props → M unit :=
  match visual with
  | MeshVisual => diffRulesMesh
  | PointsVisual => diffRulesPoints
  | LinesVisual => diffRulesLines
  end.

(** [update(ctx, props)].  A visual with a render object has its props, its
    group and its iterator ([reachable_consistent] below); a read of one that
    is missing raises. *)
Definition update (props : PartialProps) : M unit :=
  s ← get;
  match renderObject s with
  | None => mret tt
  | Some _ =>
    currentProps' ← defined (currentProps s);
    let newProps := assign currentProps' props in
    bindStructure newProps;;
    g ← defined (currentGroup s);
    let unit0 := Unit.units g !! 0 in
    it ← defined (locationIt s);
    modify (setLocationIt (Some (resetIterator it)));;
    modify (λ s, setUpdateFlags (VisualUpdateState.reset (updateState s)) s);;
    modify (λ s, setUpdateFlags
      (setUpdateState B (updateState s) newProps currentProps') s);;
    u ← defined unit0;
    diffRules u g newProps currentProps';;
    s1 ← get;
    when (VisualUpdateState.updateTransform (updateState s1))
      (modify (logCall (CallCreateLocationIterator g));;
       let it' := createLocationIterator B g in
       modify (setLocationIt (Some it'));;
       createUnitsTransform g;;
       createMarkers (instanceCount it' * groupCount it');;
       raise VisualUpdateState.setUpdateColor);;
    s2 ← get;
    when (VisualUpdateState.createGeometry (updateState s2))
      (buildGeometry u newProps;;
       s' ← get;
       geo ← defined (geometry s');
       setValues (λ v, setDrawCount
         (ValueCell.update (drawCount v) (drawCountOf visual geo)) v);;
       raise VisualUpdateState.setUpdateColor);;
    s3 ← get;
    match visual with
    | MeshVisual => mret tt
    | PointsVisual | LinesVisual =>
        when (VisualUpdateState.updateSize (updateState s3))
          (it ← defined (locationIt s3);
           createSizes it (sizeTheme newProps))
    end;;
    s4 ← get;
    when (VisualUpdateState.updateColor (updateState s4))
      (it ← defined (locationIt s4);
       createColors it (colorTheme newProps));;
    setValues (λ v, setDeclared (updateValues C visual (declared v) newProps) v);;
    modify (λ s, setRenderObject
      ((λ ro, {| values := values ro;
                 state := updateRenderableState C (state ro) newProps |})
         <$> renderObject s) s);;
    modify (setCurrentProps (Some newProps))
  end.

(** [createOrUpdate(ctx, props, structureGroup)].  The branches of the
    [if] chain, first match first: no group and no current group; a group
    and no current group or no render object; a group of another hash code;
    otherwise the update, before which a group of another conformation
    replaces the current one. *)
Definition createOrUpdate (props : PartialProps)
    (structureGroup : option StructureGroup) : M unit :=
  when (bool_decide (is_Some structureGroup))
    (modify (setCurrentStructure (structure <$> structureGroup)));;
  let group' := group <$> structureGroup in
  s ← get;
  match group', currentGroup s, renderObject s with
  | None, None, _ => throw MissingGroup
  | Some g, None, _ => create g props
  | Some g, Some _, None => create g props
  | Some g, Some current, Some _ =>
      if negb (bool_decide (Unit.hashCode g = Unit.hashCode current)) then
        create g props
      else
        same ← liftResult (sameGroupConformation g current);
        when (negb same) (modify (setCurrentGroup (Some g)));;
        update props
  | None, Some _, _ => update props
  end.

(** Modelled from the spec: [applyMarkerAction(array, start, end, action)]
    applies the action to the slots of [start, end) that the array has and
    says whether a byte changed. *)
Definition applyMarkerAction (array : list byte) (start stop : nat)
    (action : MarkerAction) : list byte * bool :=
  let array' :=
    imap (λ i v, if bool_decide (start ≤ i < stop)
                 then markerByte C action v else v) array in
  (array', negb (bool_decide (array' = array))).

(** The [apply] callback of the visual's [mark], on the marker array. *)
Definition applyInterval (action : MarkerAction) (interval : Interval.t)
    (array : list byte) : list byte * bool :=
  let start := Interval.start interval in
  let stop := Interval.stop interval in
  applyMarkerAction array start stop action.

(** The builder's [mark], run with that callback. *)
Fixpoint runMark (script : MarkScript) (action : MarkerAction)
    (array : list byte) : list byte * bool :=
  match script with
  | Done changed => (array, changed)
  | Apply interval k =>
      let '(array', r) := applyInterval action interval array in
      runMark (k r) action array'
  end.

(** [mark(loci, action)]; [apply] writes the marker array in place, and
    [ValueCell.update(tMarker, tMarker.ref.value)] marks the cell. *)
Definition markVisual (loci : Loci) (action : MarkerAction) : M bool :=
  s ← get;
  match renderObject s with
  | None => mret false
  | Some ro =>
    let marker := tMarker (values ro) in
    it ← defined (locationIt s);
    '(array', changed) ←
      (if isEveryLoci (Some loci) then
         mret (applyInterval action
           (Interval.ofBounds 0 (groupCount it * instanceCount it))
           (ValueCell.value marker))
       else
         g ← defined (currentGroup s);
         mret (runMark (mark B loci g) action (ValueCell.value marker)));
    setValues (setTMarker (ValueCell.poke marker array'));;
    when changed
      (setValues (λ v, setTMarker
         (ValueCell.update (tMarker v) (ValueCell.value (tMarker v))) v));;
    mret changed
  end.

(** [destroy()] *)
Definition destroy : M unit := modify (setRenderObject None).

End Engine.

(** ** The outcome of an update pass in closed form *)

(** What the universal diff rules of a visual make of the flags [f], given
    which of the five comparisons found a change. *)
Definition diffFlags (visual : Visual) (f : VisualUpdateState.t)
    (conformation count size color kinds : bool) : VisualUpdateState.t :=
  VisualUpdateState.mk
    (VisualUpdateState.updateTransform f || count)
    (VisualUpdateState.updateColor f || color)
    (match visual with
     | MeshVisual => VisualUpdateState.updateSize f
     | _ => VisualUpdateState.updateSize f || size
     end)
    (VisualUpdateState.createGeometry f || conformation
     || match visual with MeshVisual => size | _ => false end
     || kinds).

Section UpdateOutcome.

Context (visual : Visual) (B : Builder) (C : Collaborators)
  (props : PartialProps)
  (ro : RenderObject) (cp : Props) (geo : option Geometry)
  (g : Unit.SymmetryGroup) (cs : option Structure) (it : LocationIterator)
  (cid : option Unit.UUID) (objs : gmap loc ColorThemeProps)
  (cl : list Call) (u : Unit.t).

Definition passProps : Props := assign cp props.

Definition passObjects : gmap loc ColorThemeProps :=
  alter (λ theme, {| colorName := colorName theme;
                     colorValue := colorValue theme;
                     themeStructure := cs |})
    (colorTheme passProps) objs.

Definition conformationChanged : bool :=
  negb (bool_decide (Some (Unit.conformationId u) = cid)).
Definition countChanged : bool :=
  negb (bool_decide (length (Unit.units g) = instanceCount it)).
Definition sizeChanged : bool :=
  negb (deepEqual (sizeTheme passProps) (sizeTheme cp)).
Definition colorChanged : bool :=
  negb (deepEqual (passObjects !! colorTheme passProps)
                  (passObjects !! colorTheme cp)).
Definition kindsChanged : bool :=
  negb (deepEqual (unitKinds passProps) (unitKinds cp)).

(** The flags the builder's hook sets on the reset record. *)
Definition hookFlags : VisualUpdateState.t :=
  setUpdateState B VisualUpdateState.create passProps cp.

(** The flags after the universal diff rules. *)
Definition diffedFlags : VisualUpdateState.t :=
  diffFlags visual hookFlags conformationChanged countChanged sizeChanged
    colorChanged kindsChanged.

Definition transformStep : bool := VisualUpdateState.updateTransform diffedFlags.
Definition geometryStep : bool := VisualUpdateState.createGeometry diffedFlags.
Definition sizeStep : bool :=
  match visual with
  | MeshVisual => false
  | _ => VisualUpdateState.updateSize diffedFlags
  end.
Definition colorStep : bool :=
  VisualUpdateState.updateColor diffedFlags || transformStep || geometryStep.

(** The flags at the end of the pass. *)
Definition passFlags : VisualUpdateState.t :=
  VisualUpdateState.setUpdateColor colorStep diffedFlags.

Definition passIterator0 : LocationIterator :=
  if transformStep then createLocationIterator B g else resetIterator it.
Definition passIterator1 : LocationIterator :=
  if sizeStep then exhaustIterator passIterator0 else passIterator0.
Definition passIterator : LocationIterator :=
  if colorStep then exhaustIterator passIterator1 else passIterator1.

Definition passGeometry0 : Geometry :=
  if bool_decide (Unit.kind u ∈ unitKinds passProps)
  then createGeometry B u cs passProps geo
  else createEmpty geo.
Definition passGeometry : option Geometry :=
  if geometryStep then Some passGeometry0 else geo.

Definition passValues : Values :=
  let v := values ro in
  {| drawCount :=
       if geometryStep
       then ValueCell.update (drawCount v) (drawCountOf visual passGeometry0)
       else drawCount v;
     tMarker :=
       if transformStep
       then ValueCell.update (tMarker v)
              (replicate (instanceCount (createLocationIterator B g)
                          * groupCount (createLocationIterator B g)) x00)
       else tMarker v;
     aTransform :=
       if transformStep
       then ValueCell.update (aTransform v) (unitTransform C <$> Unit.units g)
       else aTransform v;
     color :=
       if colorStep
       then ValueCell.update (color v)
              (colorsOf C passIterator1 (passObjects !! colorTheme passProps))
       else color v;
     size :=
       if sizeStep
       then ValueCell.update (size v)
              (sizesOf C passIterator0 (sizeTheme passProps))
       else size v;
     declared := updateValues C visual (declared v) passProps |}.

(** The calls of the pass, newest first. *)
Definition passNewCalls : list Call :=
  (if colorStep then [CallCreateColors] else [])
  ++ (if sizeStep then [CallCreateSizes] else [])
  ++ (if geometryStep
      then [if bool_decide (Unit.kind u ∈ unitKinds passProps)
            then CallCreateGeometry u passProps else CallCreateEmpty]
      else [])
  ++ (if transformStep
      then [CallCreateMarkers (instanceCount (createLocationIterator B g)
                               * groupCount (createLocationIterator B g));
            CallCreateUnitsTransform g; CallCreateLocationIterator g]
      else []).

Definition passCalls : list Call := passNewCalls ++ cl.

Definition updateOutcome : State :=
  {| renderObject :=
       Some {| values := passValues;
               state := updateRenderableState C (state ro) passProps |};
     currentProps := Some passProps;
     geometry := passGeometry;
     currentGroup := Some g;
     currentStructure := cs;
     locationIt := Some passIterator;
     currentConformationId := Some (Unit.conformationId u);
     updateState := passFlags;
     objects := passObjects;
     calls := passCalls |}.

End UpdateOutcome.



(** A builder's [mark] that returns whether one of its [apply] calls
    reported a change, as [eachNucleotideElement] does with
    [if (apply(...)) changed = true]; [acc] is what has been reported so
    far. *)
Fixpoint reportsChanges (acc : bool) (script : MarkScript) : Prop :=
  match script with
  | Done changed => changed = acc
  | Apply _ k => ∀ r, reportsChanges (acc || r) (k r)
  end.

(** Each slot holds its initial byte or what the action makes of it. *)
Definition touched (f : byte → byte) (array0 array : list byte) : Prop :=
  length array = length array0
  ∧ ∀ i b, array0 !! i = Some b →
      array !! i = Some b ∨ array !! i = Some (f b).

(** ** Reachable states *)

(** The states of a visual: those its operations lead to from a fresh
    visual, the object store being the caller's to change in between. *)
Inductive reachable (visual : Visual) (B : Builder) (C : Collaborators) :
    State → Prop :=
| reachable_initial objs : reachable visual B C (initial objs)
| reachable_createOrUpdate s props sg :
    reachable visual B C s →
    reachable visual B C (createOrUpdate visual B C props sg s).1
| reachable_mark s loci action :
    reachable visual B C s →
    reachable visual B C (markVisual B C loci action s).1
| reachable_destroy s :
    reachable visual B C s → reachable visual B C (destroy s).1
| reachable_store s objs :
    reachable visual B C s → reachable visual B C (setObjects objs s).

(** With a render object come the props, the group and the iterator. *)
Definition equipped (s : State) : Prop :=
  is_Some (renderObject s) →
  is_Some (currentProps s) ∧ is_Some (currentGroup s)
  ∧ is_Some (locationIt s).

(** And the recorded conformation id is that of the first unit of the
    current group. *)
Definition consistent (s : State) : Prop :=
  equipped s
  ∧ ∀ g u, is_Some (renderObject s) → currentGroup s = Some g →
      Unit.units g !! 0 = Some u →
      currentConformationId s = Some (Unit.conformationId u).

(** ** An example builder and example inputs

    The builder follows the Gaussian density point visual in its
    [setUpdateState] and [eachNucleotideElement] in the whole-unit path of
    its [mark]; its iterator has four groups per unit. *)

Module Example.

Definition uniformSize : SizeThemeProps := {| sizeName := "uniform"; sizeValue := 1 |}.

Definition props0 : Props :=
  {| sizeTheme := uniformSize; colorTheme := 0;
     unitKinds := [Unit.Atomic; Unit.Spheres];
     extra := {[ "resolutionFactor" := 6%Z ]} |}.

Definition geometryOf (u : Unit.t) (_ : option Structure) (p : Props)
    (_ : option Geometry) : Geometry :=
  {| primitiveCount := 2;
     buffer := [Z.of_nat (Unit.conformation u); sizeValue (sizeTheme p)] |}.

Definition iteratorOf (g : Unit.SymmetryGroup) : LocationIterator :=
  {| groupCount := 4; instanceCount := length (Unit.units g); cursor := 0 |}.

(** [if (apply(Interval.ofBounds(start, end))) changed = true] for each
    element of the loci, then [return changed]. *)
Fixpoint markUnits (groupCount : nat) (unitIdxs : list nat) (changed : bool) : MarkScript :=
  match unitIdxs with
  | [] => Done changed
  | unitIdx :: rest =>
      Apply (Interval.ofBounds (unitIdx * groupCount) (unitIdx * groupCount + groupCount))
        (λ r, markUnits groupCount rest (if r then true else changed))
  end.

Definition markOf (loci : Loci) (g : Unit.SymmetryGroup) : MarkScript :=
  match loci with
  | ElementLoci elements => markUnits 4 elements.*1 false
  | _ => Done false
  end.

Definition propChanged (name : string) (newProps currentProps : Props) : bool :=
  negb (bool_decide (extra newProps !! name = extra currentProps !! name)).

Definition setUpdateStateOf (st : VisualUpdateState.t) (newProps currentProps : Props) :
    VisualUpdateState.t :=
  let st := if propChanged "resolutionFactor" newProps currentProps
            then VisualUpdateState.setCreateGeometry true st else st in
  let st := if propChanged "radiusOffset" newProps currentProps
            then VisualUpdateState.setCreateGeometry true st else st in
  if propChanged "smoothness" newProps currentProps
  then VisualUpdateState.setCreateGeometry true st else st.

Definition builder : Builder :=
  {| defaultProps := props0;
     createGeometry := geometryOf;
     createLocationIterator := iteratorOf;
     mark := markOf;
     setUpdateState := setUpdateStateOf |}.

(** Highlight sets the lowest bit, select the next one, clear resets both. *)
Definition markerByteOf (a : MarkerAction) (v : byte) : byte :=
  match a, v with
  | Highlight, x00 => x01
  | Highlight, x02 => x03
  | Select, x00 => x02
  | Select, x01 => x03
  | Clear, (x01 | x02 | x03) => x00
  | _, _ => v
  end.

Definition collaborators : Collaborators :=
  {| unitTransform := Unit.operator;
     colorsOf := λ it theme,
       replicate (groupCount it * instanceCount it)
         (from_option colorValue 0%Z theme);
     sizesOf := λ it theme,
       replicate (groupCount it * instanceCount it) (sizeValue theme);
     updateValues := λ _ _ p, [sizeValue (sizeTheme p)];
     updateRenderableState := λ st _, st;
     markerByte := markerByteOf |}.

Definition theme0 : ColorThemeProps :=
  {| colorName := "uniform"; colorValue := 7; themeStructure := None |}.

Definition objects0 : gmap loc ColorThemeProps := {[ 0 := theme0 ]}.

Definition unitA (i : nat) (conf : nat) : Unit.t :=
  {| Unit.unitId := i; Unit.kind := Unit.Atomic; Unit.conformation := conf;
     Unit.operator := Z.of_nat i |}.

Definition unitS (i : nat) (conf : nat) : Unit.t :=
  {| Unit.unitId := i; Unit.kind := Unit.Spheres; Unit.conformation := conf;
     Unit.operator := Z.of_nat i |}.

Definition groupG : Unit.SymmetryGroup :=
  {| Unit.units := [unitA 0 5; unitA 1 5]; Unit.hashCode := 11 |}.

(** Another group object of the shape of [groupG]: same hash code, same unit
    count, same conformation of the first unit; its second unit is another
    symmetry copy, of another conformation. *)
Definition groupH : Unit.SymmetryGroup :=
  {| Unit.units := [unitA 0 5; unitA 2 9]; Unit.hashCode := 11 |}.

Definition structure0 : Structure := {| structureUnits := [unitA 0 5; unitA 1 5] |}.

Definition sg (g : Unit.SymmetryGroup) : option StructureGroup :=
  Some {| structure := structure0; group := g |}.

(** The state of a visual after its first [createOrUpdate], with [groupG]. *)
Definition created (visual : Visual) : State :=
  (createOrUpdate visual builder collaborators noProps (sg groupG)
     (initial objects0)).1.

(** Its render object. *)
Definition createdObject (visual : Visual) : RenderObject :=
  default
    {| values := {| drawCount := ValueCell.create 0;
                    tMarker := ValueCell.create [];
                    aTransform := ValueCell.create [];
                    color := ValueCell.create [];
                    size := ValueCell.create [];
                    declared := [] |};
       state := [] |}
    (renderObject (created visual)).

(** Partial props that change the size theme. *)
Definition biggerSize : PartialProps :=
  {| sizeTheme_opt := Some {| sizeName := "uniform"; sizeValue := 2 |};
     colorTheme_opt := None; unitKinds_opt := None; extra_opt := ∅ |}.

(** Partial props that keep atomic units only. *)
Definition atomicOnly : PartialProps :=
  {| sizeTheme_opt := None; colorTheme_opt := None;
     unitKinds_opt := Some [Unit.Atomic]; extra_opt := ∅ |}.

End Example.

(** ** Picking *)

(** [PickingId] of [mol-geo/geometry/picking]. *)
Record PickingId := {
  objectId : nat;
  instanceId : nat;
  groupId : nat
}.

(** [getLoci(pickingId)] of a visual, for the [getLoci] of its builder; [id]
    is the id of the render object, which the factory assigns once and which
    is no part of [RenderObject]. *)
Definition getLoci
    (builderGetLoci : PickingId → Unit.SymmetryGroup → nat → Loci)
    (id : nat) (pickingId : PickingId) : M Loci :=
  s ← get;
  match renderObject s with
  | Some _ =>
      g ← defined (currentGroup s);
      mret (builderGetLoci pickingId g id)
  | None => mret EmptyLoci
  end.

(** ** Further invariants of a visual *)

(** The marker buffer has one byte per slot of the location iterator. *)
Definition markerSized (s : State) : Prop :=
  ∀ ro it, renderObject s = Some ro → locationIt s = Some it →
    length (ValueCell.value (tMarker (values ro)))
    = instanceCount it * groupCount it.

(** ** The Gaussian density point visual *)

Module GaussianDensityPoint.

(** [newProps.name !== currentProps.name] for a prop of the builder. *)
Definition differ (name : string) (newProps currentProps : Props) : bool :=
  negb (bool_decide (extra newProps !! name = extra currentProps !! name)).

(** [DefaultUnitsPointsProps] of the units visual, over the defaults of the
    structure points. *)
Definition DefaultUnitsPointsProps (DefaultStructurePointsProps : Props) : Props :=
  assign DefaultStructurePointsProps
    {| sizeTheme_opt := None; colorTheme_opt := None;
       unitKinds_opt := Some [Unit.Atomic; Unit.Spheres]; extra_opt := ∅ |}.

(** [DefaultGaussianDensityPointProps]: the two spreads, then the size theme
    and [pointSizeAttenuation: false]. *)
Definition DefaultGaussianDensityPointProps (DefaultStructurePointsProps : Props)
    (DefaultGaussianDensityProps : PartialProps) : Props :=
  assign
    (assign (DefaultUnitsPointsProps DefaultStructurePointsProps)
       DefaultGaussianDensityProps)
    {| sizeTheme_opt := Some {| sizeName := "uniform"; sizeValue := 1 |};
       colorTheme_opt := None; unitKinds_opt := None;
       extra_opt := {[ "pointSizeAttenuation" := 0%Z ]} |}.

(** The builder [GaussianDensityPointVisual] hands to [UnitsPointsVisual]. *)
Definition GaussianDensityPointVisual (defaultProps : Props)
    (createPoints :
       Unit.t → option Structure → Props → option Geometry → Geometry)
    (fromGroup : Unit.SymmetryGroup → LocationIterator) : Builder :=
  {| defaultProps := defaultProps;
     createGeometry := createPoints;
     createLocationIterator := fromGroup;
     mark := λ _ _, Done false;
     setUpdateState := λ state newProps currentProps,
       let state :=
         if differ "resolutionFactor" newProps currentProps
         then VisualUpdateState.setCreateGeometry true state else state in
       let state :=
         if differ "radiusOffset" newProps currentProps
         then VisualUpdateState.setCreateGeometry true state else state in
       if differ "smoothness" newProps currentProps
       then VisualUpdateState.setCreateGeometry true state else state |}.

(** [getLoci: () => EmptyLoci] *)
Definition getLoci (_ : PickingId) (_ : Unit.SymmetryGroup) (_ : nat) : Loci :=
  EmptyLoci.

(** Whether one of the three props the hook looks at differs. *)
Definition densityPropsDiffer (newProps currentProps : Props) : bool :=
  differ "resolutionFactor" newProps currentProps
  || differ "radiusOffset" newProps currentProps
  || differ "smoothness" newProps currentProps.

(** The progress reports of [ctx.update]. *)
Record Progress := {
  current : nat;
  max : nat
}.

(** The variables of the loop of [createGaussianDensityPoint]: the counter
    [i], the points added to the builder, each with its group, and the
    progress reports made, both oldest first. *)
Record Loop (Vec3 : Type) := {
  i : nat;
  added : list (Vec3 * nat);
  updates : list Progress
}.
Arguments i {Vec3} _.
Arguments added {Vec3} _.
Arguments updates {Vec3} _.

(** The loop looks at [ctx.shouldUpdate] when the counter is a multiple of
    100000. *)
Definition every : N := 100000.

Section createGaussianDensityPoint.

(** The density field of [computeGaussianDensity]: its dimensions, whether
    [get(data, x, y, z) > 0.001], and the grid point [(x, y, z)] mapped by
    [transform]; [shouldUpdate] is what [ctx.shouldUpdate] says when the
    counter is [i]. *)
Context {Vec3 : Type} (dimensions : nat * nat * nat)
  (exceeds : nat → nat → nat → bool)
  (transformed : nat → nat → nat → Vec3)
  (shouldUpdate : nat → bool).

Definition n : nat :=
  let '(xn, yn, zn) := dimensions in xn * yn * zn * 3.

(** The body of the innermost loop. *)
Definition body (x y z : nat) (l : Loop Vec3) : Loop Vec3 :=
  let l :=
    if exceeds x y z
    then {| i := i l; added := added l ++ [(transformed x y z, i l)];
            updates := updates l |}
    else l in
  let l :=
    if bool_decide (N.of_nat (i l) mod every = 0)%N && shouldUpdate (i l)
    then {| i := i l; added := added l;
            updates := updates l ++ [{| current := i l; max := n |}] |}
    else l in
  {| i := S (i l); added := added l; updates := updates l |}.

(** The three nested loops, from [i = 0] and an empty builder. *)
Definition loop : Loop Vec3 :=
  let '(xn, yn, zn) := dimensions in
  foldl (λ l x,
    foldl (λ l y,
      foldl (λ l z, body x y z l) l (seq 0 zn)) l (seq 0 yn))
    {| i := 0; added := []; updates := [] |} (seq 0 xn).

(** [createGaussianDensityPoint]: the points of the builder. *)
Definition createGaussianDensityPoint : list (Vec3 * nat) := added loop.

(** What one pass of the body adds to the points, at the cell [(x, y, z)]
    with the counter at [k], *)
Definition pointAt (x y z k : nat) : list (Vec3 * nat) :=
  if exceeds x y z then [(transformed x y z, k)] else [].

(** and to the progress reports. *)
Definition reportAt (k : nat) : list Progress :=
  if bool_decide (N.of_nat k mod every = 0)%N && shouldUpdate k
  then [{| current := k; max := n |}]
  else [].

End createGaussianDensityPoint.

End GaussianDensityPoint.

(** ** The loci of the application ([mol-model/loci.ts])

    The union of all loci, of which [Loci] above is the part a units visual
    looks at. *)

Module Loci.

(** [DataLoci]; [data] is an object, of which only the identity is observed,
    and the indices are an ordered set. *)
Record DataLoci := {
  data : nat;
  tag : string;
  indices : list nat
}.

#[global] Instance DataLoci_eq_dec : EqDecision DataLoci.
Proof. solve_decision. Defined.

(** [Loci.Granularity] *)
Inductive Granularity := element | residue | chain | entity | model | structure.

#[global] Instance Granularity_eq_dec : EqDecision Granularity.
Proof. solve_decision. Defined.

Section Loci.

(** The loci of the structure model and of the shapes. *)
Context {StructureLoci ElementLoci LinkLoci ShapeLoci GroupLoci : Type}.

(** [type Loci = StructureElement.Loci | Structure.Loci | Link.Loci |
    EveryLoci | EmptyLoci | DataLoci | Shape.Loci | ShapeGroup.Loci] *)
Inductive t :=
| Every
| Empty
| Data (loci : DataLoci)
| OfStructure (loci : StructureLoci)
| OfElement (loci : ElementLoci)
| OfLink (loci : LinkLoci)
| OfShape (loci : ShapeLoci)
| OfGroup (loci : GroupLoci).

(** The functions of [Structure], [StructureElement.Loci], [Link], [Shape]
    and [ShapeGroup] that [loci.ts] calls, each taken as the function it
    computes. *)
Record Model := {
  Structure_areLociEqual : StructureLoci → StructureLoci → bool;
  Structure_isLociEmpty : StructureLoci → bool;
  (** [Structure.toStructureElementLoci(loci.structure)] of a structure loci *)
  Structure_toStructureElementLoci : StructureLoci → ElementLoci;
  StructureElement_areEqual : ElementLoci → ElementLoci → bool;
  StructureElement_isEmpty : ElementLoci → bool;
  (** [StructureElement.Loci.remap(loci, loci.structure.root)] *)
  StructureElement_remapToRoot : ElementLoci → ElementLoci;
  (** [StructureElement.Loci.extendToWholeResidues(loci, true)] *)
  StructureElement_extendToWholeResidues : ElementLoci → ElementLoci;
  StructureElement_extendToWholeChains : ElementLoci → ElementLoci;
  StructureElement_extendToWholeEntities : ElementLoci → ElementLoci;
  StructureElement_extendToWholeModels : ElementLoci → ElementLoci;
  (** [Structure.toStructureElementLoci(loci.structure)] of an element loci *)
  StructureElement_wholeStructure : ElementLoci → ElementLoci;
  Link_areLociEqual : LinkLoci → LinkLoci → bool;
  Link_isLociEmpty : LinkLoci → bool;
  Link_toStructureElementLoci : LinkLoci → ElementLoci;
  Shape_areLociEqual : ShapeLoci → ShapeLoci → bool;
  Shape_isLociEmpty : ShapeLoci → bool;
  ShapeGroup_areLociEqual : GroupLoci → GroupLoci → bool;
  ShapeGroup_isLociEmpty : GroupLoci → bool
}.

Definition kind (x : t) : string :=
  match x with
  | Every => "every-loci"
  | Empty => "empty-loci"
  | Data _ => "data-loci"
  | OfStructure _ => "structure-loci"
  | OfElement _ => "element-loci"
  | OfLink _ => "link-loci"
  | OfShape _ => "shape-loci"
  | OfGroup _ => "group-loci"
  end.

(** [isEveryLoci(x?: Loci)] *)
Definition isEveryLoci (x : option t) : bool :=
  match x with
  | Some l => bool_decide (kind l = "every-loci")
  | None => false
  end.

(** [isEmptyLoci(x?: Loci)] *)
Definition isEmptyLoci (x : option t) : bool :=
  match x with
  | Some l => bool_decide (kind l = "empty-loci")
  | None => false
  end.

(** [isDataLoci(x?: Loci)] *)
Definition isDataLoci (x : option t) : bool :=
  match x with
  | Some l => bool_decide (kind l = "data-loci")
  | None => false
  end.

(** [areDataLociEqual(a, b)].  Modelled from the spec: [OrderedSet.areEqual]
    is the equality of the two sets. *)
Definition areDataLociEqual (a b : DataLoci) : bool :=
  bool_decide (data a = data b) && bool_decide (tag a = tag b)
  && bool_decide (indices a = indices b).

(** [isDataLociEmpty(loci)] *)
Definition isDataLociEmpty (loci : DataLoci) : bool :=
  if bool_decide (length (indices loci) = 0) then true else false.

(** [createDataLoci(data, tag, indices)] *)
Definition createDataLoci (data : nat) (tag : string) (indices : list nat) : t :=
  Data {| data := data; tag := tag; indices := indices |}.

Context (M : Model).

(** [Loci.areEqual(lociA, lociB)].  Modelled from the spec: the type guards
    of the structure model and of the shapes test the [kind]. *)
Definition areEqual (lociA lociB : t) : bool :=
  if isEveryLoci (Some lociA) && isEveryLoci (Some lociB) then true
  else if isEmptyLoci (Some lociA) && isEmptyLoci (Some lociB) then true
  else
    match lociA, lociB with
    | Data a, Data b => areDataLociEqual a b
    | OfStructure a, OfStructure b => Structure_areLociEqual M a b
    | OfElement a, OfElement b => StructureElement_areEqual M a b
    | OfLink a, OfLink b => Link_areLociEqual M a b
    | OfShape a, OfShape b => Shape_areLociEqual M a b
    | OfGroup a, OfGroup b => ShapeGroup_areLociEqual M a b
    | _, _ => false
    end.

(** [Loci.isEvery(loci?)] *)
Definition isEvery (loci : option t) : bool :=
  match loci with
  | Some l => bool_decide (kind l = "every-loci")
  | None => false
  end.

(** [Loci.isEmpty(loci)] *)
Definition isEmpty (loci : t) : bool :=
  if isEveryLoci (Some loci) then false
  else if isEmptyLoci (Some loci) then true
  else
    match loci with
    | Data l => isDataLociEmpty l
    | OfStructure l => Structure_isLociEmpty M l
    | OfElement l => StructureElement_isEmpty M l
    | OfLink l => Link_isLociEmpty M l
    | OfShape l => Shape_isLociEmpty M l
    | OfGroup l => ShapeGroup_isLociEmpty M l
    | _ => false
    end.

(** The table [Granularity] and [applyGranularity(loci, granularity)]. *)
Definition applyGranularity (loci : t) (granularity : Granularity) : t :=
  match granularity with
  | element => loci
  | residue =>
      match loci with
      | OfElement l => OfElement (StructureElement_extendToWholeResidues M l)
      | _ => loci
      end
  | chain =>
      match loci with
      | OfElement l => OfElement (StructureElement_extendToWholeChains M l)
      | _ => loci
      end
  | entity =>
      match loci with
      | OfElement l => OfElement (StructureElement_extendToWholeEntities M l)
      | _ => loci
      end
  | model =>
      match loci with
      | OfElement l => OfElement (StructureElement_extendToWholeModels M l)
      | _ => loci
      end
  | structure =>
      match loci with
      | OfElement l => OfElement (StructureElement_wholeStructure M l)
      | _ => loci
      end
  end.

(** [Loci.normalize(loci, granularity?)] *)
Definition normalize (loci : t) (granularity : option Granularity) : t :=
  let loci :=
    match loci with
    | OfLink l =>
        if negb (bool_decide (granularity = Some element))
        then OfElement (Link_toStructureElementLoci M l) else loci
    | _ => loci
    end in
  let loci :=
    match loci with
    | OfStructure l => OfElement (Structure_toStructureElementLoci M l)
    | _ => loci
    end in
  let loci :=
    match loci with
    | OfElement l => OfElement (StructureElement_remapToRoot M l)
    | _ => loci
    end in
  match granularity with
  | Some g => applyGranularity loci g
  | None => loci
  end.

End Loci.

Arguments t : clear implicits.
Arguments Model : clear implicits.

End Loci.

(** ** The nucleotide visuals' iterator and marking *)

Module Nucleotide.

(** An ordered set of [mol-data/int]: an interval or a sorted array. *)
Inductive OrderedSet :=
| IntervalSet (start stop : nat)
| SortedArray (array : list nat).

(** Modelled from the spec: [OrderedSet.forEach] visits the values in
    ascending order. *)
Definition forEach (set : OrderedSet) : list nat :=
  match set with
  | IntervalSet start stop => seq start (stop - start)
  | SortedArray array => array
  end.

(** An element of a [StructureElement.Loci]: a unit and indices into its
    elements. *)
Record Element := {
  unit : Unit.t;
  indices : OrderedSet
}.

(** [StructureElement.Loci]: its [structure] and its [elements]. *)
Record StructureElementLoci := {
  lociStructure : Structure;
  lociElements : list Element
}.

(** [StructureElement.Location] *)
Record Location := {
  locationUnit : option Unit.t;
  locationElement : option nat
}.

(** Modelled from the spec: [Unit.isAtomic] tests the kind. *)
Definition isAtomic (u : Unit.t) : bool :=
  bool_decide (Unit.kind u = Unit.Atomic).

(** [Interval.ofSingleton(value)] *)
Definition ofSingleton (value : nat) : Interval.t :=
  Interval.ofBounds value (value + 1).

(** The scan over the indices of one element: [changed] is the variable of
    the enclosing function, [k] what follows the [forEach]. *)
Fixpoint eachIndex (unitIdx groupCount : nat) (idx : nat → option nat)
    (values : list nat) (changed : bool) (k : bool → MarkScript) : MarkScript :=
  match values with
  | [] => k changed
  | v :: values =>
      match idx v with
      | Some i =>
          Apply (ofSingleton (unitIdx * groupCount + i))
            (λ r, eachIndex unitIdx groupCount idx values
                    (if r then true else changed) k)
      | None => eachIndex unitIdx groupCount idx values changed k
      end
  end.

Section Nucleotide.

(** What the functions read of the structure model: the nucleotide elements
    and the elements of a unit, the [unitIndexMap] of a group,
    [Structure.areEquivalent], and the lookup the scan makes for an index
    [v] of an element [e]: the position, among the nucleotide elements of the
    unit of [e], of the trace element of the residue of [v], where the
    residue meets the indices of [e] and the trace element is a nucleotide
    element. *)
Context (nucleotideElements : Unit.t → list nat)
  (unitElements : Unit.t → list nat)
  (unitIndexMap : Unit.SymmetryGroup → gmap nat nat)
  (areEquivalent : Structure → Structure → bool)
  (nucleotideIndex : Unit.t → Element → nat → option nat).

(** The [nucleotideElementIndices] of [fromGroup]. *)
Definition nucleotideElementIndices (u : Unit.t) : list nat :=
  if isAtomic u then nucleotideElements u else [].

(** [NucleotideLocationIterator.fromGroup(group)]: the iterator, or the
    error of reading the kind of an absent first unit. *)
Definition fromGroup (group : Unit.SymmetryGroup) : Result LocationIterator :=
  match Unit.units group !! 0 with
  | None => Throw TypeError
  | Some u =>
      Ok {| groupCount := length (nucleotideElementIndices u);
            instanceCount := length (Unit.units group);
            cursor := 0 |}
  end.

(** The [getLocation] of the iterator of [fromGroup], for a first unit [u]. *)
Definition getLocation (group : Unit.SymmetryGroup) (u : Unit.t)
    (groupIndex instanceIndex : nat) : Location :=
  {| locationUnit := Unit.units group !! instanceIndex;
     locationElement := nucleotideElementIndices u !! groupIndex |}.

(** [Interval.is(e.indices) && Interval.start(e.indices) === 0 &&
    Interval.end(e.indices) === e.unit.elements.length] *)
Definition coversUnit (e : Element) : bool :=
  match indices e with
  | IntervalSet start stop =>
      bool_decide (start = 0)
      && bool_decide (stop = length (unitElements (unit e)))
  | SortedArray _ => false
  end.

(** The loop of [eachNucleotideElement] over [loci.elements]. *)
Fixpoint eachElement (group : Unit.SymmetryGroup) (u : Unit.t)
    (groupCount : nat) (es : list Element) (changed : bool) : MarkScript :=
  match es with
  | [] => Done changed
  | e :: es =>
      match unitIndexMap group !! Unit.unitId (unit e) with
      | Some unitIdx =>
          if isAtomic (unit e) then
            if coversUnit e then
              Apply (Interval.ofBounds (unitIdx * groupCount)
                       (unitIdx * groupCount + groupCount))
                (λ r, eachElement group u groupCount es
                        (if r then true else changed))
            else
              eachIndex unitIdx groupCount (nucleotideIndex u e)
                (forEach (indices e)) changed
                (eachElement group u groupCount es)
          else eachElement group u groupCount es changed
      | None => eachElement group u groupCount es changed
      end
  end.

(** [eachNucleotideElement(loci, structureGroup, apply)], as what it does
    with [apply]; the error is that of reading the kind of an absent first
    unit. *)
Definition eachNucleotideElement {SL LL ShL GL : Type}
    (loci : Loci.t SL StructureElementLoci LL ShL GL)
    (structureGroup : StructureGroup) : Result MarkScript :=
  match loci with
  | Loci.OfElement l =>
      if negb (areEquivalent (lociStructure l) (structure structureGroup))
      then Ok (Done false)
      else
        match Unit.units (group structureGroup) !! 0 with
        | None => Throw TypeError
        | Some u =>
            if negb (isAtomic u) then Ok (Done false)
            else Ok (eachElement (group structureGroup) u
                       (length (nucleotideElements u)) (lociElements l) false)
        end
  | _ => Ok (Done false)
  end.

End Nucleotide.

End Nucleotide.

(** ** Example inputs for the Gaussian density, the loci and the nucleotides *)

Module GaussianExample.

Definition densityDefaults : PartialProps :=
  {| sizeTheme_opt := None; colorTheme_opt := None; unitKinds_opt := None;
     extra_opt := {[ "resolutionFactor" := 6%Z; "radiusOffset" := 0%Z;
                     "smoothness" := 15%Z ]} |}.

Definition defaults : Props :=
  GaussianDensityPoint.DefaultGaussianDensityPointProps Example.props0
    densityDefaults.

Definition builder : Builder :=
  GaussianDensityPoint.GaussianDensityPointVisual defaults
    Example.geometryOf Example.iteratorOf.

(** A Gaussian density point visual after its first [createOrUpdate]. *)
Definition created : State :=
  (createOrUpdate PointsVisual builder Example.collaborators noProps
     (Example.sg Example.groupG) (initial Example.objects0)).1.

Definition createdObject : RenderObject :=
  default (Example.createdObject PointsVisual) (renderObject created).

Definition createdProps : Props :=
  default Example.props0 (currentProps created).

(** Partial props that change the smoothness. *)
Definition smoother : PartialProps :=
  {| sizeTheme_opt := None; colorTheme_opt := None; unitKinds_opt := None;
     extra_opt := {[ "smoothness" := 20%Z ]} |}.

(** A density field of two by two by three cells, dense where the sum of the
    coordinates is odd. *)
Definition exceeds (x y z : nat) : bool := Nat.odd (x + y + z).

End GaussianExample.

Module LociExample.

(** Loci of the structure model and of the shapes that are numbers, equal
    when the numbers are and empty when 0. *)
Definition model : Loci.Model nat nat nat nat nat :=
  {| Loci.Structure_areLociEqual := Nat.eqb;
     Loci.Structure_isLociEmpty := Nat.eqb 0;
     Loci.Structure_toStructureElementLoci := λ l, l;
     Loci.StructureElement_areEqual := Nat.eqb;
     Loci.StructureElement_isEmpty := Nat.eqb 0;
     Loci.StructureElement_remapToRoot := λ l, l;
     Loci.StructureElement_extendToWholeResidues := λ l, l;
     Loci.StructureElement_extendToWholeChains := λ l, l;
     Loci.StructureElement_extendToWholeEntities := λ l, l;
     Loci.StructureElement_extendToWholeModels := λ l, l;
     Loci.StructureElement_wholeStructure := λ l, l;
     Loci.Link_areLociEqual := Nat.eqb;
     Loci.Link_isLociEmpty := Nat.eqb 0;
     Loci.Link_toStructureElementLoci := λ l, l;
     Loci.Shape_areLociEqual := Nat.eqb;
     Loci.Shape_isLociEmpty := Nat.eqb 0;
     Loci.ShapeGroup_areLociEqual := Nat.eqb;
     Loci.ShapeGroup_isLociEmpty := Nat.eqb 0 |}.

End LociExample.

Module NucleotideExample.

(** Units of twenty elements, four of them nucleotide elements. *)
Definition nucleotideElements (_ : Unit.t) : list nat := [2; 7; 12; 17].

Definition unitElements (_ : Unit.t) : list nat := seq 0 20.

Definition unitIndexMap (g : Unit.SymmetryGroup) : gmap nat nat :=
  list_to_map (imap (λ i u, (Unit.unitId u, i)) (Unit.units g)).

Definition areEquivalent (a b : Structure) : bool := bool_decide (a = b).

(** Residues of five elements, each with its nucleotide element. *)
Definition nucleotideIndex (_ : Unit.t) (_ : Nucleotide.Element) (v : nat) :
    option nat :=
  if bool_decide (v < 20) then Some (v / 5) else None.

(** The whole second unit of [Example.groupG]. *)
Definition secondUnit : Nucleotide.Element :=
  {| Nucleotide.unit := Example.unitA 1 5;
     Nucleotide.indices := Nucleotide.IntervalSet 0 20 |}.

Definition structureGroup : StructureGroup :=
  {| structure := Example.structure0; group := Example.groupG |}.

End NucleotideExample.

(** ** Builders of other kinds

    Builders that the builder interfaces admit as well, each the example
    builder but for one member, and groups with a coarse unit. *)

Module OtherBuilders.

(** An iterator with one instance per atomic unit of the group, a coarse
    unit having none:
    [createLocationIterator: group => LocationIterator(4,
       group.units.filter(Unit.isAtomic).length, ...)]. *)
Definition atomicIteratorOf (g : Unit.SymmetryGroup) : LocationIterator :=
  {| groupCount := 4;
     instanceCount :=
       length (filter (λ u, Unit.kind u = Unit.Atomic) (Unit.units g));
     cursor := 0 |}.

Definition atomicInstances : Builder :=
  {| defaultProps := Example.props0;
     createGeometry := Example.geometryOf;
     createLocationIterator := atomicIteratorOf;
     mark := Example.markOf;
     setUpdateState := Example.setUpdateStateOf |}.

(** A hook that asks for new transforms when the instances are to be
    grouped otherwise:
    [if (newProps.instanceGranularity !== currentProps.instanceGranularity)
       state.updateTransform = true]. *)
Definition setUpdateStateOfInstances (st : VisualUpdateState.t)
    (newProps currentProps : Props) : VisualUpdateState.t :=
  if Example.propChanged "instanceGranularity" newProps currentProps
  then VisualUpdateState.setUpdateTransform true st else st.

Definition regroupedInstances : Builder :=
  {| defaultProps := Example.props0;
     createGeometry := Example.geometryOf;
     createLocationIterator := Example.iteratorOf;
     mark := Example.markOf;
     setUpdateState := setUpdateStateOfInstances |}.

(** A [mark] that does not return what [apply] returned:
    [mark: (loci, group, apply) => {
       if (loci.kind === 'element-loci') {
         apply(Interval.ofBounds(0, 4)); return false
       }
       return true
     }]. *)
Definition unreportedMarkOf (loci : Loci) (_ : Unit.SymmetryGroup) : MarkScript :=
  match loci with
  | ElementLoci _ => Apply (Interval.ofBounds 0 4) (λ _, Done false)
  | _ => Done true
  end.

Definition unreportedMarks : Builder :=
  {| defaultProps := Example.props0;
     createGeometry := Example.geometryOf;
     createLocationIterator := Example.iteratorOf;
     mark := unreportedMarkOf;
     setUpdateState := Example.setUpdateStateOf |}.

(** A group of an atomic and a coarse unit. *)
Definition groupM : Unit.SymmetryGroup :=
  {| Unit.units := [Example.unitA 0 5; Example.unitS 1 5]; Unit.hashCode := 12 |}.

(** A group of the hash code and the unit count of [groupM], in conformation
    6, with two atomic units. *)
Definition groupM6 : Unit.SymmetryGroup :=
  {| Unit.units := [Example.unitA 0 6; Example.unitA 1 6]; Unit.hashCode := 12 |}.

(** [groupG] in conformation 6. *)
Definition groupG6 : Unit.SymmetryGroup :=
  {| Unit.units := [Example.unitA 0 6; Example.unitA 1 6]; Unit.hashCode := 11 |}.

(** Partial props that change the grouping of the instances. *)
Definition regrouped : PartialProps :=
  {| sizeTheme_opt := None; colorTheme_opt := None; unitKinds_opt := None;
     extra_opt := {[ "instanceGranularity" := 1%Z ]} |}.

End OtherBuilders.

(** ** Running the operations symbolically *)

(** Unfolds the operations, the monad and the record accessors, and nothing
    of what they compute with. *)
Ltac run_steps :=
  cbv [createOrUpdate update create markVisual destroy
    buildGeometry createUnitsTransform createMarkers createColors createSizes
    createUnitsRenderObject
    bindStructure setValues raise when defined liftResult throw get modify
    mbind M_bind mret M_ret fmap option_fmap option_map
    setRenderObject setCurrentProps setGeometry setCurrentGroup
    setCurrentStructure setLocationIt setCurrentConformationId setUpdateFlags
    setObjects logCall
    renderObject currentProps geometry currentGroup currentStructure
    locationIt currentConformationId updateState objects calls
    setDrawCount setTMarker setATransform setColor setSize setDeclared
    drawCount tMarker aTransform color size declared values state
    structure group
    resetIterator exhaustIterator groupCount instanceCount cursor
    ValueCell.update ValueCell.poke ValueCell.create
    ValueCell.value ValueCell.version
    VisualUpdateState.reset VisualUpdateState.create
    VisualUpdateState.setUpdateTransform VisualUpdateState.setUpdateColor
    VisualUpdateState.setUpdateSize VisualUpdateState.setCreateGeometry
    VisualUpdateState.updateTransform VisualUpdateState.updateColor
    VisualUpdateState.updateSize VisualUpdateState.createGeometry
    fst snd negb] in *.

Ltac run :=
  run_steps;
  cbv [diffRules diffRulesMesh diffRulesPoints diffRulesLines] in *;
  run_steps.

(** Case analysis on the next test the run is stuck at. *)
Ltac split_test :=
  match goal with
  | |- context [if ?b then _ else _] => destruct b eqn:?; run
  end.

Ltac split_tests := repeat split_test.

(** ** Basic facts *)

Lemma sameGroupConformation_same (a b : Unit.SymmetryGroup) (ua ub : Unit.t) :
  Unit.units a !! 0 = Some ua →
  Unit.units b !! 0 = Some ub →
  sameGroupConformation a b =
    Ok (bool_decide (length (Unit.units a) = length (Unit.units b)
                     ∧ Unit.conformationId ua = Unit.conformationId ub)).
Proof.
  intros Ha Hb. unfold sameGroupConformation. rewrite Ha, Hb.
  destruct (decide (length (Unit.units a) = length (Unit.units b))) as [Hl|Hl].
  - rewrite (bool_decide_eq_true_2 _ Hl).
    destruct (decide (Unit.conformationId ua = Unit.conformationId ub)) as [Hc|Hc].
    + by rewrite !bool_decide_eq_true_2.
    + rewrite !bool_decide_eq_false_2; [done| |done]. by intros [_ ?].
  - rewrite !bool_decide_eq_false_2; [done| |done]. by intros [? _].
Qed.

Lemma sameGroupConformation_never_missing (a b : Unit.SymmetryGroup) :
  sameGroupConformation a b ≠ Throw MissingGroup.
Proof.
  unfold sameGroupConformation.
  case_bool_decide; [|done]. by repeat case_match.
Qed.

Lemma create_never_missing visual B C g props s :
  (create visual B C g props s).2 ≠ Throw MissingGroup.
Proof.
  destruct s. run.
  destruct (Unit.units g !! 0); [|done].
  split_tests; done.
Qed.

(** ** The update pass, run *)

(** The universal diff rules set the flags of [diffFlags] and record the
    conformation id of the first unit. *)
Lemma diffRules_run visual u g newProps cp s it :
  locationIt s = Some it →
  diffRules visual u g newProps cp s =
    (setCurrentConformationId (Some (Unit.conformationId u))
       (setUpdateFlags
          (diffFlags visual (updateState s)
             (negb (bool_decide (Some (Unit.conformationId u)
                                 = currentConformationId s)))
             (negb (bool_decide (length (Unit.units g) = instanceCount it)))
             (negb (deepEqual (sizeTheme newProps) (sizeTheme cp)))
             (negb (deepEqual (objects s !! colorTheme newProps)
                              (objects s !! colorTheme cp)))
             (negb (deepEqual (unitKinds newProps) (unitKinds cp))))
          s), Ok tt).
Proof.
  intros Hit.
  destruct s as [ro cp' geo cg cs it' cid us objs cl]. simpl in Hit. subst it'.
  destruct us as [f1 f2 f3 f4].
  unfold diffFlags, deepEqual.
  destruct visual; run; unfold deepEqual;
    (destruct (bool_decide (Some (Unit.conformationId u) = cid)) eqn:Hcid;
      [apply bool_decide_eq_true_1 in Hcid; subst cid|]); run;
    repeat (match goal with
            | |- context [bool_decide ?P] => destruct (bool_decide P); run
            end);
    cbv [negb orb]; try reflexivity; destruct f1, f2, f3, f4; reflexivity.
Qed.

(** An update pass of a visual that has its render object, props, group with
    a first unit and iterator completes, and leaves [updateOutcome]. *)
Lemma update_run visual B C props ro cp geo g cs it cid us objs cl u :
  Unit.units g !! 0 = Some u →
  update visual B C props
    {| renderObject := Some ro; currentProps := Some cp; geometry := geo;
       currentGroup := Some g; currentStructure := cs; locationIt := Some it;
       currentConformationId := cid; updateState := us; objects := objs;
       calls := cl |}
  = (updateOutcome visual B C props ro cp geo g cs it cid objs cl u, Ok tt).
Proof.
  intros Hu.
  unfold updateOutcome, passCalls, passNewCalls, passValues, passGeometry,
    passGeometry0,
    passIterator, passIterator1, passIterator0, passFlags, colorStep, sizeStep,
    geometryStep, transformStep.
  run_steps. rewrite Hu. run_steps.
  erewrite diffRules_run by reflexivity.
  run_steps.
  change (setUpdateState B _ _ _) with (hookFlags B props cp).
  change (alter _ _ objs) with (passObjects props cp cs objs).
  change (assign cp props) with (passProps props cp).
  change (diffFlags _ _ _ _ _ _ _) with (diffedFlags visual B props cp g cs it cid objs u).
  destruct (diffedFlags visual B props cp g cs it cid objs u) as [t c z gm].
  destruct visual, t, c, z, gm; run_steps; cbv [orb app];
    try reflexivity; case_bool_decide; reflexivity.
Qed.

Lemma update_never_missing visual B C props s :
  (update visual B C props s).2 ≠ Throw MissingGroup.
Proof.
  destruct s as [ro cp geo cg cs it cid us objs cl].
  destruct ro; [|done].
  destruct cp; [|done].
  destruct cg as [g|]; [|done].
  destruct it; [|done].
  destruct (Unit.units g !! 0) as [u|] eqn:Hu.
  - by rewrite (update_run _ _ _ _ _ _ _ _ _ _ _ _ _ _ _ Hu).
  - run_steps. by rewrite Hu.
Qed.

Lemma update_currentGroup visual B C props s :
  currentGroup (update visual B C props s).1 = currentGroup s.
Proof.
  destruct s as [ro cp geo cg cs it cid us objs cl].
  destruct ro; [|done].
  destruct cp; [|done].
  destruct cg as [g|]; [|done].
  destruct it; [|done].
  destruct (Unit.units g !! 0) as [u|] eqn:Hu.
  - by rewrite (update_run _ _ _ _ _ _ _ _ _ _ _ _ _ _ _ Hu).
  - run_steps. by rewrite Hu.
Qed.

Lemma create_currentGroup visual B C g props s :
  currentGroup (create visual B C g props s).1 = Some g.
Proof.
  destruct s. run.
  destruct (Unit.units g !! 0); [|done].
  split_tests; done.
Qed.

(** The decision protocol of [createOrUpdate], branch by branch. *)
Lemma createOrUpdate_with_group visual B C props st g s :
  createOrUpdate visual B C props (Some {| structure := st; group := g |}) s =
    let s' := setCurrentStructure (Some st) s in
    match currentGroup s, renderObject s with
    | Some current, Some _ =>
        if bool_decide (Unit.hashCode g = Unit.hashCode current) then
          match sameGroupConformation g current with
          | Ok same =>
              update visual B C props
                (if same then s' else setCurrentGroup (Some g) s')
          | Throw e => (s', Throw e)
          end
        else create visual B C g props s'
    | _, _ => create visual B C g props s'
    end.
Proof.
  destruct s as [ro cp geo cg cs it cid us objs cl].
  unfold createOrUpdate.
  rewrite bool_decide_eq_true_2 by eauto.
  cbv [when mbind M_bind modify get fmap option_fmap option_map liftResult
       structure group currentGroup renderObject setCurrentStructure
       mret M_ret].
  destruct cg as [cur|]; [|done]. destruct ro; [|done].
  case_bool_decide; [|done].
  cbv [negb]. destruct (sameGroupConformation g cur) as [[]|]; done.
Qed.

Lemma createOrUpdate_without_group visual B C props s :
  createOrUpdate visual B C props None s =
    match currentGroup s with
    | Some _ => update visual B C props s
    | None => (s, Throw MissingGroup)
    end.
Proof.
  unfold createOrUpdate.
  rewrite bool_decide_eq_false_2 by (by intros [? ?]).
  cbv [when mbind M_bind modify get fmap option_fmap option_map
       mret M_ret throw].
  by destruct (currentGroup s).
Qed.

Lemma createOrUpdate_with_group_never_missing visual B C props sg s :
  (createOrUpdate visual B C props (Some sg) s).2 ≠ Throw MissingGroup.
Proof.
  destruct sg as [st g]. rewrite createOrUpdate_with_group. cbv zeta.
  destruct (currentGroup s) as [cur|]; [|apply create_never_missing].
  destruct (renderObject s); [|apply create_never_missing].
  case_bool_decide; [|apply create_never_missing].
  pose proof (sameGroupConformation_never_missing g cur).
  destruct (sameGroupConformation g cur) as [same|e].
  - apply update_never_missing.
  - simpl. congruence.
Qed.

(** The update path: a current group, a render object, and a supplied
    group of the current group's hash code. *)
Lemma createOrUpdate_same_hashCode visual B C props st
    (g current : Unit.SymmetryGroup) (u0 c0 : Unit.t) (s : State) :
  currentGroup s = Some current →
  is_Some (renderObject s) →
  Unit.hashCode g = Unit.hashCode current →
  Unit.units g !! 0 = Some u0 →
  Unit.units current !! 0 = Some c0 →
  createOrUpdate visual B C props (Some {| structure := st; group := g |}) s
    = update visual B C props
        (if bool_decide
              (length (Unit.units g) = length (Unit.units current)
               ∧ Unit.conformationId u0 = Unit.conformationId c0)
         then setCurrentStructure (Some st) s
         else setCurrentGroup (Some g) (setCurrentStructure (Some st) s)).
Proof.
  intros Hcur [ro Hro] Hhash Hu Hc.
  rewrite createOrUpdate_with_group. cbv zeta.
  rewrite Hcur, Hro, (bool_decide_eq_true_2 _ Hhash).
  by rewrite (sameGroupConformation_same _ _ _ _ Hu Hc).
Qed.

(** ** The missing group *)

(** C9. [createOrUpdate] throws the missing-group error exactly when it is
    given no structure group while the visual has no current group, as on a
    first call without a group; the error reaches the caller as the result of
    the call, and the state of the visual is then what it was before. *)
Theorem createOrUpdate_missing_group visual B C props
    (structureGroup : option StructureGroup) (s : State) :
  ((createOrUpdate visual B C props structureGroup s).2 = Throw MissingGroup
     ↔ structureGroup = None ∧ currentGroup s = None)
  ∧ ((createOrUpdate visual B C props structureGroup s).2 = Throw MissingGroup
     → (createOrUpdate visual B C props structureGroup s).1 = s)
  ∧ ∀ objs, createOrUpdate visual B C props None (initial objs)
            = (initial objs, Throw MissingGroup).
Proof.
  assert (Hiff :
    (createOrUpdate visual B C props structureGroup s).2 = Throw MissingGroup
    ↔ structureGroup = None ∧ currentGroup s = None).
  { destruct structureGroup as [sg|].
    - split; [|intros [? _]; discriminate].
      intros H. by apply createOrUpdate_with_group_never_missing in H.
    - rewrite createOrUpdate_without_group.
      destruct (currentGroup s) eqn:Hcur.
      + split; [|intros [_ ?]; discriminate].
        intros H. by apply update_never_missing in H.
      + by split. }
  split; [exact Hiff|split].
  - intros [-> Hcur]%Hiff.
    by rewrite createOrUpdate_without_group, Hcur.
  - reflexivity.
Qed.

(** The first call of a visual, made without a group. *)
Lemma createOrUpdate_missing_group_witness :
  (createOrUpdate MeshVisual Example.builder Example.collaborators noProps None
     (initial Example.objects0)).2 = Throw MissingGroup
  ∧ (createOrUpdate MeshVisual Example.builder Example.collaborators noProps
       None (initial Example.objects0)).1 = initial Example.objects0.
Proof.
  pose proof (createOrUpdate_missing_group MeshVisual Example.builder
    Example.collaborators noProps None (initial Example.objects0))
    as (Hiff & Hsame & _).
  assert ((createOrUpdate MeshVisual Example.builder Example.collaborators
             noProps None (initial Example.objects0)).2 = Throw MissingGroup)
    as H by (apply Hiff; split; reflexivity).
  split; [exact H|exact (Hsame H)].
Defined.

(** ** Adopting a supplied group *)

(** C1, as the code has it. In the update path of [createOrUpdate], that is
    with a current group, a render object and a supplied group of the current
    group's hash code, the supplied group becomes the current group before
    [update] runs exactly when its unit count or the conformation id of its
    first unit differs from the current group's; otherwise the current group
    is kept, also when the supplied group is another object. *)
Theorem createOrUpdate_adopts_new_conformation visual B C props st
    (g current : Unit.SymmetryGroup) (u0 c0 : Unit.t) (s : State) :
  currentGroup s = Some current →
  is_Some (renderObject s) →
  Unit.hashCode g = Unit.hashCode current →
  Unit.units g !! 0 = Some u0 →
  Unit.units current !! 0 = Some c0 →
  let same := bool_decide
    (length (Unit.units g) = length (Unit.units current)
     ∧ Unit.conformationId u0 = Unit.conformationId c0) in
  createOrUpdate visual B C props (Some {| structure := st; group := g |}) s
    = update visual B C props
        (if same then setCurrentStructure (Some st) s
         else setCurrentGroup (Some g) (setCurrentStructure (Some st) s))
  ∧ currentGroup
      (createOrUpdate visual B C props
         (Some {| structure := st; group := g |}) s).1
    = Some (if same then current else g).
Proof.
  intros Hcur Hro Hhash Hu Hc same.
  rewrite (createOrUpdate_same_hashCode _ _ _ _ _ _ _ _ _ _ Hcur Hro Hhash Hu Hc).
  fold same. split; [done|].
  rewrite update_currentGroup.
  destruct same; destruct s; simpl in *; congruence.
Qed.

(** A visual created with [groupG] is handed [groupH]: the current group
    stays [groupG]. *)
Lemma createOrUpdate_adopts_new_conformation_witness :
  currentGroup
    (createOrUpdate MeshVisual Example.builder Example.collaborators noProps
       (Example.sg Example.groupH) (Example.created MeshVisual)).1
  = Some Example.groupG.
Proof.
  pose proof (createOrUpdate_adopts_new_conformation MeshVisual
    Example.builder Example.collaborators noProps Example.structure0
    Example.groupH Example.groupG
    (Example.unitA 0 5) (Example.unitA 0 5) (Example.created MeshVisual)
    eq_refl (mk_is_Some _ _ eq_refl) eq_refl eq_refl eq_refl) as [_ H].
  exact H.
Defined.

(** C1 as stated fails: [groupH] has the hash code of the current group
    [groupG] and is another group, yet after the call, which takes the
    update path and succeeds, the current group is still [groupG]. *)
Lemma createOrUpdate_keeps_group_of_same_conformation :
  currentGroup (Example.created MeshVisual) = Some Example.groupG
  ∧ is_Some (renderObject (Example.created MeshVisual))
  ∧ Unit.hashCode Example.groupH = Unit.hashCode Example.groupG
  ∧ Example.groupH ≠ Example.groupG
  ∧ createOrUpdate MeshVisual Example.builder Example.collaborators noProps
      (Example.sg Example.groupH) (Example.created MeshVisual)
    = update MeshVisual Example.builder Example.collaborators noProps
        (Example.created MeshVisual)
  ∧ (createOrUpdate MeshVisual Example.builder Example.collaborators noProps
       (Example.sg Example.groupH) (Example.created MeshVisual)).2 = Ok tt
  ∧ currentGroup
      (createOrUpdate MeshVisual Example.builder Example.collaborators noProps
         (Example.sg Example.groupH) (Example.created MeshVisual)).1
    ≠ Some Example.groupH.
Proof.
  split; [by vm_compute|].
  split; [vm_compute; eauto|].
  split; [by vm_compute|].
  split; [by vm_compute|].
  split; [vm_compute; reflexivity|].
  split; [by vm_compute|].
  vm_compute. congruence.
Qed.

(** ** A group of another shape *)

(** After a call with a group, the current group has that group's hash
    code, whichever branch the call took and however it ended. *)
Lemma createOrUpdate_with_group_hashCode visual B C props st g s :
  ∃ current,
    currentGroup (createOrUpdate visual B C props
                    (Some {| structure := st; group := g |}) s).1
      = Some current
    ∧ Unit.hashCode current = Unit.hashCode g.
Proof.
  rewrite createOrUpdate_with_group. cbv zeta.
  destruct (currentGroup s) as [cur|] eqn:Hcur;
    [|exists g; by rewrite create_currentGroup].
  destruct (renderObject s); [|exists g; by rewrite create_currentGroup].
  case_bool_decide as Hhash; [|exists g; by rewrite create_currentGroup].
  destruct (sameGroupConformation g cur) as [[]|].
  - exists cur. rewrite update_currentGroup. by destruct s.
  - exists g. rewrite update_currentGroup. by destruct s.
  - exists cur. by destruct s.
Qed.

(** What a completed [create] leaves behind. *)
Lemma create_completes visual B C g props u s :
  Unit.units g !! 0 = Some u →
  let props' := assign (defaultProps B) props in
  let geo :=
    if bool_decide (Unit.kind u ∈ unitKinds props')
    then createGeometry B u (currentStructure s) props' (geometry s)
    else createEmpty (geometry s) in
  let objs :=
    alter (λ theme, {| colorName := colorName theme;
                       colorValue := colorValue theme;
                       themeStructure := currentStructure s |})
      (colorTheme props') (objects s) in
  create visual B C g props s =
    ({| renderObject := Some (createUnitsRenderObject visual C g geo
                                (createLocationIterator B g) props' objs);
        currentProps := Some props';
        geometry := Some geo;
        currentGroup := Some g;
        currentStructure := currentStructure s;
        locationIt := Some (createLocationIterator B g);
        currentConformationId := Some (Unit.conformationId u);
        updateState := updateState s;
        objects := objs;
        calls := CallCreateRenderObject g :: CallCreateLocationIterator g
                 :: (if bool_decide (Unit.kind u ∈ unitKinds props')
                     then CallCreateGeometry u props' else CallCreateEmpty)
                 :: calls s |}, Ok tt).
Proof.
  intros Hu. destruct s. run. rewrite Hu. run.
  by case_bool_decide.
Qed.

(** C3. Whatever the visual was before, after a [createOrUpdate] with a
    group [A] a [createOrUpdate] with a group [B] of another hash code is the
    full [create]: with a first unit in [B] it completes, and the geometry,
    the location iterator and the render object are built anew from [B]. *)
Theorem createOrUpdate_other_hashCode_creates visual B C p1 p2 st1 st2
    (gA gB : Unit.SymmetryGroup) (s : State) :
  Unit.hashCode gA ≠ Unit.hashCode gB →
  let s1 := (createOrUpdate visual B C p1
               (Some {| structure := st1; group := gA |}) s).1 in
  let r2 := createOrUpdate visual B C p2
              (Some {| structure := st2; group := gB |}) s1 in
  r2 = create visual B C gB p2 (setCurrentStructure (Some st2) s1)
  ∧ ∀ u, Unit.units gB !! 0 = Some u →
      let props' := assign (defaultProps B) p2 in
      let geo :=
        if bool_decide (Unit.kind u ∈ unitKinds props')
        then createGeometry B u (Some st2) props' (geometry s1)
        else createEmpty (geometry s1) in
      r2.2 = Ok tt
      ∧ currentGroup r2.1 = Some gB
      ∧ geometry r2.1 = Some geo
      ∧ locationIt r2.1 = Some (createLocationIterator B gB)
      ∧ renderObject r2.1
          = Some (createUnitsRenderObject visual C gB geo
                    (createLocationIterator B gB) props' (objects r2.1))
      ∧ calls r2.1
          = CallCreateRenderObject gB :: CallCreateLocationIterator gB
            :: (if bool_decide (Unit.kind u ∈ unitKinds props')
                then CallCreateGeometry u props' else CallCreateEmpty)
            :: calls s1.
Proof.
  intros Hhash s1 r2.
  assert (r2 = create visual B C gB p2 (setCurrentStructure (Some st2) s1))
    as Hcreate.
  { subst r2. rewrite createOrUpdate_with_group. cbv zeta.
    destruct (createOrUpdate_with_group_hashCode visual B C p1 st1 gA s)
      as (cur & Hcur & Hh).
    fold s1 in Hcur. rewrite Hcur.
    destruct (renderObject s1); [|done].
    rewrite bool_decide_eq_false_2; [done|congruence]. }
  split; [exact Hcreate|].
  intros u Hu props' geo. rewrite Hcreate.
  rewrite (create_completes _ _ _ _ _ _ _ Hu).
  by destruct s1.
Qed.

(** A visual created with [groupG] is handed a group of another hash code. *)
Lemma createOrUpdate_other_hashCode_creates_witness :
  createOrUpdate PointsVisual Example.builder Example.collaborators noProps
    (Example.sg {| Unit.units := [Example.unitS 3 8]; Unit.hashCode := 12 |})
    (Example.created PointsVisual)
  = create PointsVisual Example.builder Example.collaborators
      {| Unit.units := [Example.unitS 3 8]; Unit.hashCode := 12 |} noProps
      (setCurrentStructure (Some Example.structure0)
         (Example.created PointsVisual)).
Proof.
  refine (proj1 (createOrUpdate_other_hashCode_creates PointsVisual
    Example.builder Example.collaborators noProps noProps Example.structure0
    Example.structure0 Example.groupG
    {| Unit.units := [Example.unitS 3 8]; Unit.hashCode := 12 |}
    (initial Example.objects0) _)).
  vm_compute. discriminate.
Defined.

(** ** The invariant of the reachable states *)

Lemma update_consistent visual B C props s :
  equipped s → consistent (update visual B C props s).1.
Proof.
  unfold consistent, equipped. intros Heq.
  destruct s as [ro cp geo cg cs it cid us objs cl].
  destruct ro as [ro|];
    [|run_steps; split; [by intros [? ?]|by intros g u [? ?]]].
  destruct (Heq ltac:(by eexists)) as ([cp' Hcp] & [g Hg] & [it' Hit]).
  cbn in Hcp, Hg, Hit. subst.
  destruct (Unit.units g !! 0) as [u|] eqn:Hu.
  - rewrite (update_run _ _ _ _ _ _ _ _ _ _ _ _ _ _ _ Hu).
    split; [by intros _; repeat split; eexists|].
    intros g' u' _ Hg' Hu'. cbn in Hg'. simplify_eq. done.
  - run_steps. rewrite Hu. split; [by intros _; repeat split; eexists|].
    intros g' u' _ Hg' Hu'. cbn in Hg'. simplify_eq.
Qed.

Lemma create_consistent visual B C g props s :
  equipped s → consistent (create visual B C g props s).1.
Proof.
  unfold consistent, equipped. intros Heq.
  destruct (Unit.units g !! 0) as [u|] eqn:Hu.
  - rewrite (create_completes _ _ _ _ _ _ _ Hu). cbv zeta.
    split; [by intros _; repeat split; eexists|].
    intros g' u' _ Hg' Hu'. cbn in Hg'. simplify_eq. done.
  - destruct s as [ro cp geo cg cs it cid us objs cl].
    run_steps. rewrite Hu. split.
    + intros Hro. destruct (Heq Hro) as (_ & _ & Hit).
      repeat split; eauto.
    + intros g' u' _ Hg' Hu'. cbn in Hg'. simplify_eq.
Qed.

Lemma consistent_fields s s' :
  renderObject s' = renderObject s →
  currentProps s' = currentProps s →
  currentGroup s' = currentGroup s →
  locationIt s' = locationIt s →
  currentConformationId s' = currentConformationId s →
  consistent s → consistent s'.
Proof.
  unfold consistent, equipped. intros -> -> -> -> ->. done.
Qed.

Lemma markVisual_fields B C loci action s :
  (is_Some (renderObject (markVisual B C loci action s).1)
     ↔ is_Some (renderObject s))
  ∧ currentProps (markVisual B C loci action s).1 = currentProps s
  ∧ currentGroup (markVisual B C loci action s).1 = currentGroup s
  ∧ locationIt (markVisual B C loci action s).1 = locationIt s
  ∧ currentConformationId (markVisual B C loci action s).1
    = currentConformationId s.
Proof.
  destruct s as [ro cp geo cg cs it cid us objs cl].
  destruct ro as [ro|]; [|done].
  destruct it as [it|]; [|done].
  run_steps. destruct (isEveryLoci (Some loci)); run_steps.
  - unfold applyInterval.
    destruct (applyMarkerAction _ _ _ _ _) as [a []]; run_steps;
      repeat split; eauto.
  - destruct cg as [g|]; [|done]. run_steps.
    destruct (runMark _ _ _ _) as [a []]; run_steps; repeat split; eauto.
Qed.

Lemma reachable_consistent visual B C s :
  reachable visual B C s → consistent s.
Proof.
  induction 1 as [objs|s props sg _ IH|s loci action _ IH|s _ IH|s objs _ IH].
  - split; [by intros [? ?]|]. by intros g u [? ?].
  - destruct sg as [[st g0]|].
    + rewrite createOrUpdate_with_group. cbv zeta.
      assert (consistent (setCurrentStructure (Some st) s)) as [Heq Hcid]
        by (by apply (consistent_fields s); destruct s).
      destruct (currentGroup s) as [cur|] eqn:Hcur;
        [|by apply create_consistent].
      destruct (renderObject s) as [ro|] eqn:Hro;
        [|by apply create_consistent].
      case_bool_decide; [|by apply create_consistent].
      destruct (sameGroupConformation g0 cur) as [[]|].
      * by apply update_consistent.
      * apply update_consistent. intros Hr.
        destruct (Heq ltac:(by destruct s)) as (? & ? & ?).
        destruct s. repeat split; eauto.
      * by split.
    + rewrite createOrUpdate_without_group.
      destruct (currentGroup s);
        [apply update_consistent; apply IH|exact IH].
  - destruct (markVisual_fields B C loci action s)
      as (Hro & Hcp & Hcg & Hit & Hcid).
    destruct IH as [Heq Hc]. unfold consistent, equipped.
    rewrite Hcp, Hcg, Hit, Hcid. split.
    + intros H. by apply Heq, Hro.
    + intros g u H. by apply Hc, Hro.
  - destruct s. split; [by intros [? ?]|]. by intros g u [? ?].
  - by apply (consistent_fields s); destruct s.
Qed.

(** ** What the update path reads of a supplied group *)

(** C10. Two groups supplied to the update path that agree in their unit
    count and in the conformation id of their first unit get the same
    adopt-or-keep decision, the same result and the same update flags, the
    geometry rebuild flag among them: nothing else of a group is read by the
    comparison and the change detection, so the conformations of its other
    units trigger neither an adoption nor a geometry rebuild. *)
Theorem createOrUpdate_reads_first_unit_only visual B C props st
    (g1 g2 current : Unit.SymmetryGroup) (s : State) :
  currentGroup s = Some current →
  is_Some (renderObject s) →
  Unit.hashCode g1 = Unit.hashCode current →
  Unit.hashCode g2 = Unit.hashCode current →
  length (Unit.units g1) = length (Unit.units g2) →
  Unit.conformationId <$> Unit.units g1 !! 0
    = Unit.conformationId <$> Unit.units g2 !! 0 →
  let r1 := createOrUpdate visual B C props
              (Some {| structure := st; group := g1 |}) s in
  let r2 := createOrUpdate visual B C props
              (Some {| structure := st; group := g2 |}) s in
  sameGroupConformation g1 current = sameGroupConformation g2 current
  ∧ (∃ adopt : bool,
       currentGroup r1.1 = Some (if adopt then g1 else current)
       ∧ currentGroup r2.1 = Some (if adopt then g2 else current))
  ∧ r1.2 = r2.2
  ∧ updateState r1.1 = updateState r2.1
  ∧ VisualUpdateState.createGeometry (updateState r1.1)
    = VisualUpdateState.createGeometry (updateState r2.1).
Proof.
  intros Hcur [ro Hro] Hh1 Hh2 Hlen Hcid r1 r2.
  assert (sameGroupConformation g1 current = sameGroupConformation g2 current)
    as Hsame.
  { unfold sameGroupConformation. rewrite Hlen.
    destruct (Unit.units g1 !! 0), (Unit.units g2 !! 0);
      simplify_eq/=; try done.
    by rewrite Hcid. }
  split; [exact Hsame|].
  cut ((∃ adopt : bool,
          currentGroup r1.1 = Some (if adopt then g1 else current)
          ∧ currentGroup r2.1 = Some (if adopt then g2 else current))
       ∧ r1.2 = r2.2 ∧ updateState r1.1 = updateState r2.1).
  { intros (? & ? & Hflags). by rewrite Hflags. }
  subst r1 r2. rewrite !createOrUpdate_with_group. cbv zeta.
  rewrite Hcur, Hro, !bool_decide_eq_true_2 by done.
  rewrite <- Hsame.
  destruct (sameGroupConformation g1 current) as [[]|].
  - split; [exists false; by rewrite update_currentGroup; destruct s|done].
  - split; [exists true; by rewrite !update_currentGroup; destruct s|].
    clear Hsame Hh1 Hh2.
    destruct s as [ro' cp geo cg cs it cid us objs cl]. simpl in *.
    simplify_eq.
    destruct cp as [cp|]; [|done].
    destruct it as [it|]; [|done].
    destruct (Unit.units g1 !! 0) as [u1|] eqn:Hu1,
             (Unit.units g2 !! 0) as [u2|] eqn:Hu2; simplify_eq/=.
    + cbv [setCurrentGroup setCurrentStructure renderObject currentProps
           geometry currentGroup currentStructure locationIt
           currentConformationId updateState objects calls].
      rewrite (update_run _ _ _ _ _ _ _ _ _ _ _ _ _ _ _ Hu1).
      rewrite (update_run _ _ _ _ _ _ _ _ _ _ _ _ _ _ _ Hu2).
      split; [done|]. simpl.
      unfold passFlags, colorStep, transformStep, geometryStep, diffedFlags,
        countChanged, conformationChanged.
      by rewrite Hlen, Hcid.
    + run_steps. by rewrite Hu1, Hu2.
  - split; [exists false; by destruct s|done].
Qed.

(** [groupG] with its second unit in another conformation, against [groupH]:
    both agree with each other in unit count and first conformation. *)
Lemma createOrUpdate_reads_first_unit_only_witness :
  updateState
    (createOrUpdate LinesVisual Example.builder Example.collaborators noProps
       (Example.sg Example.groupH) (Example.created LinesVisual)).1
  = updateState
      (createOrUpdate LinesVisual Example.builder Example.collaborators noProps
         (Example.sg {| Unit.units := [Example.unitA 0 5; Example.unitA 1 6];
                        Unit.hashCode := 11 |})
         (Example.created LinesVisual)).1.
Proof.
  refine (proj1 (proj2 (proj2 (proj2 (createOrUpdate_reads_first_unit_only
    LinesVisual Example.builder Example.collaborators noProps
    Example.structure0 Example.groupH
    {| Unit.units := [Example.unitA 0 5; Example.unitA 1 6];
       Unit.hashCode := 11 |}
    Example.groupG (Example.created LinesVisual)
    eq_refl (mk_is_Some _ _ eq_refl) eq_refl eq_refl eq_refl eq_refl))))).
Defined.

(** ** A new conformation *)

(** The update pass on a supplied group in another conformation than the
    recorded one. *)
Lemma new_conformation_update_pass visual B C props st
    (g current : Unit.SymmetryGroup) (u0 c0 : Unit.t) (cp : Props)
    (it : LocationIterator) (s : State) :
  currentGroup s = Some current →
  is_Some (renderObject s) →
  currentProps s = Some cp →
  locationIt s = Some it →
  currentConformationId s = Some (Unit.conformationId c0) →
  Unit.units current !! 0 = Some c0 →
  Unit.units g !! 0 = Some u0 →
  Unit.hashCode g = Unit.hashCode current →
  Unit.conformationId u0 ≠ Unit.conformationId c0 →
  let r := createOrUpdate visual B C props
             (Some {| structure := st; group := g |}) s in
  let it' := createLocationIterator B g in
  r = update visual B C props
        (setCurrentGroup (Some g) (setCurrentStructure (Some st) s))
  ∧ r.2 = Ok tt
  ∧ currentGroup r.1 = Some g
  ∧ VisualUpdateState.createGeometry (updateState r.1) = true
  ∧ VisualUpdateState.updateTransform (updateState r.1)
    = VisualUpdateState.updateTransform
        (setUpdateState B VisualUpdateState.create (assign cp props) cp)
      || negb (bool_decide (length (Unit.units g) = instanceCount it))
  ∧ (VisualUpdateState.updateTransform (updateState r.1) = false →
     instanceCount <$> locationIt r.1 = Some (instanceCount it)
     ∧ groupCount <$> locationIt r.1 = Some (groupCount it)
     ∧ (aTransform ∘ values) <$> renderObject r.1
       = (aTransform ∘ values) <$> renderObject s
     ∧ (tMarker ∘ values) <$> renderObject r.1
       = (tMarker ∘ values) <$> renderObject s)
  ∧ (VisualUpdateState.updateTransform (updateState r.1) = true →
     instanceCount <$> locationIt r.1 = Some (instanceCount it')
     ∧ groupCount <$> locationIt r.1 = Some (groupCount it')
     ∧ (aTransform ∘ values) <$> renderObject r.1
       = (λ ro, ValueCell.update (aTransform (values ro))
                  (unitTransform C <$> Unit.units g)) <$> renderObject s
     ∧ (tMarker ∘ values) <$> renderObject r.1
       = (λ ro, ValueCell.update (tMarker (values ro))
                  (replicate (instanceCount it' * groupCount it') x00))
         <$> renderObject s).
Proof.
  intros Hcur [ro Hro] Hcp Hit Hcid Hc Hu Hhash Hne r it'.
  pose proof (createOrUpdate_same_hashCode visual B C props st g
    current u0 c0 s Hcur (mk_is_Some _ _ Hro) Hhash Hu Hc) as Hrun.
  rewrite bool_decide_eq_false_2 in Hrun by (by intros [_ ?]).
  subst r. rewrite Hrun. split; [done|]. clear Hrun.
  destruct s as [ro' cp' geo cg cs it0 cid us objs cl]. simpl in *.
  simplify_eq.
  cbv [setCurrentGroup setCurrentStructure renderObject currentProps
       geometry currentGroup currentStructure locationIt
       currentConformationId updateState objects calls].
  rewrite (update_run _ _ _ _ _ _ _ _ _ _ _ _ _ _ _ Hu).
  split; [done|]. split; [done|]. split; [|split].
  - simpl. unfold diffedFlags, diffFlags, conformationChanged. simpl.
    rewrite (bool_decide_eq_false_2 (Some _ = Some _)) by congruence.
    simpl. by rewrite orb_true_r.
  - reflexivity.
  - cbn [fst updateOutcome updateState locationIt renderObject passFlags
         VisualUpdateState.setUpdateColor VisualUpdateState.updateTransform].
    fold (transformStep visual B props cp g (Some st) it
            (Some (Unit.conformationId c0)) objs u0).
    unfold passValues, passIterator, passIterator1, passIterator0.
    split; intros Ht; rewrite !Ht; cbn [fmap option_fmap option_map compose
      aTransform tMarker values];
      (split; [by repeat case_match|]); (split; [by repeat case_match|]);
      done.
Qed.

(** C4, as the code has it. A visual with a render object is handed a group
    of the current group's hash code whose first unit has another
    conformation id than the first unit of the current group: the call is the
    update path on the supplied group, it completes, and it ends with the
    geometry flag set.  The transform flag ends set exactly when the
    builder's hook asks for a transform update or the unit count of the
    supplied group differs from the instance count the iterator recorded; so
    with an unchanged unit count it stays unset when that count is the
    recorded instance count and the hook asks for no transform update.  When
    it ends unset the iterator keeps its counts and the transform and marker
    cells are left alone; when it ends set the iterator is the builder's for
    the supplied group and the two cells are rewritten. *)
Theorem createOrUpdate_new_conformation visual B C props st
    (g current : Unit.SymmetryGroup) (u0 c0 : Unit.t) (s : State) :
  reachable visual B C s →
  is_Some (renderObject s) →
  currentGroup s = Some current →
  Unit.units current !! 0 = Some c0 →
  Unit.units g !! 0 = Some u0 →
  Unit.hashCode g = Unit.hashCode current →
  Unit.conformationId u0 ≠ Unit.conformationId c0 →
  let r := createOrUpdate visual B C props
             (Some {| structure := st; group := g |}) s in
  let it' := createLocationIterator B g in
  r = update visual B C props
        (setCurrentGroup (Some g) (setCurrentStructure (Some st) s))
  ∧ r.2 = Ok tt
  ∧ currentGroup r.1 = Some g
  ∧ VisualUpdateState.createGeometry (updateState r.1) = true
  ∧ ∃ cp it,
      currentProps s = Some cp
      ∧ locationIt s = Some it
      ∧ VisualUpdateState.updateTransform (updateState r.1)
        = VisualUpdateState.updateTransform
            (setUpdateState B VisualUpdateState.create (assign cp props) cp)
          || negb (bool_decide (length (Unit.units g) = instanceCount it))
      ∧ (length (Unit.units g) = length (Unit.units current) →
         instanceCount it = length (Unit.units current) →
         VisualUpdateState.updateTransform
           (setUpdateState B VisualUpdateState.create (assign cp props) cp)
           = false →
         VisualUpdateState.updateTransform (updateState r.1) = false)
      ∧ (VisualUpdateState.updateTransform (updateState r.1) = false →
         instanceCount <$> locationIt r.1 = Some (instanceCount it)
         ∧ groupCount <$> locationIt r.1 = Some (groupCount it)
         ∧ (aTransform ∘ values) <$> renderObject r.1
           = (aTransform ∘ values) <$> renderObject s
         ∧ (tMarker ∘ values) <$> renderObject r.1
           = (tMarker ∘ values) <$> renderObject s)
      ∧ (VisualUpdateState.updateTransform (updateState r.1) = true →
         instanceCount <$> locationIt r.1 = Some (instanceCount it')
         ∧ groupCount <$> locationIt r.1 = Some (groupCount it')
         ∧ (aTransform ∘ values) <$> renderObject r.1
           = (λ ro, ValueCell.update (aTransform (values ro))
                      (unitTransform C <$> Unit.units g)) <$> renderObject s
         ∧ (tMarker ∘ values) <$> renderObject r.1
           = (λ ro, ValueCell.update (tMarker (values ro))
                      (replicate (instanceCount it' * groupCount it') x00))
             <$> renderObject s).
Proof.
  intros Hreach Hro Hcur Hc Hu Hhash Hne r it'.
  destruct (reachable_consistent _ _ _ _ Hreach) as [Heq Hcid].
  destruct (Heq Hro) as ([cp Hcp] & _ & [it Hit]).
  pose proof (new_conformation_update_pass visual B C props st g
    current u0 c0 cp it s Hcur Hro Hcp Hit (Hcid _ _ Hro Hcur Hc) Hc Hu Hhash
    Hne) as (Hrun & Hok & Hgroup & Hgeo & Htransform & Hkept & Hrebuilt).
  repeat (split; [done|]).
  exists cp, it. repeat (split; [done|]).
  split; [|by split].
  intros Hlen Hcount Hhook. rewrite Hhook in Htransform.
  rewrite bool_decide_eq_true_2 in Htransform by congruence.
  exact Htransform.
Qed.

(** [groupG] comes back in conformation 6: the geometry is rebuilt, the
    transforms are not. *)
Lemma createOrUpdate_new_conformation_witness :
  VisualUpdateState.createGeometry
    (updateState
       (createOrUpdate PointsVisual Example.builder Example.collaborators
          noProps (Example.sg OtherBuilders.groupG6)
          (Example.created PointsVisual)).1) = true
  ∧ VisualUpdateState.updateTransform
      (updateState
         (createOrUpdate PointsVisual Example.builder Example.collaborators
            noProps (Example.sg OtherBuilders.groupG6)
            (Example.created PointsVisual)).1) = false.
Proof.
  pose proof (createOrUpdate_new_conformation PointsVisual Example.builder
    Example.collaborators noProps Example.structure0
    OtherBuilders.groupG6
    Example.groupG (Example.unitA 0 6) (Example.unitA 0 5)
    (Example.created PointsVisual)
    (reachable_createOrUpdate _ _ _ _ _ _ (reachable_initial _ _ _ _))
    (mk_is_Some _ _ eq_refl) eq_refl eq_refl eq_refl eq_refl) as H.
  destruct H as (_ & _ & _ & Hgeo & cp & it & Hcp & Hit & _ & Hkept & _);
    [vm_compute; discriminate|].
  split; [exact Hgeo|].
  vm_compute in Hcp, Hit. injection Hcp as <-. injection Hit as <-.
  apply Hkept; vm_compute; reflexivity.
Defined.

(** C4 as stated fails: the transforms can be rebuilt, and the instance
    count can change, although the unit count is unchanged.  With an iterator
    that has one instance per atomic unit, a visual created with [groupM],
    whose second unit is coarse, records one instance for two units; handed
    [groupM6], of the same hash code and unit count and in another
    conformation, the pass finds two units for one instance, rebuilds the
    transforms, and the new iterator has two instances.  With the iterator of
    the example builder and a hook that asks for a transform update when
    [instanceGranularity] changes, a call with that prop changed and
    [groupG6] rebuilds the transforms although unit count and instance count
    are both two. *)
Lemma new_conformation_rebuilds_transform :
  let C := Example.collaborators in
  let B1 := OtherBuilders.atomicInstances in
  let s1 := (createOrUpdate PointsVisual B1 C noProps
               (Example.sg OtherBuilders.groupM) (initial Example.objects0)).1 in
  let r1 := createOrUpdate PointsVisual B1 C noProps
              (Example.sg OtherBuilders.groupM6) s1 in
  let B2 := OtherBuilders.regroupedInstances in
  let s2 := (createOrUpdate PointsVisual B2 C noProps
               (Example.sg Example.groupG) (initial Example.objects0)).1 in
  let r2 := createOrUpdate PointsVisual B2 C OtherBuilders.regrouped
              (Example.sg OtherBuilders.groupG6) s2 in
  (currentGroup s1 = Some OtherBuilders.groupM
   ∧ Unit.hashCode OtherBuilders.groupM6 = Unit.hashCode OtherBuilders.groupM
   ∧ Unit.conformationId <$> Unit.units OtherBuilders.groupM !! 0 = Some 5
   ∧ Unit.conformationId <$> Unit.units OtherBuilders.groupM6 !! 0 = Some 6
   ∧ length (Unit.units OtherBuilders.groupM6)
     = length (Unit.units OtherBuilders.groupM)
   ∧ r1.2 = Ok tt
   ∧ currentGroup r1.1 = Some OtherBuilders.groupM6
   ∧ VisualUpdateState.updateTransform (updateState r1.1) = true
   ∧ instanceCount <$> locationIt s1 = Some 1
   ∧ instanceCount <$> locationIt r1.1 = Some 2
   ∧ (ValueCell.version ∘ aTransform ∘ values) <$> renderObject s1 = Some 0
   ∧ (ValueCell.version ∘ aTransform ∘ values) <$> renderObject r1.1 = Some 1)
  ∧ (currentGroup s2 = Some Example.groupG
     ∧ Unit.hashCode OtherBuilders.groupG6 = Unit.hashCode Example.groupG
     ∧ Unit.conformationId <$> Unit.units Example.groupG !! 0 = Some 5
     ∧ Unit.conformationId <$> Unit.units OtherBuilders.groupG6 !! 0 = Some 6
     ∧ length (Unit.units OtherBuilders.groupG6)
       = length (Unit.units Example.groupG)
     ∧ instanceCount <$> locationIt s2 = Some 2
     ∧ r2.2 = Ok tt
     ∧ currentGroup r2.1 = Some OtherBuilders.groupG6
     ∧ VisualUpdateState.updateTransform (updateState r2.1) = true
     ∧ take 4 (calls r2.1)
       = [CallCreateColors;
          CallCreateGeometry (Example.unitA 0 6)
            (assign Example.props0 OtherBuilders.regrouped);
          CallCreateMarkers 8;
          CallCreateUnitsTransform OtherBuilders.groupG6]
     ∧ (ValueCell.version ∘ aTransform ∘ values) <$> renderObject s2 = Some 0
     ∧ (ValueCell.version ∘ aTransform ∘ values) <$> renderObject r2.1
       = Some 1).
Proof.
  cbv zeta. split.
  - repeat match goal with |- _ ∧ _ => split end; vm_compute; reflexivity.
  - repeat match goal with |- _ ∧ _ => split end; vm_compute; reflexivity.
Qed.

(** ** The transform rebuild *)

(** C5. In an update pass that ends with the transform flag set, as every
    pass does in which the unit count of the current group is not the
    instance count the iterator recorded, the iterator is rebuilt by the
    builder from the current group, the marker cell is updated to a buffer of
    exactly [instanceCount * groupCount] bytes of the new iterator, the
    transform cell is updated to the transforms of the group's units, and the
    color flag is set, so that the colors are recomputed as well. *)
Theorem update_transform_rebuild visual B C props
    (ro : RenderObject) (cp : Props) (g : Unit.SymmetryGroup)
    (it : LocationIterator) (u : Unit.t) (s : State) :
  renderObject s = Some ro →
  currentProps s = Some cp →
  currentGroup s = Some g →
  locationIt s = Some it →
  Unit.units g !! 0 = Some u →
  let r := update visual B C props s in
  let it' := createLocationIterator B g in
  r.2 = Ok tt
  ∧ (length (Unit.units g) ≠ instanceCount it →
     VisualUpdateState.updateTransform (updateState r.1) = true)
  ∧ (VisualUpdateState.updateTransform (updateState r.1) = true →
     locationIt r.1 = Some (exhaustIterator it')
     ∧ (∃ new, calls r.1 = new ++ calls s
               ∧ CallCreateLocationIterator g ∈ new
               ∧ CallCreateUnitsTransform g ∈ new
               ∧ CallCreateMarkers (instanceCount it' * groupCount it') ∈ new
               ∧ CallCreateColors ∈ new)
     ∧ VisualUpdateState.updateColor (updateState r.1) = true
     ∧ ∃ ro', renderObject r.1 = Some ro'
         ∧ tMarker (values ro')
           = ValueCell.update (tMarker (values ro))
               (replicate (instanceCount it' * groupCount it') x00)
         ∧ length (ValueCell.value (tMarker (values ro')))
           = instanceCount it' * groupCount it'
         ∧ aTransform (values ro')
           = ValueCell.update (aTransform (values ro))
               (unitTransform C <$> Unit.units g)
         ∧ ValueCell.version (color (values ro'))
           = S (ValueCell.version (color (values ro)))).
Proof.
  intros Hro Hcp Hcur Hit Hu r it'.
  destruct s as [ro' cp' geo cg cs it0 cid us objs cl]. simpl in *.
  simplify_eq. subst r.
  rewrite (update_run _ _ _ _ _ _ _ _ _ _ _ _ _ _ _ Hu).
  split; [reflexivity|].
  cbn [fst snd updateOutcome updateState locationIt calls renderObject values].
  change (VisualUpdateState.updateTransform (passFlags visual B props cp g cs it cid objs u))
    with (transformStep visual B props cp g cs it cid objs u).
  change (VisualUpdateState.updateColor (passFlags visual B props cp g cs it cid objs u))
    with (colorStep visual B props cp g cs it cid objs u).
  split.
  - intros Hne. unfold transformStep, diffedFlags, diffFlags, countChanged.
    rewrite (bool_decide_eq_false_2 _ Hne). 
    cbn [VisualUpdateState.updateTransform negb]. by rewrite orb_true_r.
  - intros Ht.
    unfold passIterator, passIterator1, passIterator0, passCalls, passValues,
      colorStep.
    rewrite !Ht, orb_true_r. cbn [orb tMarker aTransform color].
    split; [by destruct (sizeStep _ _ _ _ _ _ _ _ _ _)|].
    split.
    { eexists. split; [reflexivity|]. unfold passNewCalls, colorStep.
      rewrite !Ht, orb_true_r. cbn [orb]. rewrite !elem_of_app.
      set_solver. }
    split; [reflexivity|].
    eexists. split; [reflexivity|]. 
    cbn [orb tMarker aTransform color values ValueCell.update ValueCell.value ValueCell.version].
    rewrite length_replicate. auto.
Qed.

(** [groupG] grown by a third unit of the same conformation. *)
Lemma update_transform_rebuild_witness :
  locationIt
    (update MeshVisual Example.builder Example.collaborators noProps
       (setCurrentGroup
          (Some {| Unit.units := [Example.unitA 0 5; Example.unitA 1 5;
                                  Example.unitA 2 5];
                   Unit.hashCode := 11 |})
          (Example.created MeshVisual))).1
  = Some {| groupCount := 4; instanceCount := 3; cursor := 12 |}.
Proof.
  pose proof (update_transform_rebuild MeshVisual Example.builder
    Example.collaborators noProps
    (Example.createdObject MeshVisual) Example.props0
    {| Unit.units := [Example.unitA 0 5; Example.unitA 1 5; Example.unitA 2 5];
       Unit.hashCode := 11 |}
    {| groupCount := 4; instanceCount := 2; cursor := 0 |}
    (Example.unitA 0 5)
    (setCurrentGroup
       (Some {| Unit.units := [Example.unitA 0 5; Example.unitA 1 5;
                               Example.unitA 2 5];
                Unit.hashCode := 11 |})
       (Example.created MeshVisual))
    eq_refl eq_refl eq_refl eq_refl eq_refl) as (_ & Hflag & Hrebuild).
  refine (proj1 (Hrebuild (Hflag _))). vm_compute. discriminate.
Defined.

(** ** A changed size theme *)

(** C7. In an update pass whose merged size theme is not the current one,
    the mesh visual ends with the geometry flag set, rebuilds its geometry
    and leaves its size cell alone, while the points and the lines visual end
    with the size flag set and update their size cell with the buffer
    [createSizes] computes; the geometry flag of these two is what the hook,
    the conformation and the unit kinds make it.  The universal diff rules of
    the three visuals differ in nothing else: those of the lines visual are
    those of the points visual, and those of the mesh visual give the same
    result and the same state up to the flags, the same transform and color
    flags, and exchange the size flag for the geometry flag where the size
    theme changed. *)
Theorem update_sizeTheme_changed B C props
    (ro : RenderObject) (cp : Props) (g : Unit.SymmetryGroup)
    (it : LocationIterator) (u : Unit.t) (s : State) :
  renderObject s = Some ro →
  currentProps s = Some cp →
  currentGroup s = Some g →
  locationIt s = Some it →
  Unit.units g !! 0 = Some u →
  sizeTheme (assign cp props) ≠ sizeTheme cp →
  (let r := update MeshVisual B C props s in
   VisualUpdateState.createGeometry (updateState r.1) = true
   ∧ (∃ new, calls r.1 = new ++ calls s ∧ (CallCreateSizes ∉ new)
        ∧ (CallCreateGeometry u (assign cp props) ∈ new
           ∨ CallCreateEmpty ∈ new))
   ∧ (size ∘ values) <$> renderObject r.1 = Some (size (values ro)))
  ∧ (∀ visual, visual ≠ MeshVisual →
     let r := update visual B C props s in
     VisualUpdateState.updateSize (updateState r.1) = true
     ∧ (∃ new, calls r.1 = new ++ calls s ∧ CallCreateSizes ∈ new)
     ∧ (∃ it1, (size ∘ values) <$> renderObject r.1
          = Some (ValueCell.update (size (values ro))
                    (sizesOf C it1 (sizeTheme (assign cp props)))))
     ∧ VisualUpdateState.createGeometry (updateState r.1)
       = (VisualUpdateState.createGeometry
            (setUpdateState B VisualUpdateState.create (assign cp props) cp)
          || negb (bool_decide (Some (Unit.conformationId u)
                                = currentConformationId s))
          || negb (deepEqual (unitKinds (assign cp props)) (unitKinds cp))))
  ∧ (∀ u' g' newProps cp' s',
     is_Some (locationIt s') →
     let changed := negb (deepEqual (sizeTheme newProps) (sizeTheme cp')) in
     let m := diffRulesMesh u' g' newProps cp' s' in
     let p := diffRulesPoints u' g' newProps cp' s' in
     diffRulesLines u' g' newProps cp' s' = p
     ∧ m.2 = p.2
     ∧ setUpdateFlags (updateState p.1) m.1 = p.1
     ∧ VisualUpdateState.updateTransform (updateState m.1)
       = VisualUpdateState.updateTransform (updateState p.1)
     ∧ VisualUpdateState.updateColor (updateState m.1)
       = VisualUpdateState.updateColor (updateState p.1)
     ∧ VisualUpdateState.createGeometry (updateState m.1)
       = (VisualUpdateState.createGeometry (updateState p.1) || changed)
     ∧ VisualUpdateState.updateSize (updateState p.1)
       = (VisualUpdateState.updateSize (updateState m.1) || changed)
     ∧ (changed = false → m = p)).
Proof.
  intros Hro Hcp Hcur Hit Hu Hsize.
  destruct s as [ro' cp' geo cg cs it0 cid us objs cl].
  cbn [renderObject currentProps currentGroup locationIt] in Hro, Hcp, Hcur, Hit.
  simplify_eq.
  assert (sizeChanged props cp = true) as Hchanged.
  { unfold sizeChanged, deepEqual, passProps.
    by rewrite bool_decide_eq_false_2. }
  split; [|split].
  - rewrite (update_run _ _ _ _ _ _ _ _ _ _ _ _ _ _ _ Hu).
    cbn [fst snd updateOutcome updateState calls renderObject].
    assert (geometryStep MeshVisual B props cp g cs it cid objs u = true)
      as Hgeo.
    { unfold geometryStep, diffedFlags, diffFlags.
      cbn [VisualUpdateState.createGeometry].
      rewrite Hchanged.
      by rewrite orb_true_r. }
    split; [exact Hgeo|]. split; [|done].
    eexists. split; [reflexivity|].
    unfold passNewCalls, sizeStep. rewrite Hgeo.
    rewrite !elem_of_app. split.
    + repeat case_match; rewrite ?elem_of_cons, ?elem_of_nil;
        intuition discriminate.
    + unfold passProps. case_bool_decide;
        rewrite ?elem_of_cons, ?elem_of_nil; intuition.
  - intros visual Hvisual.
    rewrite (update_run _ _ _ _ _ _ _ _ _ _ _ _ _ _ _ Hu).
    cbn [fst snd updateOutcome updateState calls renderObject].
    assert (sizeStep visual B props cp g cs it cid objs u = true) as Hstep.
    { unfold sizeStep, diffedFlags, diffFlags.
      cbn [VisualUpdateState.updateSize].
      rewrite Hchanged.
      destruct visual; [done| |]; by rewrite orb_true_r. }
    split; [by destruct visual|].
    split.
    { eexists. split; [reflexivity|].
      unfold passNewCalls. rewrite Hstep, !elem_of_app. set_solver. }
    split.
    { eexists. cbn [fmap option_fmap option_map compose values passValues size].
      by rewrite Hstep. }
    unfold passFlags, diffedFlags, diffFlags, conformationChanged,
      kindsChanged, hookFlags, passProps.
    cbn [VisualUpdateState.setUpdateColor VisualUpdateState.createGeometry
         currentConformationId].
    destruct visual; [done| |]; by rewrite orb_false_r.
  - intros u' g' newProps cp' s' [it' Hit'] changed m p.
    subst m p.
    change diffRulesMesh with (diffRules MeshVisual).
    change diffRulesPoints with (diffRules PointsVisual).
    change diffRulesLines with (diffRules LinesVisual).
    rewrite !(diffRules_run _ _ _ _ _ _ _ Hit').
    destruct s'. unfold diffFlags. subst changed.
    cbn [fst snd updateState setUpdateFlags setCurrentConformationId
         VisualUpdateState.updateTransform VisualUpdateState.updateColor
         VisualUpdateState.updateSize VisualUpdateState.createGeometry
         renderObject currentProps geometry currentGroup currentStructure
         locationIt currentConformationId objects calls].
    repeat split; try done.
    + rewrite orb_false_r.
      destruct (VisualUpdateState.createGeometry _), (negb (bool_decide _)),
        (negb (deepEqual (sizeTheme _) _)), (negb (deepEqual (unitKinds _) _));
        done.
    + intros ->. by rewrite !orb_false_r.
Qed.

(** The size theme of a created visual goes from 1 to 2. *)
Lemma update_sizeTheme_changed_witness :
  VisualUpdateState.createGeometry
    (updateState
       (update MeshVisual Example.builder Example.collaborators
          Example.biggerSize (Example.created MeshVisual)).1) = true.
Proof.
  refine (proj1 (proj1 (update_sizeTheme_changed Example.builder
    Example.collaborators Example.biggerSize
    (Example.createdObject MeshVisual) Example.props0 Example.groupG
    {| groupCount := 4; instanceCount := 2; cursor := 0 |}
    (Example.unitA 0 5) (Example.created MeshVisual)
    eq_refl eq_refl eq_refl eq_refl eq_refl _))).
  vm_compute. discriminate.
Defined.

(** ** A unit kind outside [unitKinds] *)

(** C8, as the code has it. When the kind of the first unit is not among the
    [unitKinds] of the props in force, neither [create] nor an update pass
    calls the builder's [createMesh], [createPoints] or [createLines].
    [create] leaves the canonical empty geometry and a draw count of 0, and so
    does an update pass that ends with the geometry flag set; an update pass
    that ends without it leaves the geometry and the draw-count cell as they
    were. *)
Theorem excluded_kind_builds_nothing visual B C props
    (g : Unit.SymmetryGroup) (u : Unit.t) (s : State) :
  Unit.units g !! 0 = Some u →
  (Unit.kind u ∉ unitKinds (assign (defaultProps B) props) →
   let r := create visual B C g props s in
   r.2 = Ok tt
   ∧ calls r.1 = [CallCreateRenderObject g; CallCreateLocationIterator g;
                  CallCreateEmpty] ++ calls s
   ∧ geometry r.1 = Some (createEmpty None)
   ∧ (ValueCell.value ∘ drawCount ∘ values) <$> renderObject r.1 = Some 0)
  ∧ (∀ ro cp it,
     renderObject s = Some ro →
     currentProps s = Some cp →
     currentGroup s = Some g →
     locationIt s = Some it →
     Unit.kind u ∉ unitKinds (assign cp props) →
     let r := update visual B C props s in
     r.2 = Ok tt
     ∧ (∃ new, calls r.1 = new ++ calls s
          ∧ ∀ u' props', CallCreateGeometry u' props' ∉ new)
     ∧ (VisualUpdateState.createGeometry (updateState r.1) = true →
        geometry r.1 = Some (createEmpty None)
        ∧ (drawCount ∘ values) <$> renderObject r.1
          = Some (ValueCell.update (drawCount (values ro)) 0))
     ∧ (VisualUpdateState.createGeometry (updateState r.1) = false →
        geometry r.1 = geometry s
        ∧ (drawCount ∘ values) <$> renderObject r.1
          = Some (drawCount (values ro)))).
Proof.
  intros Hu. split.
  - intros Hkind r. subst r.
    rewrite (create_completes _ _ _ _ _ _ _ Hu).
    rewrite !(bool_decide_eq_false_2 _ Hkind).
    cbn [fst snd calls geometry renderObject fmap option_fmap option_map
         compose createUnitsRenderObject values drawCount ValueCell.create
         ValueCell.value createEmpty drawCountOf primitiveCount app].
    repeat split. by destruct visual.
  - intros ro cp it Hro Hcp Hcur Hit Hkind r. subst r.
    destruct s as [ro' cp' geo cg cs it0 cid us objs cl].
    cbn [renderObject currentProps currentGroup locationIt]
      in Hro, Hcp, Hcur, Hit.
    simplify_eq.
    rewrite (update_run _ _ _ _ _ _ _ _ _ _ _ _ _ _ _ Hu).
    cbn [fst snd updateOutcome updateState calls geometry renderObject
         fmap option_fmap option_map compose values passValues drawCount].
    change (VisualUpdateState.createGeometry
              (passFlags visual B props cp g cs it cid objs u))
      with (geometryStep visual B props cp g cs it cid objs u).
    unfold passGeometry, passGeometry0, passProps.
    rewrite (bool_decide_eq_false_2 _ Hkind).
    split; [done|]. split; [|split].
    + eexists. split; [reflexivity|]. intros u' props'.
      unfold passNewCalls, passProps.
      rewrite (bool_decide_eq_false_2 _ Hkind), !elem_of_app.
      intros [H|[H|[H|H]]]; revert H;
        repeat case_match; rewrite ?elem_of_cons, ?elem_of_nil;
        intuition discriminate.
    + intros ->. split; [done|]. do 2 f_equal. by destruct visual.
    + by intros ->.
Qed.

(** A visual for atomic units only is created with a group of spheres. *)
Lemma excluded_kind_builds_nothing_witness :
  geometry
    (create MeshVisual Example.builder Example.collaborators
       {| Unit.units := [Example.unitS 0 5]; Unit.hashCode := 12 |}
       Example.atomicOnly (initial Example.objects0)).1
  = Some (createEmpty None).
Proof.
  refine (proj1 (proj2 (proj2 (proj1 (excluded_kind_builds_nothing MeshVisual
    Example.builder Example.collaborators Example.atomicOnly
    {| Unit.units := [Example.unitS 0 5]; Unit.hashCode := 12 |}
    (Example.unitS 0 5) (initial Example.objects0) eq_refl) _)))).
  intros H. apply list_elem_of_In in H. vm_compute in H.
  destruct H as [H|[]]. discriminate H.
Defined.

(** C8 as stated fails for an update pass. A mesh visual for atomic units
    only is created with a group of one atomic unit and has a geometry; it is
    then handed a group of the same hash code with two units, of spheres and
    in the same conformation.  The group is adopted, the pass completes
    without the geometry flag, the first unit's kind is not among the unit
    kinds, and the geometry and the draw count are the old ones. *)
Lemma excluded_kind_keeps_old_geometry :
  let s0 :=
    (createOrUpdate MeshVisual Example.builder Example.collaborators
       Example.atomicOnly
       (Example.sg {| Unit.units := [Example.unitA 0 5];
                      Unit.hashCode := 11 |})
       (initial Example.objects0)).1 in
  let r :=
    createOrUpdate MeshVisual Example.builder Example.collaborators noProps
      (Example.sg {| Unit.units := [Example.unitS 0 5; Example.unitS 1 5];
                     Unit.hashCode := 11 |}) s0 in
  r.2 = Ok tt
  ∧ currentGroup r.1
    = Some {| Unit.units := [Example.unitS 0 5; Example.unitS 1 5];
              Unit.hashCode := 11 |}
  ∧ unitKinds <$> currentProps r.1 = Some [Unit.Atomic]
  ∧ (Unit.Spheres ∉ [Unit.Atomic])
  ∧ VisualUpdateState.createGeometry (updateState r.1) = false
  ∧ geometry r.1 = Some {| primitiveCount := 2; buffer := [5%Z; 1%Z] |}
  ∧ geometry r.1 ≠ Some (createEmpty None)
  ∧ (ValueCell.value ∘ drawCount ∘ values) <$> renderObject r.1 = Some 6.
Proof.
  cbv zeta.
  split; [by vm_compute|].
  split; [by vm_compute|].
  split; [by vm_compute|].
  split.
  { intros H. apply list_elem_of_In in H. destruct H as [H|[]]. discriminate H. }
  split; [by vm_compute|].
  split; [by vm_compute|].
  split; [vm_compute; congruence|].
  by vm_compute.
Qed.

(** ** The same call again *)












(** ** Marking *)

Lemma applyMarkerAction_lookup C array start stop action i :
  (applyMarkerAction C array start stop action).1 !! i
  = if bool_decide (start ≤ i < stop)
    then markerByte C action <$> array !! i
    else array !! i.
Proof.
  unfold applyMarkerAction. cbn [fst]. rewrite list_lookup_imap.
  destruct (array !! i); cbn; [|by case_bool_decide].
  by case_bool_decide.
Qed.

Lemma applyMarkerAction_changed C array start stop action :
  (applyMarkerAction C array start stop action).2
  = negb (bool_decide ((applyMarkerAction C array start stop action).1 = array)).
Proof. reflexivity. Qed.

Lemma applyMarkerAction_length C array start stop action :
  length (applyMarkerAction C array start stop action).1 = length array.
Proof. unfold applyMarkerAction. cbn [fst]. apply length_imap. Qed.

(** A builder's [mark] that reports the changes of its [apply] calls, run
    with an action that settles a byte in one step, returns whether the
    marker array is another than before. *)
Lemma runMark_reports C script action array0 array acc :
  (∀ b, markerByte C action (markerByte C action b) = markerByte C action b) →
  reportsChanges acc script →
  touched (markerByte C action) array0 array →
  acc = negb (bool_decide (array = array0)) →
  (runMark C script action array).2
  = negb (bool_decide ((runMark C script action array).1 = array0)).
Proof.
  intros Hidem. revert array acc.
  induction script as [changed|interval k IH]; intros array acc Hrep Hinv Hacc.
  - cbn in *. by subst.
  - cbn [runMark]. unfold applyInterval.
    destruct (applyMarkerAction C array (Interval.start interval)
                (Interval.stop interval) action) as [array' r] eqn:Happly.
    assert (array' = (applyMarkerAction C array (Interval.start interval)
                        (Interval.stop interval) action).1) as Harr
      by (by rewrite Happly).
    assert (r = negb (bool_decide (array' = array))) as Hr.
    { rewrite Harr, <- applyMarkerAction_changed. by rewrite Happly. }
    destruct Hinv as [Hlen Hslots].
    apply (IH r array' (acc || r)).
    + apply Hrep.
    + split.
      * rewrite Harr, applyMarkerAction_length. exact Hlen.
      * intros i b Hb. rewrite Harr, applyMarkerAction_lookup.
        destruct (Hslots i b Hb) as [-> | ->];
          destruct (bool_decide (_ ≤ i < _)); cbn; rewrite ?Hidem; auto.
    + rewrite Hacc, Hr.
      destruct (decide (array = array0)) as [->|Hne].
      * rewrite (bool_decide_eq_true_2 (array0 = array0)) by done. done.
      * rewrite (bool_decide_eq_false_2 _ Hne). cbn.
        rewrite bool_decide_eq_false_2; [done|].
        intros ->. apply Hne. apply list_eq. intros i.
        destruct (array0 !! i) as [b|] eqn:Hb.
        -- destruct (Hslots i b Hb) as [Hi|Hi]; [done|].
           pose proof (applyMarkerAction_lookup C array
             (Interval.start interval) (Interval.stop interval) action i) as Hl.
           rewrite <- Harr, Hb, Hi in Hl.
           destruct (bool_decide (_ ≤ i < _)); cbn in Hl;
             rewrite ?Hidem in Hl; congruence.
        -- apply lookup_ge_None. rewrite Hlen. by apply lookup_ge_None.
Qed.

(** C6, as the code has it. Without a render object [mark] returns false
    and leaves the visual as it is.  With one, nothing but the marker cell is
    touched.  For the every-loci sentinel the action is applied to the slots
    of [0, groupCount * instanceCount) and to no other slot, and the returned
    status says whether a marker byte changed; for other loci the builder's
    [mark] is run with the [apply] callback and the returned status is the
    builder's: it says whether a marker byte changed when the builder reports
    the changes of its [apply] calls and the action settles a byte in one
    step.  The marker cell is marked for re-upload exactly when the returned
    status is true. *)
Theorem markVisual_marks B C loci action (s : State) :
  (renderObject s = None → markVisual B C loci action s = (s, Ok false))
  ∧ ∀ ro it, renderObject s = Some ro → locationIt s = Some it →
    let marker := tMarker (values ro) in
    let array := ValueCell.value marker in
    let marked (array' : list byte) (changed : bool) :=
      setRenderObject
        (Some {| values :=
                   setTMarker
                     (ValueCell.mk array'
                        (if changed then S (ValueCell.version marker)
                         else ValueCell.version marker))
                     (values ro);
                 state := state ro |}) s in
    (isEveryLoci (Some loci) = true →
     ∃ array' changed,
       markVisual B C loci action s = (marked array' changed, Ok changed)
       ∧ (∀ i, array' !! i =
            if bool_decide (i < groupCount it * instanceCount it)
            then markerByte C action <$> array !! i
            else array !! i)
       ∧ (changed = true ↔ array' ≠ array))
    ∧ (isEveryLoci (Some loci) = false →
       ∀ g, currentGroup s = Some g →
       ∃ array' changed,
         markVisual B C loci action s = (marked array' changed, Ok changed)
         ∧ (array', changed) = runMark C (mark B loci g) action array
         ∧ (reportsChanges false (mark B loci g) →
            (∀ b, markerByte C action (markerByte C action b)
                  = markerByte C action b) →
            (changed = true ↔ array' ≠ array))).
Proof.
  split.
  - intros Hro. destruct s. cbn in Hro. subst. reflexivity.
  - intros ro it Hro Hit marker array marked.
    destruct s as [ro' cp geo cg cs it' cid us objs cl].
    cbn [renderObject locationIt currentGroup] in *. simplify_eq.
    split.
    + intros Hevery.
      destruct (applyMarkerAction C array 0
                  (groupCount it * instanceCount it) action)
        as [array' changed] eqn:Happly.
      exists array', changed. split; [|split].
      * unfold markVisual. subst marked. run_steps. rewrite Hevery.
        unfold applyInterval. cbn [Interval.start Interval.stop].
        fold marker. fold array. rewrite Happly. by destruct changed.
      * intros i.
        pose proof (applyMarkerAction_lookup C array 0
                      (groupCount it * instanceCount it) action i) as Hl.
        rewrite Happly in Hl. cbn [fst] in Hl. rewrite Hl.
        destruct (decide (i < groupCount it * instanceCount it)).
        -- rewrite !bool_decide_eq_true_2; [done|done|lia].
        -- rewrite !bool_decide_eq_false_2; [done|done|lia].
      * pose proof (applyMarkerAction_changed C array 0
                      (groupCount it * instanceCount it) action) as Hc.
        rewrite Happly in Hc. cbn [fst snd] in Hc. rewrite Hc.
        rewrite negb_true_iff, bool_decide_eq_false. done.
    + intros Hevery g Hcur. simplify_eq.
      destruct (runMark C (mark B loci g) action array)
        as [array' changed] eqn:Hrun.
      exists array', changed. split; [|split; [done|]].
      * unfold markVisual. subst marked. run_steps. rewrite Hevery.
        fold marker. fold array. rewrite Hrun. by destruct changed.
      * intros Hrep Hidem.
        pose proof (runMark_reports C (mark B loci g) action array array false
                      Hidem Hrep) as Hc.
        rewrite Hrun in Hc. cbn [fst snd] in Hc. rewrite Hc.
        -- rewrite negb_true_iff, bool_decide_eq_false. done.
        -- split; [done|]. intros i b Hb. by left.
        -- by rewrite bool_decide_eq_true_2.
Qed.

(** The whole-unit [mark] of the example builder reports its changes. *)
Lemma markUnits_reports groupCount unitIdxs acc :
  reportsChanges acc (Example.markUnits groupCount unitIdxs acc).
Proof.
  revert acc. induction unitIdxs as [|unitIdx rest IH]; intros acc; cbn.
  - reflexivity.
  - intros r. destruct r, acc; apply IH.
Qed.

(** The example action settles a byte in one step. *)
Lemma markerByteOf_settles action b :
  Example.markerByteOf action (Example.markerByteOf action b)
  = Example.markerByteOf action b.
Proof. by destruct action, b. Qed.

(** Highlighting everything, and the second unit, in a created visual. *)
Lemma markVisual_marks_witness :
  (∃ array' changed,
     (markVisual Example.builder Example.collaborators EveryLoci Highlight
        (Example.created MeshVisual)).2 = Ok changed
     ∧ (changed = true ↔ array' ≠ replicate 8 x00))
  ∧ (∃ array' changed,
       (markVisual Example.builder Example.collaborators
          (ElementLoci [(1, [])]) Highlight
          (Example.created MeshVisual)).2 = Ok changed
       ∧ (changed = true ↔ array' ≠ replicate 8 x00)).
Proof.
  pose proof (proj2 (markVisual_marks Example.builder Example.collaborators
    EveryLoci Highlight (Example.created MeshVisual))
    (Example.createdObject MeshVisual)
    {| groupCount := 4; instanceCount := 2; cursor := 0 |}
    eq_refl eq_refl) as [Hevery _].
  pose proof (proj2 (markVisual_marks Example.builder Example.collaborators
    (ElementLoci [(1, [])]) Highlight (Example.created MeshVisual))
    (Example.createdObject MeshVisual)
    {| groupCount := 4; instanceCount := 2; cursor := 0 |}
    eq_refl eq_refl) as [_ Hother].
  split.
  - destruct (Hevery eq_refl) as (array' & changed & Hrun & _ & Hchanged).
    exists array', changed. split; [by rewrite Hrun|exact Hchanged].
  - destruct (Hother eq_refl Example.groupG eq_refl)
      as (array' & changed & Hrun & _ & Hchanged).
    exists array', changed. split; [by rewrite Hrun|].
    apply Hchanged.
    + apply (markUnits_reports 4 [1] false).
    + apply markerByteOf_settles.
Defined.

(** C6 as stated fails for loci other than the every-loci sentinel, where
    the returned status is the builder's: with a [mark] that applies the
    interval of the first unit and returns false, four marker bytes change
    and the cell is not marked for re-upload, its version staying 0; and for
    a loci that this [mark] answers with true without applying anything, no
    byte changes and the cell is marked. *)
Lemma mark_trusts_the_builder :
  let B := OtherBuilders.unreportedMarks in
  let C := Example.collaborators in
  let s := (createOrUpdate MeshVisual B C noProps (Example.sg Example.groupG)
              (initial Example.objects0)).1 in
  let r1 := markVisual B C (ElementLoci [(0, [])]) Highlight s in
  let r2 := markVisual B C EmptyLoci Highlight s in
  (tMarker ∘ values) <$> renderObject s
  = Some (ValueCell.mk (replicate 8 x00) 0)
  ∧ r1.2 = Ok false
  ∧ (tMarker ∘ values) <$> renderObject r1.1
    = Some (ValueCell.mk [x01; x01; x01; x01; x00; x00; x00; x00] 0)
  ∧ r2.2 = Ok true
  ∧ (tMarker ∘ values) <$> renderObject r2.1
    = Some (ValueCell.mk (replicate 8 x00) 1).
Proof.
  cbv zeta.
  repeat match goal with |- _ ∧ _ => split end; vm_compute; reflexivity.
Qed.

(** The marker scenario of a group with four groups per unit and two units:
    highlighting the second unit sets the slots 4 to 7 and reports a change,
    and doing it again reports none. *)
Lemma mark_second_unit_example :
  let r1 := markVisual Example.builder Example.collaborators
              (ElementLoci [(1, [])]) Highlight (Example.created MeshVisual) in
  let r2 := markVisual Example.builder Example.collaborators
              (ElementLoci [(1, [])]) Highlight r1.1 in
  r1.2 = Ok true
  ∧ (tMarker ∘ values) <$> renderObject r1.1
    = Some (ValueCell.mk [x00; x00; x00; x00; x01; x01; x01; x01] 1)
  ∧ r2.2 = Ok false
  ∧ (tMarker ∘ values) <$> renderObject r2.1
    = (tMarker ∘ values) <$> renderObject r1.1.
Proof.
  cbv zeta.
  split; [vm_compute; reflexivity|].
  split; [vm_compute; reflexivity|].
  split; vm_compute; reflexivity.
Qed.

(** * The rest of the visual's life cycle *)

(** ** Destroying a visual *)

Lemma create_fields_without_units visual B C g props s :
  Unit.units g !! 0 = None →
  create visual B C g props s =
    (setCurrentGroup (Some g)
       (setObjects
          (alter (λ theme, {| colorName := colorName theme;
                              colorValue := colorValue theme;
                              themeStructure := currentStructure s |})
             (colorTheme (assign (defaultProps B) props)) (objects s))
          (setCurrentProps (Some (assign (defaultProps B) props)) s)),
     Throw TypeError).
Proof. intros Hu. destruct s. run_steps. by rewrite Hu. Qed.

Lemma create_renderObject visual B C g props s :
  is_Some (renderObject s) →
  is_Some (renderObject (create visual B C g props s).1).
Proof.
  intros Hro. destruct (Unit.units g !! 0) as [u|] eqn:Hu.
  - rewrite (create_completes _ _ _ _ _ _ _ Hu). cbv zeta. by eexists.
  - rewrite (create_fields_without_units _ _ _ _ _ _ Hu). by destruct s.
Qed.

Lemma update_renderObject visual B C props s :
  is_Some (renderObject (update visual B C props s).1)
  ↔ is_Some (renderObject s).
Proof.
  destruct s as [ro cp geo cg cs it cid us objs cl].
  destruct ro as [ro|]; [|done].
  destruct cp; [|done].
  destruct cg as [g|]; [|done].
  destruct it; [|done].
  destruct (Unit.units g !! 0) as [u|] eqn:Hu.
  - rewrite (update_run _ _ _ _ _ _ _ _ _ _ _ _ _ _ _ Hu). by split; eexists.
  - run_steps. by rewrite Hu.
Qed.

(** X1. [destroy] drops the render object and nothing else, and a destroyed
    visual is idle: destroying it again, marking it, picking in it and
    updating it change nothing, [mark] returning false and [getLoci] the
    empty loci without a call of the builder; a [createOrUpdate] without a
    group is then a completed no-op when the visual has a current group, and
    the missing-group error when it has none. *)
Theorem destroy_leaves_idle visual B C (s : State) :
  let s' := (destroy s).1 in
  destroy s = (setRenderObject None s, Ok tt)
  ∧ destroy s' = (s', Ok tt)
  ∧ (∀ loci action, markVisual B C loci action s' = (s', Ok false))
  ∧ (∀ builderGetLoci id pickingId,
       getLoci builderGetLoci id pickingId s' = (s', Ok EmptyLoci))
  ∧ (∀ props, update visual B C props s' = (s', Ok tt))
  ∧ (∀ props, createOrUpdate visual B C props None s'
       = (s', match currentGroup s with
              | Some _ => Ok tt
              | None => Throw MissingGroup
              end)).
Proof.
  destruct s as [ro cp geo cg cs it cid us objs cl].
  repeat split; try reflexivity.
  intros props. rewrite createOrUpdate_without_group.
  by destruct cg.
Qed.

(** X2. After [destroy], a [createOrUpdate] with a group, be it the current
    group itself, is the full [create]: with a first unit in the group it
    completes, the props are the defaults merged with the props of the call,
    the geometry is built by the builder, which is handed the geometry the
    visual had before the [destroy] for reuse, and the render object is a new
    one, with cells at version 0. *)
Theorem createOrUpdate_after_destroy visual B C props st
    (g : Unit.SymmetryGroup) (u : Unit.t) (s : State) :
  Unit.units g !! 0 = Some u →
  let r := createOrUpdate visual B C props
             (Some {| structure := st; group := g |}) (destroy s).1 in
  let props' := assign (defaultProps B) props in
  let geo :=
    if bool_decide (Unit.kind u ∈ unitKinds props')
    then createGeometry B u (Some st) props' (geometry s)
    else createEmpty (geometry s) in
  r = create visual B C g props (setCurrentStructure (Some st) (destroy s).1)
  ∧ r.2 = Ok tt
  ∧ currentProps r.1 = Some props'
  ∧ currentGroup r.1 = Some g
  ∧ geometry r.1 = Some geo
  ∧ locationIt r.1 = Some (createLocationIterator B g)
  ∧ ∃ ro, renderObject r.1 = Some ro
      ∧ drawCount (values ro) = ValueCell.create (drawCountOf visual geo)
      ∧ ValueCell.version (tMarker (values ro)) = 0
      ∧ ValueCell.version (aTransform (values ro)) = 0
      ∧ ValueCell.version (color (values ro)) = 0
      ∧ ValueCell.version (size (values ro)) = 0.
Proof.
  intros Hu r props' geo.
  assert (r = create visual B C g props
                (setCurrentStructure (Some st) (destroy s).1)) as Hr.
  { subst r. rewrite createOrUpdate_with_group. cbv zeta.
    destruct s as [ro cp geo0 cg cs it cid us objs cl].
    cbn [destroy modify fst setRenderObject currentGroup renderObject].
    by destruct cg. }
  split; [exact Hr|]. rewrite Hr.
  rewrite (create_completes _ _ _ _ _ _ _ Hu). cbv zeta.
  destruct s as [ro cp geo0 cg cs it cid us objs cl].
  cbn [fst snd currentProps currentGroup geometry locationIt renderObject
       currentStructure setCurrentStructure destroy modify setRenderObject].
  repeat (split; [reflexivity|]).
  eexists. split; [reflexivity|]. repeat split.
Qed.

(** A created mesh visual is destroyed and given its group again. *)
Lemma createOrUpdate_after_destroy_witness :
  geometry
    (createOrUpdate MeshVisual Example.builder Example.collaborators noProps
       (Example.sg Example.groupG)
       (destroy (Example.created MeshVisual)).1).1
  = Some {| primitiveCount := 2; buffer := [5%Z; 1%Z] |}.
Proof.
  pose proof (createOrUpdate_after_destroy MeshVisual Example.builder
    Example.collaborators noProps Example.structure0 Example.groupG
    (Example.unitA 0 5) (Example.created MeshVisual) eq_refl)
    as (_ & _ & _ & _ & H & _).
  exact H.
Defined.

(** ** The current group is kept *)

(** X3. No operation clears the current group or, [destroy] apart, the
    render object: once a visual has a current group, every later
    [createOrUpdate] leaves it with one, however the call ends, and never
    throws the missing-group error, and it keeps a render object the visual
    has; [mark] and [destroy] leave the current group as it is. *)
Theorem currentGroup_never_cleared visual B C (s : State) :
  is_Some (currentGroup s) →
  (∀ props sg,
     is_Some (currentGroup (createOrUpdate visual B C props sg s).1)
     ∧ (createOrUpdate visual B C props sg s).2 ≠ Throw MissingGroup
     ∧ (is_Some (renderObject s) →
        is_Some (renderObject (createOrUpdate visual B C props sg s).1)))
  ∧ (∀ loci action,
       currentGroup (markVisual B C loci action s).1 = currentGroup s
       ∧ (is_Some (renderObject (markVisual B C loci action s).1)
          ↔ is_Some (renderObject s)))
  ∧ currentGroup (destroy s).1 = currentGroup s.
Proof.
  intros [cur Hcur]. split; [|split].
  - intros props [[st g]|].
    + destruct (createOrUpdate_with_group_hashCode visual B C props st g s)
        as (c & -> & _).
      split; [by eexists|].
      split; [apply createOrUpdate_with_group_never_missing|].
      intros Hro. rewrite createOrUpdate_with_group. cbv zeta.
      assert (is_Some (renderObject (setCurrentStructure (Some st) s))) as Hro'
        by (by destruct s).
      rewrite Hcur. destruct (renderObject s) eqn:Hro0; [|by destruct Hro].
      case_bool_decide; [|by apply create_renderObject].
      destruct (sameGroupConformation g cur) as [[]|];
        [apply update_renderObject; by destruct s
        |apply update_renderObject; by destruct s
        |done].
    + rewrite createOrUpdate_without_group, Hcur.
      rewrite update_currentGroup, Hcur.
      split; [by eexists|].
      split; [apply update_never_missing|].
      apply update_renderObject.
  - intros loci action.
    destruct (markVisual_fields B C loci action s) as (Hro & _ & Hcg & _).
    done.
  - by destruct s.
Qed.

(** A destroyed visual still has its group: a call without one succeeds. *)
Lemma currentGroup_never_cleared_witness :
  (createOrUpdate MeshVisual Example.builder Example.collaborators noProps None
     (destroy (Example.created MeshVisual)).1).2 ≠ Throw MissingGroup.
Proof.
  exact (proj1 (proj2 (proj1 (currentGroup_never_cleared MeshVisual
    Example.builder Example.collaborators
    (destroy (Example.created MeshVisual)).1
    (mk_is_Some _ _ eq_refl)) noProps None))).
Defined.



(** ** The props of a visual *)

Lemma assign_noProps base : assign base noProps = base.
Proof.
  destruct base as [st ct uk ex]. unfold assign, noProps.
  cbn [sizeTheme colorTheme unitKinds extra sizeTheme_opt colorTheme_opt
       unitKinds_opt extra_opt default]. f_equal. apply (left_id_L ∅ (∪)).
Qed.

Lemma create_currentProps visual B C g props s :
  currentProps (create visual B C g props s).1
  = Some (assign (defaultProps B) props).
Proof.
  destruct (Unit.units g !! 0) as [u|] eqn:Hu.
  - by rewrite (create_completes _ _ _ _ _ _ _ Hu).
  - by rewrite (create_fields_without_units _ _ _ _ _ _ Hu).
Qed.

(** X5. An update pass merges the props of the call into the current props,
    so that what earlier calls set stays in force, and a pass without props
    keeps the current props; [create] starts over from the builder's
    defaults, so that a group of another shape, or the first group after a
    [destroy], drops what earlier calls set, also when the [create] then
    fails. *)
Theorem props_reset_by_create_kept_by_update visual B C props
    (ro : RenderObject) (cp : Props) (g : Unit.SymmetryGroup)
    (it : LocationIterator) (u : Unit.t) (s : State) :
  renderObject s = Some ro →
  currentProps s = Some cp →
  currentGroup s = Some g →
  locationIt s = Some it →
  Unit.units g !! 0 = Some u →
  currentProps (update visual B C props s).1 = Some (assign cp props)
  ∧ currentProps (update visual B C noProps s).1 = Some cp
  ∧ (∀ g', currentProps (create visual B C g' props s).1
           = Some (assign (defaultProps B) props))
  ∧ (∀ g', currentProps (create visual B C g' noProps s).1
           = Some (defaultProps B)).
Proof.
  intros Hro Hcp Hcur Hit Hu.
  destruct s as [ro' cp' geo cg cs it0 cid us objs cl].
  cbn [renderObject currentProps currentGroup locationIt] in Hro, Hcp, Hcur, Hit.
  simplify_eq.
  rewrite !(update_run _ _ _ _ _ _ _ _ _ _ _ _ _ _ _ Hu).
  cbn [fst updateOutcome currentProps]. unfold passProps.
  rewrite assign_noProps.
  repeat split; intros g'; rewrite create_currentProps; [done|].
  by rewrite assign_noProps.
Qed.

(** The size theme of a created visual is set to 2 by an update pass, and a
    [create] without props is back at the default 1. *)
Lemma props_reset_by_create_kept_by_update_witness :
  sizeTheme <$> currentProps
    (update MeshVisual Example.builder Example.collaborators
       Example.biggerSize (Example.created MeshVisual)).1
  = Some {| sizeName := "uniform"; sizeValue := 2 |}
  ∧ sizeTheme <$> currentProps
      (create MeshVisual Example.builder Example.collaborators Example.groupH
         noProps (Example.created MeshVisual)).1
    = Some Example.uniformSize.
Proof.
  pose proof (props_reset_by_create_kept_by_update MeshVisual Example.builder
    Example.collaborators Example.biggerSize
    (Example.createdObject MeshVisual) Example.props0 Example.groupG
    {| groupCount := 4; instanceCount := 2; cursor := 0 |}
    (Example.unitA 0 5) (Example.created MeshVisual)
    eq_refl eq_refl eq_refl eq_refl eq_refl) as (Hmerged & _ & _ & Hreset).
  split.
  - rewrite Hmerged. reflexivity.
  - rewrite (Hreset Example.groupH). reflexivity.
Defined.

(** ** The structure in the color theme *)

Lemma update_objects visual B C props ro cp s :
  renderObject s = Some ro →
  currentProps s = Some cp →
  objects (update visual B C props s).1
  = alter (λ theme, {| colorName := colorName theme;
                       colorValue := colorValue theme;
                       themeStructure := currentStructure s |})
      (colorTheme (assign cp props)) (objects s).
Proof.
  intros Hro Hcp.
  destruct s as [ro' cp' geo cg cs it cid us objs cl].
  cbn [renderObject currentProps] in Hro, Hcp. simplify_eq.
  destruct cg as [g|]; [|done].
  destruct it; [|done].
  destruct (Unit.units g !! 0) as [u|] eqn:Hu.
  - by rewrite (update_run _ _ _ _ _ _ _ _ _ _ _ _ _ _ _ Hu).
  - run_steps. by rewrite Hu.
Qed.

Lemma create_objects visual B C g props s :
  objects (create visual B C g props s).1
  = alter (λ theme, {| colorName := colorName theme;
                       colorValue := colorValue theme;
                       themeStructure := currentStructure s |})
      (colorTheme (assign (defaultProps B) props)) (objects s).
Proof.
  destruct (Unit.units g !! 0) as [u|] eqn:Hu.
  - by rewrite (create_completes _ _ _ _ _ _ _ Hu).
  - rewrite (create_fields_without_units _ _ _ _ _ _ Hu). by destruct s.
Qed.

Lemma lookup_bound_structure (cs : option Structure) (l i : loc)
    (objs : gmap loc ColorThemeProps) :
  alter (λ theme, {| colorName := colorName theme;
                     colorValue := colorValue theme;
                     themeStructure := cs |}) l objs !! i
  = if decide (i = l)
    then (λ theme, {| colorName := colorName theme;
                      colorValue := colorValue theme;
                      themeStructure := cs |}) <$> objs !! i
    else objs !! i.
Proof.
  destruct (decide (i = l)) as [->|Hne].
  - by rewrite lookup_alter_eq.
  - by rewrite lookup_alter_ne.
Qed.

(** X6. [create] and an update pass write the current structure into the
    color-theme object the merged props point to, and into no other object,
    whether they complete or fail later on.  The object is shared, not
    copied: when the props of a [create] name no color theme, the object
    written is the one held by the builder's default props. *)
Theorem structure_written_into_shared_theme visual B C props
    (g : Unit.SymmetryGroup) (s : State) :
  let bound := λ theme, {| colorName := colorName theme;
                           colorValue := colorValue theme;
                           themeStructure := currentStructure s |} in
  (∀ i, objects (create visual B C g props s).1 !! i
        = if decide (i = colorTheme (assign (defaultProps B) props))
          then bound <$> objects s !! i else objects s !! i)
  ∧ (colorTheme_opt props = None →
     objects (create visual B C g props s).1 !! colorTheme (defaultProps B)
     = bound <$> objects s !! colorTheme (defaultProps B))
  ∧ (∀ ro cp, renderObject s = Some ro → currentProps s = Some cp →
     ∀ i, objects (update visual B C props s).1 !! i
          = if decide (i = colorTheme (assign cp props))
            then bound <$> objects s !! i else objects s !! i).
Proof.
  intros bound. split; [|split].
  - intros i. rewrite create_objects. apply lookup_bound_structure.
  - intros Hnone. rewrite create_objects, lookup_bound_structure.
    unfold assign. cbn [colorTheme]. rewrite Hnone. cbn [default].
    by rewrite decide_True.
  - intros ro cp Hro Hcp i.
    rewrite (update_objects _ _ _ _ _ _ _ Hro Hcp).
    apply lookup_bound_structure.
Qed.

(** The first call of the example visual binds its structure into the theme
    object of the builder's defaults. *)
Lemma structure_written_into_shared_theme_witness :
  themeStructure <$>
    objects
      (create MeshVisual Example.builder Example.collaborators Example.groupG
         noProps
         (setCurrentStructure (Some Example.structure0)
            (initial Example.objects0))).1 !! 0
  = Some (Some Example.structure0).
Proof.
  pose proof (proj1 (proj2 (structure_written_into_shared_theme MeshVisual
    Example.builder Example.collaborators noProps Example.groupG
    (setCurrentStructure (Some Example.structure0)
       (initial Example.objects0)))) eq_refl) as H.
  etrans; [exact (f_equal (fmap themeStructure) H)|].
  vm_compute. reflexivity.
Defined.

(** X7. The color rule of an update pass compares the theme object of the
    merged props, after the structure has been written into it, with that of
    the current props.  When the call does not replace the color theme the
    two are one object, so the rule sets no flag, whatever became of the
    structure or of the fields of the theme since the last pass: the color
    flag at the end of the pass is then what the builder's hook set, or the
    consequence of a transform or geometry rebuild. *)
Theorem update_color_rule_needs_new_theme visual B C props
    (ro : RenderObject) (cp : Props) (g : Unit.SymmetryGroup)
    (it : LocationIterator) (u : Unit.t) (s : State) :
  renderObject s = Some ro →
  currentProps s = Some cp →
  currentGroup s = Some g →
  locationIt s = Some it →
  Unit.units g !! 0 = Some u →
  colorTheme (assign cp props) = colorTheme cp →
  let r := update visual B C props s in
  VisualUpdateState.updateColor (updateState r.1)
  = (VisualUpdateState.updateColor
       (setUpdateState B VisualUpdateState.create (assign cp props) cp)
     || VisualUpdateState.updateTransform (updateState r.1)
     || VisualUpdateState.createGeometry (updateState r.1)).
Proof.
  intros Hro Hcp Hcur Hit Hu Hsame r. subst r.
  destruct s as [ro' cp' geo cg cs it0 cid us objs cl].
  cbn [renderObject currentProps currentGroup locationIt] in Hro, Hcp, Hcur, Hit.
  simplify_eq.
  rewrite (update_run _ _ _ _ _ _ _ _ _ _ _ _ _ _ _ Hu).
  cbn [fst updateOutcome updateState].
  unfold passFlags, colorStep, geometryStep, transformStep, diffedFlags,
    diffFlags, colorChanged, hookFlags, passProps, deepEqual.
  rewrite Hsame.
  rewrite (bool_decide_eq_true_2 (_ = _)) by reflexivity.
  cbn [negb VisualUpdateState.updateTransform VisualUpdateState.updateColor
       VisualUpdateState.createGeometry VisualUpdateState.setUpdateColor].
  by rewrite orb_false_r.
Qed.

(** A created visual is handed another structure and, in the store, a theme
    of another color: the pass sets no color flag. *)
Lemma update_color_rule_needs_new_theme_witness :
  VisualUpdateState.updateColor
    (updateState
       (update MeshVisual Example.builder Example.collaborators noProps
          (setObjects
             {[ 0 := {| colorName := "uniform"; colorValue := 9;
                        themeStructure := None |} ]}
             (setCurrentStructure None (Example.created MeshVisual)))).1)
  = false.
Proof.
  rewrite (update_color_rule_needs_new_theme MeshVisual Example.builder
    Example.collaborators noProps
    (Example.createdObject MeshVisual) Example.props0 Example.groupG
    {| groupCount := 4; instanceCount := 2; cursor := 0 |}
    (Example.unitA 0 5)
    (setObjects
       {[ 0 := {| colorName := "uniform"; colorValue := 9;
                  themeStructure := None |} ]}
       (setCurrentStructure None (Example.created MeshVisual)))
    eq_refl eq_refl eq_refl eq_refl eq_refl eq_refl).
  vm_compute. reflexivity.
Defined.

(** ** The geometry rebuild *)

(** X8. In an update pass that ends with the geometry flag set, as every
    pass does whose merged unit kinds are not the current ones, the geometry
    is what the builder makes of the first unit, the current structure, the
    merged props and the previous geometry, or the empty geometry for a unit
    kind outside the unit kinds; the draw-count cell is updated to the count
    that geometry gives, and the color flag is set, so that the colors are
    computed again in the same pass. *)
Theorem update_geometry_rebuild visual B C props
    (ro : RenderObject) (cp : Props) (g : Unit.SymmetryGroup)
    (it : LocationIterator) (u : Unit.t) (s : State) :
  renderObject s = Some ro →
  currentProps s = Some cp →
  currentGroup s = Some g →
  locationIt s = Some it →
  Unit.units g !! 0 = Some u →
  let r := update visual B C props s in
  let props' := assign cp props in
  let geo :=
    if bool_decide (Unit.kind u ∈ unitKinds props')
    then createGeometry B u (currentStructure s) props' (geometry s)
    else createEmpty (geometry s) in
  (unitKinds props' ≠ unitKinds cp →
   VisualUpdateState.createGeometry (updateState r.1) = true)
  ∧ (VisualUpdateState.createGeometry (updateState r.1) = true →
     geometry r.1 = Some geo
     ∧ VisualUpdateState.updateColor (updateState r.1) = true
     ∧ (∃ new, calls r.1 = new ++ calls s ∧ CallCreateColors ∈ new
          ∧ ((if bool_decide (Unit.kind u ∈ unitKinds props')
              then CallCreateGeometry u props' else CallCreateEmpty) ∈ new))
     ∧ ∃ ro', renderObject r.1 = Some ro'
         ∧ drawCount (values ro')
           = ValueCell.update (drawCount (values ro)) (drawCountOf visual geo)
         ∧ ValueCell.version (color (values ro'))
           = S (ValueCell.version (color (values ro)))).
Proof.
  intros Hro Hcp Hcur Hit Hu r props' geo. subst r.
  destruct s as [ro' cp' geo0 cg cs it0 cid us objs cl].
  cbn [renderObject currentProps currentGroup locationIt currentStructure
       geometry calls] in *.
  simplify_eq.
  rewrite (update_run _ _ _ _ _ _ _ _ _ _ _ _ _ _ _ Hu).
  cbn [fst snd updateOutcome updateState geometry calls renderObject].
  change (VisualUpdateState.createGeometry
            (passFlags visual B props cp g cs it cid objs u))
    with (geometryStep visual B props cp g cs it cid objs u).
  change (VisualUpdateState.updateColor
            (passFlags visual B props cp g cs it cid objs u))
    with (colorStep visual B props cp g cs it cid objs u).
  split.
  - intros Hne.
    unfold geometryStep, diffedFlags, diffFlags, kindsChanged, deepEqual,
      passProps.
    rewrite (bool_decide_eq_false_2 _ Hne).
    cbn [VisualUpdateState.createGeometry negb]. by rewrite orb_true_r.
  - intros Hg.
    unfold passGeometry, passCalls, passNewCalls, passValues, colorStep.
    rewrite !Hg, !orb_true_r.
    split; [reflexivity|]. split; [reflexivity|]. split.
    + eexists. split; [reflexivity|]. rewrite !elem_of_app.
      split; [left; apply list_elem_of_here|].
      right. right. left. apply list_elem_of_here.
    + eexists. split; [reflexivity|].
      cbn [values drawCount color ValueCell.update ValueCell.version].
      done.
Qed.

(** A created visual is restricted to atomic units: the geometry of its
    atomic first unit is built again. *)
Lemma update_geometry_rebuild_witness :
  geometry
    (update MeshVisual Example.builder Example.collaborators
       Example.atomicOnly (Example.created MeshVisual)).1
  = Some {| primitiveCount := 2; buffer := [5%Z; 1%Z] |}.
Proof.
  pose proof (update_geometry_rebuild MeshVisual Example.builder
    Example.collaborators Example.atomicOnly
    (Example.createdObject MeshVisual) Example.props0 Example.groupG
    {| groupCount := 4; instanceCount := 2; cursor := 0 |}
    (Example.unitA 0 5) (Example.created MeshVisual)
    eq_refl eq_refl eq_refl eq_refl eq_refl) as [Hflag Hrebuild].
  refine (proj1 (Hrebuild (Hflag _))). vm_compute. discriminate.
Defined.

(** ** The order of the steps *)

Lemma app_four_assoc {A} (a b c d e : list A) :
  (a ++ b ++ c ++ d) ++ e = a ++ b ++ c ++ d ++ e.
Proof. by rewrite <- !app_assoc. Qed.

(** X9. The calls of a completed update pass are, in time: the transform
    rebuild (iterator, transforms, markers) if any, then the geometry (built
    or empty) if any, then the sizes if any, then the colors if any, each at
    most once.  The mesh visual computes no sizes, and the colors are
    computed whenever the transform or the geometry was rebuilt.  (The log is
    newest first.) *)
Theorem update_steps_in_order visual B C props
    (ro : RenderObject) (cp : Props) (g : Unit.SymmetryGroup)
    (it : LocationIterator) (u : Unit.t) (s : State) :
  renderObject s = Some ro →
  currentProps s = Some cp →
  currentGroup s = Some g →
  locationIt s = Some it →
  Unit.units g !! 0 = Some u →
  let r := update visual B C props s in
  let it' := createLocationIterator B g in
  ∃ colors sizes geometries transforms,
    calls r.1 = colors ++ sizes ++ geometries ++ transforms ++ calls s
    ∧ (transforms = []
       ∨ transforms = [CallCreateMarkers (instanceCount it' * groupCount it');
                       CallCreateUnitsTransform g;
                       CallCreateLocationIterator g])
    ∧ (geometries = []
       ∨ geometries = [CallCreateGeometry u (assign cp props)]
       ∨ geometries = [CallCreateEmpty])
    ∧ (sizes = [] ∨ (sizes = [CallCreateSizes] ∧ visual ≠ MeshVisual))
    ∧ (colors = [CallCreateColors]
       ∨ (colors = [] ∧ transforms = [] ∧ geometries = [])).
Proof.
  intros Hro Hcp Hcur Hit Hu r it'. subst r.
  destruct s as [ro' cp' geo0 cg cs it0 cid us objs cl].
  cbn [renderObject currentProps currentGroup locationIt calls] in *.
  simplify_eq.
  rewrite (update_run _ _ _ _ _ _ _ _ _ _ _ _ _ _ _ Hu).
  cbn [fst updateOutcome calls]. unfold passCalls, passNewCalls.
  eexists _, _, _, _. split; [apply app_four_assoc|].
  unfold colorStep, sizeStep, passProps.
  split; [destruct (transformStep _ _ _ _ _ _ _ _ _ _); [by right|by left]|].
  split.
  { destruct (geometryStep _ _ _ _ _ _ _ _ _ _); [|by left].
    case_bool_decide; [right; by left|right; by right]. }
  split.
  { destruct visual; [by left| |];
      (destruct (VisualUpdateState.updateSize _); [by right|by left]). }
  destruct (transformStep _ _ _ _ _ _ _ _ _ _),
    (geometryStep _ _ _ _ _ _ _ _ _ _);
    rewrite ?orb_true_r, ?orb_false_r; try (by left).
  destruct (VisualUpdateState.updateColor _); [by left|by right].
Qed.

(** The size theme of a created points visual goes from 1 to 2. *)
Lemma update_steps_in_order_witness :
  ∃ colors sizes geometries transforms,
    calls
      (update PointsVisual Example.builder Example.collaborators
         Example.biggerSize (Example.created PointsVisual)).1
    = colors ++ sizes ++ geometries ++ transforms
      ++ calls (Example.created PointsVisual).
Proof.
  destruct (update_steps_in_order PointsVisual Example.builder
    Example.collaborators Example.biggerSize
    (Example.createdObject PointsVisual) Example.props0 Example.groupG
    {| groupCount := 4; instanceCount := 2; cursor := 0 |}
    (Example.unitA 0 5) (Example.created PointsVisual)
    eq_refl eq_refl eq_refl eq_refl eq_refl)
    as (colors & sizes & geometries & transforms & H & _).
  exists colors, sizes, geometries, transforms. exact H.
Defined.

(** X10. The flags of one update pass do not reach into the next: a
    completed pass of a visual with a render object leaves the same state,
    flags included, whatever the flags were when it began. *)
Theorem update_flags_start_fresh visual B C props
    (us' : VisualUpdateState.t) (s : State) :
  is_Some (renderObject s) →
  (update visual B C props s).2 = Ok tt →
  update visual B C props (setUpdateFlags us' s) = update visual B C props s.
Proof.
  intros [ro Hro] Hok.
  destruct s as [ro' cp geo cg cs it cid us objs cl].
  cbn [renderObject] in Hro. subst.
  destruct cp; [|discriminate Hok].
  destruct cg as [g|]; [|discriminate Hok].
  destruct it; [|discriminate Hok].
  destruct (Unit.units g !! 0) as [u|] eqn:Hu.
  - unfold setUpdateFlags.
    cbn [renderObject currentProps geometry currentGroup
         currentStructure locationIt currentConformationId objects calls].
    rewrite (update_run _ _ _ _ _ _ _ _ _ _ _ us' _ _ _ Hu).
    rewrite (update_run _ _ _ _ _ _ _ _ _ _ _ us _ _ _ Hu).
    reflexivity.
  - revert Hok. run_steps. by rewrite Hu.
Qed.

(** A created visual with all four flags set beforehand. *)
Lemma update_flags_start_fresh_witness :
  updateState
    (update MeshVisual Example.builder Example.collaborators noProps
       (setUpdateFlags (VisualUpdateState.mk true true true true)
          (Example.created MeshVisual))).1
  = VisualUpdateState.create.
Proof.
  rewrite (update_flags_start_fresh MeshVisual Example.builder
    Example.collaborators noProps (VisualUpdateState.mk true true true true)
    (Example.created MeshVisual) (mk_is_Some _ _ eq_refl) eq_refl).
  vm_compute. reflexivity.
Defined.

(** ** The marker buffer *)

Lemma runMark_length C script action array :
  length (runMark C script action array).1 = length array.
Proof.
  revert array. induction script as [changed|interval k IH]; intros array.
  - reflexivity.
  - cbn [runMark]. unfold applyInterval.
    destruct (applyMarkerAction C array (Interval.start interval)
                (Interval.stop interval) action) as [array' r] eqn:Happly.
    rewrite IH.
    replace array' with (applyMarkerAction C array (Interval.start interval)
                           (Interval.stop interval) action).1
      by (by rewrite Happly).
    apply applyMarkerAction_length.
Qed.

Lemma markVisual_marker_length B C loci action s ro' :
  renderObject (markVisual B C loci action s).1 = Some ro' →
  ∃ ro, renderObject s = Some ro
    ∧ length (ValueCell.value (tMarker (values ro')))
      = length (ValueCell.value (tMarker (values ro))).
Proof.
  destruct s as [ro cp geo cg cs it cid us objs cl].
  destruct ro as [ro|]; [|done].
  destruct it as [it|]; [intros H|intros [= <-]; by eexists].
  exists ro. split; [done|]. revert H.
  run_steps. destruct (isEveryLoci (Some loci)); run_steps.
  - unfold applyInterval. cbn [Interval.start Interval.stop].
    pose proof (applyMarkerAction_length C
      (ValueCell.value (tMarker (values ro))) 0
      (groupCount it * instanceCount it) action) as Hlen.
    destruct (applyMarkerAction _ _ _ _ _) as [a []]; run_steps;
      intros [= <-]; exact Hlen.
  - destruct cg as [g|]; [|by intros [= <-]]. run_steps.
    pose proof (runMark_length C (mark B loci g) action
      (ValueCell.value (tMarker (values ro)))) as Hlen.
    destruct (runMark _ _ _ _) as [a []]; run_steps;
      intros [= <-]; exact Hlen.
Qed.

Lemma update_markerSized visual B C props s :
  markerSized s → markerSized (update visual B C props s).1.
Proof.
  intros Hs.
  destruct s as [ro cp geo cg cs it cid us objs cl].
  destruct ro as [ro|]; [|done].
  destruct cp as [cp|]; [|done].
  destruct cg as [g|]; [|done].
  destruct it as [it|]; [|done].
  specialize (Hs ro it eq_refl eq_refl).
  destruct (Unit.units g !! 0) as [u|] eqn:Hu.
  - rewrite (update_run _ _ _ _ _ _ _ _ _ _ _ _ _ _ _ Hu).
    intros ro' it' [= <-] [= <-].
    cbn [values passValues tMarker].
    unfold passIterator, passIterator1, passIterator0.
    destruct (transformStep _ _ _ _ _ _ _ _ _ _).
    + cbn [ValueCell.update ValueCell.value]. rewrite length_replicate.
      by repeat case_match.
    + rewrite Hs. by repeat case_match.
  - run_steps. rewrite Hu. intros ro' it' [= <-] [= <-]. exact Hs.
Qed.

Lemma create_markerSized visual B C g props s :
  markerSized s → markerSized (create visual B C g props s).1.
Proof.
  intros Hs. destruct (Unit.units g !! 0) as [u|] eqn:Hu.
  - rewrite (create_completes _ _ _ _ _ _ _ Hu). cbv zeta.
    intros ro' it' [= <-] [= <-].
    cbn [values createUnitsRenderObject tMarker ValueCell.create
         ValueCell.value].
    apply length_replicate.
  - rewrite (create_fields_without_units _ _ _ _ _ _ Hu).
    intros ro' it' Hro Hit. apply Hs; by destruct s.
Qed.

Lemma markerSized_fields s s' :
  renderObject s' = renderObject s →
  locationIt s' = locationIt s →
  markerSized s → markerSized s'.
Proof. unfold markerSized. intros -> ->. done. Qed.

(** In every state of a visual the marker buffer has one byte per slot of
    the location iterator. *)
Lemma reachable_markerSized visual B C s :
  reachable visual B C s → markerSized s.
Proof.
  induction 1 as [objs|s props sg _ IH|s loci action _ IH|s _ IH|s objs _ IH].
  - by intros ro it [=].
  - destruct sg as [[st g0]|].
    + rewrite createOrUpdate_with_group. cbv zeta.
      assert (markerSized (setCurrentStructure (Some st) s)) as Hst
        by (by apply (markerSized_fields s); destruct s).
      destruct (currentGroup s) as [cur|] eqn:Hcur;
        [|by apply create_markerSized].
      destruct (renderObject s) as [ro|] eqn:Hro;
        [|by apply create_markerSized].
      case_bool_decide; [|by apply create_markerSized].
      destruct (sameGroupConformation g0 cur) as [[]|].
      * by apply update_markerSized.
      * apply update_markerSized.
        by apply (markerSized_fields s); destruct s.
      * done.
    + rewrite createOrUpdate_without_group.
      destruct (currentGroup s); [by apply update_markerSized|exact IH].
  - intros ro' it Hro' Hit.
    destruct (markVisual_marker_length _ _ _ _ _ _ Hro') as (ro & Hro & ->).
    destruct (markVisual_fields B C loci action s) as (_ & _ & _ & Hit' & _).
    rewrite Hit' in Hit. by apply IH.
  - destruct s. by intros ro it [=].
  - by apply (markerSized_fields s); destruct s.
Qed.

(** [mark] with the every-loci sentinel, run. *)
Lemma markVisual_every B C action ro it s :
  renderObject s = Some ro →
  locationIt s = Some it →
  markVisual B C EveryLoci action s =
    let marker := tMarker (values ro) in
    let r := applyMarkerAction C (ValueCell.value marker) 0
               (groupCount it * instanceCount it) action in
    (setRenderObject
       (Some {| values :=
                  setTMarker
                    (ValueCell.mk r.1
                       (if r.2 then S (ValueCell.version marker)
                        else ValueCell.version marker))
                    (values ro);
                state := state ro |}) s, Ok r.2).
Proof.
  intros Hro Hit.
  destruct s as [ro0 cp geo cg cs it0 cid us objs cl].
  cbn [renderObject locationIt] in Hro, Hit. simplify_eq.
  unfold markVisual. run_steps.
  change (isEveryLoci (Some EveryLoci)) with true. cbv iota.
  unfold applyInterval. cbn [Interval.start Interval.stop].
  by destruct (applyMarkerAction _ _ _ _ _) as [a []].
Qed.

Lemma applyMarkerAction_whole C array stop action :
  length array ≤ stop →
  applyMarkerAction C array 0 stop action
  = (markerByte C action <$> array,
     negb (bool_decide (markerByte C action <$> array = array))).
Proof.
  intros Hlen.
  assert ((applyMarkerAction C array 0 stop action).1
          = markerByte C action <$> array) as Harr.
  { apply list_eq. intros i. rewrite applyMarkerAction_lookup, list_lookup_fmap.
    destruct (array !! i) as [b|] eqn:Hb; [|by case_bool_decide].
    apply lookup_lt_Some in Hb.
    rewrite bool_decide_eq_true_2; [done|]. lia. }
  pose proof (applyMarkerAction_changed C array 0 stop action) as Hc.
  destruct (applyMarkerAction C array 0 stop action) as [array' changed].
  cbn [fst snd] in Harr, Hc. by subst.
Qed.

(** X11. In every state a visual reaches, the marker buffer of its render
    object has exactly [instanceCount * groupCount] bytes of the current
    iterator; marking with the every-loci sentinel therefore applies the
    action to every byte of the buffer, and returns whether that changed the
    buffer. *)
Theorem mark_every_covers_marker_buffer visual B C action
    (ro : RenderObject) (s : State) :
  reachable visual B C s →
  renderObject s = Some ro →
  let array := ValueCell.value (tMarker (values ro)) in
  ∃ it,
    locationIt s = Some it
    ∧ length array = instanceCount it * groupCount it
    ∧ ∃ ro',
        (markVisual B C EveryLoci action s).2
          = Ok (negb (bool_decide (markerByte C action <$> array = array)))
        ∧ renderObject (markVisual B C EveryLoci action s).1 = Some ro'
        ∧ ValueCell.value (tMarker (values ro')) = markerByte C action <$> array.
Proof.
  intros Hreach Hro array.
  pose proof (reachable_markerSized _ _ _ _ Hreach) as Hsized.
  destruct (reachable_consistent _ _ _ _ Hreach) as [Heq _].
  destruct (Heq ltac:(by eexists)) as (_ & _ & [it Hit]).
  exists it. split; [exact Hit|].
  specialize (Hsized ro it Hro Hit). split; [exact Hsized|].
  rewrite (markVisual_every _ _ _ _ _ _ Hro Hit). cbv zeta.
  fold array. rewrite applyMarkerAction_whole by (fold array in Hsized; lia).
  cbn [fst snd setRenderObject renderObject].
  eexists. split; [reflexivity|]. split; [reflexivity|]. reflexivity.
Qed.

(** Selecting everything in a created visual of two units of four groups. *)
Lemma mark_every_covers_marker_buffer_witness :
  ∃ it, locationIt (Example.created MeshVisual) = Some it
    ∧ length (ValueCell.value
                (tMarker (values (Example.createdObject MeshVisual))))
      = instanceCount it * groupCount it.
Proof.
  destruct (mark_every_covers_marker_buffer MeshVisual Example.builder
    Example.collaborators Select (Example.createdObject MeshVisual)
    (Example.created MeshVisual)
    (reachable_createOrUpdate _ _ _ _ noProps (Example.sg Example.groupG)
       (reachable_initial _ _ _ Example.objects0))
    eq_refl) as (it & Hit & Hlen & _).
  exists it. split; [exact Hit|exact Hlen].
Defined.

Lemma applyMarkerAction_again C array start stop action :
  (∀ b, markerByte C action (markerByte C action b) = markerByte C action b) →
  applyMarkerAction C (applyMarkerAction C array start stop action).1
    start stop action
  = ((applyMarkerAction C array start stop action).1, false).
Proof.
  intros Hidem.
  assert ((applyMarkerAction C (applyMarkerAction C array start stop action).1
             start stop action).1
          = (applyMarkerAction C array start stop action).1) as Harr.
  { apply list_eq. intros i. rewrite !applyMarkerAction_lookup.
    case_bool_decide; [|done].
    destruct (array !! i); cbn; by rewrite ?Hidem. }
  pose proof (applyMarkerAction_changed C
    (applyMarkerAction C array start stop action).1 start stop action) as Hc.
  rewrite Harr in Hc.
  rewrite (bool_decide_eq_true_2 _ eq_refl) in Hc.
  destruct (applyMarkerAction C (applyMarkerAction C array start stop action).1
              start stop action) as [a c].
  cbn [fst snd] in Harr, Hc. by subst.
Qed.

(** X12. With an action that settles a byte in one step, marking everything
    a second time changes nothing: the call returns false and leaves the
    visual, the version of the marker cell included, as the first call left
    it. *)
Theorem mark_every_again_changes_nothing B C action (changed : bool)
    (s : State) :
  (∀ b, markerByte C action (markerByte C action b) = markerByte C action b) →
  (markVisual B C EveryLoci action s).2 = Ok changed →
  let s1 := (markVisual B C EveryLoci action s).1 in
  markVisual B C EveryLoci action s1 = (s1, Ok false).
Proof.
  intros Hidem Hok s1. subst s1.
  destruct (renderObject s) as [ro|] eqn:Hro;
    [|by destruct s; cbn in Hro; subst].
  destruct (locationIt s) as [it|] eqn:Hit;
    [|by destruct s; cbn in Hro, Hit; subst].
  rewrite (markVisual_every _ _ _ _ _ _ Hro Hit). cbv zeta. cbn [fst].
  erewrite markVisual_every; [|by destruct s|by destruct s].
  cbv zeta. cbn [values tMarker setTMarker ValueCell.value ValueCell.version].
  rewrite (applyMarkerAction_again _ _ _ _ _ Hidem). cbn [fst snd].
  by destruct s.
Qed.

(** Highlighting everything in a created visual, twice. *)
Lemma mark_every_again_changes_nothing_witness :
  (markVisual Example.builder Example.collaborators EveryLoci Highlight
     (markVisual Example.builder Example.collaborators EveryLoci Highlight
        (Example.created MeshVisual)).1).2 = Ok false.
Proof.
  rewrite (mark_every_again_changes_nothing Example.builder
    Example.collaborators Highlight true (Example.created MeshVisual)
    (markerByteOf_settles Highlight) eq_refl).
  reflexivity.
Defined.

(** ** Picking *)

(** X13. In every state a visual reaches, [getLoci] completes and leaves the
    visual as it is: without a render object it returns the empty loci
    without a call of the builder, with one it returns what the builder makes
    of the picking id, the current group and the id of the render object.
    The group is the current group also after a [createOrUpdate] that was
    handed another group of the same hash code and conformation: picks are
    then still resolved against the group the visual kept. *)
Theorem getLoci_reads_current_group visual B C
    (builderGetLoci : PickingId → Unit.SymmetryGroup → nat → Loci)
    (id : nat) (pickingId : PickingId) (s : State) :
  reachable visual B C s →
  (renderObject s = None →
   getLoci builderGetLoci id pickingId s = (s, Ok EmptyLoci))
  ∧ (is_Some (renderObject s) →
     ∃ g, currentGroup s = Some g
       ∧ getLoci builderGetLoci id pickingId s
         = (s, Ok (builderGetLoci pickingId g id)))
  ∧ (∀ props st g cur,
       is_Some (renderObject s) →
       currentGroup s = Some cur →
       Unit.hashCode g = Unit.hashCode cur →
       sameGroupConformation g cur = Ok true →
       let s1 := (createOrUpdate visual B C props
                    (Some {| structure := st; group := g |}) s).1 in
       getLoci builderGetLoci id pickingId s1
       = (s1, Ok (builderGetLoci pickingId cur id))).
Proof.
  intros Hreach.
  assert (∀ s', is_Some (renderObject s') → ∀ g, currentGroup s' = Some g →
            getLoci builderGetLoci id pickingId s'
            = (s', Ok (builderGetLoci pickingId g id))) as Hget.
  { intros s' [ro Hro] g Hg. unfold getLoci.
    cbv [mbind M_bind get mret M_ret defined]. by rewrite Hro, Hg. }
  split; [|split].
  - intros Hro. unfold getLoci. cbv [mbind M_bind get mret M_ret].
    by rewrite Hro.
  - intros Hro.
    destruct (reachable_consistent _ _ _ _ Hreach) as [Heq _].
    destruct (Heq Hro) as (_ & [g Hg] & _).
    exists g. split; [exact Hg|]. by apply Hget.
  - intros props st g cur Hro Hcur Hhash Hsame s1. subst s1.
    rewrite createOrUpdate_with_group. cbv zeta.
    destruct Hro as [ro Hro].
    rewrite Hcur, Hro, (bool_decide_eq_true_2 _ Hhash), Hsame.
    apply Hget.
    + apply update_renderObject. destruct s. by eexists.
    + rewrite update_currentGroup. by destruct s.
Qed.

(** A pick in a visual that was created with [groupG] and then handed
    [groupH], for a builder that answers with the second unit of the group. *)
Lemma getLoci_reads_current_group_witness :
  (getLoci (λ _ g _, ElementLoci ((λ u, (Unit.unitId u, [])) <$>
                                  drop 1 (Unit.units g)))
     7 {| objectId := 7; instanceId := 1; groupId := 0 |}
     (createOrUpdate MeshVisual Example.builder Example.collaborators noProps
        (Example.sg Example.groupH) (Example.created MeshVisual)).1).2
  = Ok (ElementLoci [(1, [])]).
Proof.
  pose proof (getLoci_reads_current_group MeshVisual
    Example.builder Example.collaborators
    (λ _ g _, ElementLoci ((λ u, (Unit.unitId u, [])) <$>
                           drop 1 (Unit.units g)))
    7 {| objectId := 7; instanceId := 1; groupId := 0 |}
    (Example.created MeshVisual)
    (reachable_createOrUpdate _ _ _ _ noProps (Example.sg Example.groupG)
       (reachable_initial _ _ _ Example.objects0))) as (_ & _ & H).
  etrans;
    [exact (f_equal snd
              (H noProps Example.structure0 Example.groupH Example.groupG
                 (mk_is_Some _ _ eq_refl) eq_refl eq_refl eq_refl))|].
  reflexivity.
Defined.

(** ** A group without units *)

Lemma update_without_units visual B C props ro g s :
  renderObject s = Some ro →
  currentGroup s = Some g →
  Unit.units g !! 0 = None →
  (update visual B C props s).2 = Throw TypeError
  ∧ renderObject (update visual B C props s).1 = renderObject s
  ∧ geometry (update visual B C props s).1 = geometry s
  ∧ calls (update visual B C props s).1 = calls s.
Proof.
  intros Hro Hcur Hu.
  destruct s as [ro' cp geo cg cs it cid us objs cl].
  cbn [renderObject currentGroup] in Hro, Hcur. simplify_eq.
  destruct cp; [|done].
  destruct it; [|done].
  run_steps. by rewrite Hu.
Qed.

(** X14. A [createOrUpdate] with a group that has no units fails, on every
    path, with the error of reading the first unit, not with the
    missing-group error; it builds and calls nothing and leaves the render
    object and the geometry of the visual as they were. *)
Theorem createOrUpdate_empty_group visual B C props st
    (g : Unit.SymmetryGroup) (s : State) :
  Unit.units g = [] →
  let r := createOrUpdate visual B C props
             (Some {| structure := st; group := g |}) s in
  r.2 = Throw TypeError
  ∧ renderObject r.1 = renderObject s
  ∧ geometry r.1 = geometry s
  ∧ calls r.1 = calls s.
Proof.
  intros Hnil r. subst r.
  assert (Unit.units g !! 0 = None) as Hu by (by rewrite Hnil).
  rewrite createOrUpdate_with_group. cbv zeta.
  assert (∀ s', renderObject s' = renderObject s → geometry s' = geometry s →
            calls s' = calls s →
            (create visual B C g props s').2 = Throw TypeError
            ∧ renderObject (create visual B C g props s').1 = renderObject s
            ∧ geometry (create visual B C g props s').1 = geometry s
            ∧ calls (create visual B C g props s').1 = calls s) as Hcreate.
  { intros s' H1 H2 H3.
    rewrite (create_fields_without_units _ _ _ _ _ _ Hu).
    by destruct s'. }
  destruct (currentGroup s) as [cur|] eqn:Hcur;
    [|by apply Hcreate; destruct s].
  destruct (renderObject s) as [ro|] eqn:Hro in |- *;
    [|rewrite <- Hro; by apply Hcreate; destruct s].
  case_bool_decide; [|rewrite <- Hro; by apply Hcreate; destruct s].
  unfold sameGroupConformation. rewrite Hu, Hnil.
  case_bool_decide as Hlen.
  - cbn [fst snd]. by destruct s.
  - destruct (update_without_units visual B C props ro g
                (setCurrentGroup (Some g) (setCurrentStructure (Some st) s)))
      as (-> & -> & -> & ->); [by destruct s; simplify_eq/=|by destruct s|done|].
    by destruct s; simplify_eq/=.
Qed.

(** A created visual is handed a group of its hash code without units. *)
Lemma createOrUpdate_empty_group_witness :
  (createOrUpdate MeshVisual Example.builder Example.collaborators noProps
     (Example.sg {| Unit.units := []; Unit.hashCode := 11 |})
     (Example.created MeshVisual)).2 = Throw TypeError.
Proof.
  exact (proj1 (createOrUpdate_empty_group MeshVisual Example.builder
    Example.collaborators noProps Example.structure0
    {| Unit.units := []; Unit.hashCode := 11 |} (Example.created MeshVisual)
    eq_refl)).
Defined.

(** * The Gaussian density point visual *)

(** ** The points of the density *)

Lemma fmap_bind_list {A B D} (h : B → D) (f : A → list B) (l : list A) :
  h <$> (l ≫= f) = l ≫= λ x, h <$> f x.
Proof.
  induction l as [|x l IH]; [done|].
  by rewrite !bind_cons, fmap_app, IH.
Qed.

Lemma length_bind_seq {B} (f : nat → list B) (m a len : nat) :
  (∀ k, length (f k) ≤ m) → length (seq a len ≫= f) ≤ len * m.
Proof.
  intros Hf. revert a. induction len as [|len IH]; intros a; [done|].
  cbn [seq]. rewrite bind_cons, length_app.
  specialize (IH (S a)). specialize (Hf a). lia.
Qed.

(** Blocks of increasing numbers, each within its own range, make an
    increasing list. *)
Lemma sorted_bind_seq (f : nat → list nat) (lo : nat → nat) (a len : nat) :
  (∀ k, lo k ≤ lo (S k)) →
  (∀ k, StronglySorted lt (f k)) →
  (∀ k g, a ≤ k < a + len → g ∈ f k → lo k ≤ g < lo (S k)) →
  StronglySorted lt (seq a len ≫= f).
Proof.
  intros Hlo Hsorted. revert a.
  assert (∀ j k, j ≤ k → lo j ≤ lo k) as Hmono.
  { intros j k Hjk. induction Hjk as [|k _ IH]; [done|].
    specialize (Hlo k). lia. }
  induction len as [|len IH]; intros a Hrange.
  - constructor.
  - cbn [seq]. rewrite bind_cons. apply StronglySorted_app_2.
    + intros x1 x2 Hx1 Hx2.
      apply list_elem_of_bind in Hx2 as (k & Hx2 & Hk).
      apply elem_of_seq in Hk.
      apply Hrange in Hx1; [|lia]. apply Hrange in Hx2; [|lia].
      pose proof (Hmono (S a) k ltac:(lia)). lia.
    + apply Hsorted.
    + apply IH. intros k g Hk. apply Hrange. lia.
Qed.

Lemma linear_index_lt (xn yn zn x y z : nat) :
  x < xn → y < yn → z < zn → (x * yn + y) * zn + z < xn * yn * zn.
Proof.
  intros Hx Hy Hz.
  assert (x * yn + y + 1 ≤ xn * yn) as H1 by nia.
  assert ((x * yn + y + 1) * zn ≤ xn * yn * zn) as H2
    by (by apply Nat.mul_le_mono_r).
  lia.
Qed.

Section GaussianLoop.

Context {Vec3 : Type} (xn yn zn : nat)
  (exceeds : nat → nat → nat → bool)
  (transformed : nat → nat → nat → Vec3)
  (shouldUpdate : nat → bool).

Local Abbreviation body :=
  (GaussianDensityPoint.body (xn, yn, zn) exceeds transformed shouldUpdate).
Local Abbreviation pointAt :=
  (GaussianDensityPoint.pointAt exceeds transformed).
Local Abbreviation reportAt :=
  (GaussianDensityPoint.reportAt (xn, yn, zn) shouldUpdate).

Lemma body_run x y z l :
  body x y z l =
    {| GaussianDensityPoint.i := S (GaussianDensityPoint.i l);
       GaussianDensityPoint.added :=
         GaussianDensityPoint.added l ++ pointAt x y z (GaussianDensityPoint.i l);
       GaussianDensityPoint.updates :=
         GaussianDensityPoint.updates l ++ reportAt (GaussianDensityPoint.i l) |}.
Proof.
  unfold GaussianDensityPoint.body, GaussianDensityPoint.pointAt,
    GaussianDensityPoint.reportAt.
  destruct (exceeds x y z); cbn [GaussianDensityPoint.i];
    destruct (bool_decide _ && shouldUpdate _);
    cbn [GaussianDensityPoint.i GaussianDensityPoint.added
         GaussianDensityPoint.updates];
    by rewrite ?app_nil_r.
Qed.

(** The innermost loop, from the cell [z = a] on, with the counter at
    [c + a]. *)
Lemma loop_z c x y a len l :
  GaussianDensityPoint.i l = c + a →
  foldl (λ l z, body x y z l) l (seq a len) =
    {| GaussianDensityPoint.i := c + a + len;
       GaussianDensityPoint.added :=
         GaussianDensityPoint.added l
         ++ (seq a len ≫= λ z, pointAt x y z (c + z));
       GaussianDensityPoint.updates :=
         GaussianDensityPoint.updates l
         ++ (seq a len ≫= λ z, reportAt (c + z)) |}.
Proof.
  revert a l. induction len as [|len IH]; intros a l Hi.
  - cbn [seq foldl mbind list_bind]. rewrite !app_nil_r, Nat.add_0_r, <- Hi.
    by destruct l.
  - cbn [seq foldl]. rewrite body_run, (IH (S a)).
    + cbn [GaussianDensityPoint.added GaussianDensityPoint.updates].
      rewrite !bind_cons, !(assoc (++)), Hi. f_equal. lia.
    + cbn [GaussianDensityPoint.i]. lia.
Qed.

Lemma loop_y c x a len l :
  GaussianDensityPoint.i l = c + a * zn →
  foldl (λ l y, foldl (λ l z, body x y z l) l (seq 0 zn)) l (seq a len) =
    {| GaussianDensityPoint.i := c + (a + len) * zn;
       GaussianDensityPoint.added :=
         GaussianDensityPoint.added l
         ++ (seq a len ≫= λ y, seq 0 zn ≫= λ z, pointAt x y z (c + y * zn + z));
       GaussianDensityPoint.updates :=
         GaussianDensityPoint.updates l
         ++ (seq a len ≫= λ y, seq 0 zn ≫= λ z, reportAt (c + y * zn + z)) |}.
Proof.
  revert a l. induction len as [|len IH]; intros a l Hi.
  - cbn [seq foldl mbind list_bind]. rewrite !app_nil_r, Nat.add_0_r, <- Hi.
    by destruct l.
  - cbn [seq foldl].
    rewrite (loop_z (c + a * zn) x a 0 zn l) by lia.
    rewrite (IH (S a)).
    + cbn [GaussianDensityPoint.added GaussianDensityPoint.updates].
      rewrite !bind_cons, !(assoc (++)). f_equal. lia.
    + cbn [GaussianDensityPoint.i]. lia.
Qed.

Lemma loop_x a len l :
  GaussianDensityPoint.i l = a * (yn * zn) →
  foldl (λ l x,
    foldl (λ l y,
      foldl (λ l z, body x y z l) l (seq 0 zn)) l (seq 0 yn)) l (seq a len) =
    {| GaussianDensityPoint.i := (a + len) * (yn * zn);
       GaussianDensityPoint.added :=
         GaussianDensityPoint.added l
         ++ (seq a len ≫= λ x, seq 0 yn ≫= λ y, seq 0 zn ≫= λ z,
               pointAt x y z ((x * yn + y) * zn + z));
       GaussianDensityPoint.updates :=
         GaussianDensityPoint.updates l
         ++ (seq a len ≫= λ x, seq 0 yn ≫= λ y, seq 0 zn ≫= λ z,
               reportAt ((x * yn + y) * zn + z)) |}.
Proof.
  revert a l. induction len as [|len IH]; intros a l Hi.
  - cbn [seq foldl mbind list_bind]. rewrite !app_nil_r, Nat.add_0_r, <- Hi.
    by destruct l.
  - cbn [seq foldl].
    rewrite (loop_y (a * (yn * zn)) a 0 yn l) by lia.
    assert (∀ y z, a * (yn * zn) + y * zn + z = (a * yn + y) * zn + z)
      as Hlin by lia.
    rewrite (list_bind_ext
               (λ y, seq 0 zn ≫= λ z, pointAt a y z (a * (yn * zn) + y * zn + z))
               (λ y, seq 0 zn ≫= λ z, pointAt a y z ((a * yn + y) * zn + z))
               (seq 0 yn) (seq 0 yn))
      by first [done|intros y; apply list_bind_ext; [|done]; intros z;
                     by rewrite Hlin].
    rewrite (list_bind_ext
               (λ y, seq 0 zn ≫= λ z, reportAt (a * (yn * zn) + y * zn + z))
               (λ y, seq 0 zn ≫= λ z, reportAt ((a * yn + y) * zn + z))
               (seq 0 yn) (seq 0 yn))
      by first [done|intros y; apply list_bind_ext; [|done]; intros z;
                     by rewrite Hlin].
    rewrite (IH (S a)).
    + cbn [GaussianDensityPoint.added GaussianDensityPoint.updates].
      rewrite !bind_cons, !(assoc (++)). f_equal. lia.
    + cbn [GaussianDensityPoint.i]. lia.
Qed.

(** The three loops in closed form: the cells in the order of the loops,
    each with the counter at its linear index. *)
Lemma loop_run :
  GaussianDensityPoint.loop (xn, yn, zn) exceeds transformed shouldUpdate =
    {| GaussianDensityPoint.i := xn * yn * zn;
       GaussianDensityPoint.added :=
         seq 0 xn ≫= λ x, seq 0 yn ≫= λ y, seq 0 zn ≫= λ z,
           pointAt x y z ((x * yn + y) * zn + z);
       GaussianDensityPoint.updates :=
         seq 0 xn ≫= λ x, seq 0 yn ≫= λ y, seq 0 zn ≫= λ z,
           reportAt ((x * yn + y) * zn + z) |}.
Proof.
  unfold GaussianDensityPoint.loop. rewrite (loop_x 0 xn) by (cbn; lia).
  cbn [GaussianDensityPoint.added GaussianDensityPoint.updates app].
  f_equal. lia.
Qed.

End GaussianLoop.

Section GaussianPoints.

Context {Vec3 : Type} (xn yn zn : nat)
  (exceeds : nat → nat → nat → bool)
  (transformed : nat → nat → nat → Vec3)
  (shouldUpdate : nat → bool).

Local Abbreviation pointAt :=
  (GaussianDensityPoint.pointAt exceeds transformed).

Lemma pointAt_group x y z k :
  (pointAt x y z k).*2 = if exceeds x y z then [k] else [].
Proof. unfold GaussianDensityPoint.pointAt. by destruct (exceeds x y z). Qed.

Lemma createGaussianDensityPoint_run :
  GaussianDensityPoint.createGaussianDensityPoint (xn, yn, zn) exceeds
    transformed shouldUpdate
  = seq 0 xn ≫= λ x, seq 0 yn ≫= λ y, seq 0 zn ≫= λ z,
      pointAt x y z ((x * yn + y) * zn + z).
Proof.
  unfold GaussianDensityPoint.createGaussianDensityPoint.
  by rewrite loop_run.
Qed.

(** X15. The points of [createGaussianDensityPoint] are the cells of the
    density grid above the threshold, each once: a point is added for the
    cell [(x, y, z)] exactly when the cell lies in the grid and exceeds the
    threshold, it is the transformed grid point, and its group is the linear
    index [(x * yn + y) * zn + z] of the cell, whether or not a point was
    added for the cells before it.  The groups come in increasing order, so
    no two points share one, there are at most [xn * yn * zn] points, and the
    progress reporting has no influence on them. *)
Theorem createGaussianDensityPoint_groups :
  let points :=
    GaussianDensityPoint.createGaussianDensityPoint (xn, yn, zn) exceeds
      transformed shouldUpdate in
  (∀ p k, (p, k) ∈ points ↔
     ∃ x y z, x < xn ∧ y < yn ∧ z < zn ∧ exceeds x y z = true
       ∧ p = transformed x y z ∧ k = (x * yn + y) * zn + z)
  ∧ StronglySorted lt points.*2
  ∧ length points ≤ xn * yn * zn
  ∧ ∀ shouldUpdate',
      GaussianDensityPoint.createGaussianDensityPoint (xn, yn, zn) exceeds
        transformed shouldUpdate' = points.
Proof.
  intros points. subst points. rewrite createGaussianDensityPoint_run.
  split; [|split; [|split]].
  - intros p k. rewrite list_elem_of_bind. split.
    + intros (x & Hin & Hx%elem_of_seq).
      apply list_elem_of_bind in Hin as (y & Hin & Hy%elem_of_seq).
      apply list_elem_of_bind in Hin as (z & Hin & Hz%elem_of_seq).
      unfold GaussianDensityPoint.pointAt in Hin.
      destruct (exceeds x y z) eqn:He; [|by apply elem_of_nil in Hin].
      apply list_elem_of_singleton in Hin as [= -> ->].
      exists x, y, z. repeat split; (lia || done).
    + intros (x & y & z & Hx & Hy & Hz & He & -> & ->).
      exists x. split; [|apply elem_of_seq; lia].
      apply list_elem_of_bind. exists y. split; [|apply elem_of_seq; lia].
      apply list_elem_of_bind. exists z. split; [|apply elem_of_seq; lia].
      unfold GaussianDensityPoint.pointAt. rewrite He.
      apply list_elem_of_here.
  - rewrite fmap_bind_list.
    apply (sorted_bind_seq _ (λ x, x * yn * zn)); [intros k; lia| |].
    + intros x. rewrite fmap_bind_list.
      apply (sorted_bind_seq _ (λ y, (x * yn + y) * zn)); [intros k; lia| |].
      * intros y. rewrite fmap_bind_list.
        apply (sorted_bind_seq _ (λ z, (x * yn + y) * zn + z));
          [intros k; lia| |].
        -- intros z. rewrite pointAt_group.
           destruct (exceeds x y z); repeat constructor.
        -- intros z g _. rewrite pointAt_group.
           destruct (exceeds x y z); [|by intros ?%elem_of_nil].
           intros ->%list_elem_of_singleton. lia.
      * intros y g _. rewrite fmap_bind_list.
        intros (z & Hin & Hz%elem_of_seq)%list_elem_of_bind.
        rewrite pointAt_group in Hin.
        destruct (exceeds x y z); [|by apply elem_of_nil in Hin].
        apply list_elem_of_singleton in Hin as ->. lia.
    + intros x g _. rewrite fmap_bind_list.
      intros (y & Hin & Hy%elem_of_seq)%list_elem_of_bind.
      rewrite fmap_bind_list in Hin.
      apply list_elem_of_bind in Hin as (z & Hin & Hz%elem_of_seq).
      rewrite pointAt_group in Hin.
      destruct (exceeds x y z); [|by apply elem_of_nil in Hin].
      apply list_elem_of_singleton in Hin as ->. nia.
  - etrans; [apply (length_bind_seq _ (yn * zn))|lia].
    intros x. etrans; [apply (length_bind_seq _ zn)|lia].
    intros y. etrans; [apply (length_bind_seq _ 1)|lia].
    intros z. unfold GaussianDensityPoint.pointAt.
    by destruct (exceeds x y z); cbn; lia.
  - intros shouldUpdate'.
    unfold GaussianDensityPoint.createGaussianDensityPoint.
    by rewrite loop_run.
Qed.

(** X16. The loop of [createGaussianDensityPoint] runs its body once per
    cell of the grid.  A progress report is made exactly at the counter
    values below [xn * yn * zn] that are multiples of 100000 and at which the
    context asks for an update; every report names, as its maximum, three
    times the number of cells, so that the reported progress stays below one
    third of it. *)
Theorem createGaussianDensityPoint_progress :
  let l := GaussianDensityPoint.loop (xn, yn, zn) exceeds transformed
             shouldUpdate in
  GaussianDensityPoint.i l = xn * yn * zn
  ∧ (∀ u, u ∈ GaussianDensityPoint.updates l →
       GaussianDensityPoint.max u = xn * yn * zn * 3
       ∧ (N.of_nat (GaussianDensityPoint.current u)
          mod GaussianDensityPoint.every = 0)%N
       ∧ shouldUpdate (GaussianDensityPoint.current u) = true
       ∧ GaussianDensityPoint.current u < xn * yn * zn
       ∧ 3 * GaussianDensityPoint.current u < GaussianDensityPoint.max u)
  ∧ (∀ k, k < xn * yn * zn →
       (N.of_nat k mod GaussianDensityPoint.every = 0)%N →
       shouldUpdate k = true →
       {| GaussianDensityPoint.current := k;
          GaussianDensityPoint.max := xn * yn * zn * 3 |}
       ∈ GaussianDensityPoint.updates l).
Proof.
  intros l. subst l. rewrite loop_run.
  cbn [GaussianDensityPoint.i GaussianDensityPoint.updates].
  split; [done|]. split.
  - intros u (x & Hin & Hx%elem_of_seq)%list_elem_of_bind.
    apply list_elem_of_bind in Hin as (y & Hin & Hy%elem_of_seq).
    apply list_elem_of_bind in Hin as (z & Hin & Hz%elem_of_seq).
    pose proof (linear_index_lt xn yn zn x y z ltac:(lia) ltac:(lia)
                  ltac:(lia)) as Hlt.
    unfold GaussianDensityPoint.reportAt in Hin.
    destruct (bool_decide _ && shouldUpdate _) eqn:Hc;
      [|by apply elem_of_nil in Hin].
    apply list_elem_of_singleton in Hin as ->.
    apply andb_true_iff in Hc as [Hmod%bool_decide_eq_true_1 Hsu].
    cbn [GaussianDensityPoint.current GaussianDensityPoint.max
         GaussianDensityPoint.n].
    split; [reflexivity|]. split; [exact Hmod|]. split; [exact Hsu|].
    clear Hmod Hsu. lia.
  - intros k Hk Hmod Hsu.
    assert (0 < zn ∧ 0 < yn) as [Hzn Hyn] by (clear Hmod Hsu; nia).
    assert ((k / zn / yn * yn + k / zn mod yn) * zn + k mod zn = k) as Hlin.
    { clear Hmod Hsu.
      pose proof (Nat.div_mod_eq (k / zn) yn).
      pose proof (Nat.div_mod_eq k zn). nia. }
    assert (k / zn / yn < xn) as Hx.
    { clear Hmod Hsu Hlin.
      apply Nat.Div0.div_lt_upper_bound.
      apply Nat.Div0.div_lt_upper_bound. nia. }
    assert (k / zn mod yn < yn) as Hy
      by (apply Nat.mod_upper_bound; clear Hmod Hsu Hlin; lia).
    assert (k mod zn < zn) as Hz
      by (apply Nat.mod_upper_bound; clear Hmod Hsu Hlin; lia).
    apply list_elem_of_bind. exists (k / zn / yn).
    split; [|apply elem_of_seq; clear Hmod Hsu Hlin; lia].
    apply list_elem_of_bind. exists (k / zn mod yn).
    split; [|apply elem_of_seq; clear Hmod Hsu Hlin; lia].
    apply list_elem_of_bind. exists (k mod zn).
    split; [|apply elem_of_seq; clear Hmod Hsu Hlin; lia].
    unfold GaussianDensityPoint.reportAt. rewrite Hlin.
    rewrite (bool_decide_eq_true_2 _ Hmod), Hsu.
    apply list_elem_of_here.
Qed.

End GaussianPoints.

(** A density of two by two by three cells, dense where the sum of the
    coordinates is odd: six points, with the groups 1, 3, 4, 6, 8 and 10, and
    one progress report, at the first cell. *)
Lemma createGaussianDensityPoint_example :
  GaussianDensityPoint.createGaussianDensityPoint (2, 2, 3)
    GaussianExample.exceeds (λ x y z, (x, y, z)) (λ _, true)
  = [((0, 0, 1), 1); ((0, 1, 0), 3); ((0, 1, 2), 5);
     ((1, 0, 0), 6); ((1, 0, 2), 8); ((1, 1, 1), 10)]
  ∧ GaussianDensityPoint.updates
      (GaussianDensityPoint.loop (2, 2, 3) GaussianExample.exceeds
         (λ x y z, (x, y, z)) (λ _, true))
    = [{| GaussianDensityPoint.current := 0;
          GaussianDensityPoint.max := 36 |}].
Proof. split; vm_compute; reflexivity. Qed.

(** ** The builder of the visual *)

Section GaussianVisual.

Context (defaultProps : Props)
  (createPoints : Unit.t → option Structure → Props → option Geometry → Geometry)
  (fromGroup : Unit.SymmetryGroup → LocationIterator)
  (C : Collaborators).

Local Abbreviation B :=
  (GaussianDensityPoint.GaussianDensityPointVisual defaultProps createPoints
     fromGroup).

(** The hook sets the geometry flag when one of the three props differs, and
    does nothing else. *)
Lemma gaussian_setUpdateState st newProps currentProps :
  setUpdateState B st newProps currentProps
  = VisualUpdateState.setCreateGeometry
      (VisualUpdateState.createGeometry st
       || GaussianDensityPoint.densityPropsDiffer newProps currentProps) st.
Proof.
  unfold GaussianDensityPoint.densityPropsDiffer.
  cbn [setUpdateState GaussianDensityPoint.GaussianDensityPointVisual].
  destruct st as [t c z g].
  destruct (GaussianDensityPoint.differ "resolutionFactor" _ _),
    (GaussianDensityPoint.differ "radiusOffset" _ _),
    (GaussianDensityPoint.differ "smoothness" _ _);
    cbv [VisualUpdateState.setCreateGeometry VisualUpdateState.updateTransform
         VisualUpdateState.updateColor VisualUpdateState.updateSize
         VisualUpdateState.createGeometry];
    by rewrite ?orb_true_r, ?orb_false_r.
Qed.

(** X17. An update pass of the Gaussian density point visual completes, and
    ends with the geometry flag set exactly when the resolution factor, the
    radius offset or the smoothness of the merged props differ from the
    current ones, or the conformation or the unit kinds changed; a changed
    size theme sets the size flag and not the geometry flag, and no other
    prop sets a flag.  A pass that ends without the geometry flag leaves the
    points and the draw count as they were. *)
Theorem gaussian_update_flags props
    (ro : RenderObject) (cp : Props) (g : Unit.SymmetryGroup)
    (it : LocationIterator) (u : Unit.t) (s : State) :
  renderObject s = Some ro →
  currentProps s = Some cp →
  currentGroup s = Some g →
  locationIt s = Some it →
  Unit.units g !! 0 = Some u →
  let r := update PointsVisual B C props s in
  let flags := updateState r.1 in
  r.2 = Ok tt
  ∧ VisualUpdateState.createGeometry flags
    = (GaussianDensityPoint.densityPropsDiffer (assign cp props) cp
       || negb (bool_decide (Some (Unit.conformationId u)
                             = currentConformationId s))
       || negb (bool_decide (unitKinds (assign cp props) = unitKinds cp)))
  ∧ VisualUpdateState.updateSize flags
    = negb (bool_decide (sizeTheme (assign cp props) = sizeTheme cp))
  ∧ VisualUpdateState.updateTransform flags
    = negb (bool_decide (length (Unit.units g) = instanceCount it))
  ∧ (VisualUpdateState.createGeometry flags = false →
     geometry r.1 = geometry s
     ∧ (drawCount ∘ values) <$> renderObject r.1
       = Some (drawCount (values ro))).
Proof.
  intros Hro Hcp Hcur Hit Hu r flags. subst flags r.
  destruct s as [ro' cp' geo cg cs it0 cid us objs cl].
  cbn [renderObject currentProps currentGroup locationIt
       currentConformationId geometry] in *.
  simplify_eq.
  rewrite (update_run _ _ _ _ _ _ _ _ _ _ _ _ _ _ _ Hu).
  cbn [fst snd updateOutcome updateState geometry renderObject].
  split; [reflexivity|].
  assert (diffedFlags PointsVisual B props cp g cs it cid objs u
          = VisualUpdateState.mk
              (negb (bool_decide (length (Unit.units g) = instanceCount it)))
              (colorChanged props cp cs objs)
              (negb (bool_decide (sizeTheme (assign cp props) = sizeTheme cp)))
              (GaussianDensityPoint.densityPropsDiffer (assign cp props) cp
               || negb (bool_decide (Some (Unit.conformationId u) = cid))
               || negb (bool_decide (unitKinds (assign cp props)
                                     = unitKinds cp)))) as Hflags.
  { unfold diffedFlags, diffFlags, hookFlags, conformationChanged,
      countChanged, sizeChanged, kindsChanged, deepEqual, passProps.
    rewrite gaussian_setUpdateState.
    cbn [VisualUpdateState.setCreateGeometry VisualUpdateState.create
         VisualUpdateState.updateTransform VisualUpdateState.updateColor
         VisualUpdateState.updateSize VisualUpdateState.createGeometry orb].
    by rewrite orb_false_r. }
  unfold passFlags, passGeometry, passValues, geometryStep.
  rewrite Hflags.
  cbn [VisualUpdateState.setUpdateColor VisualUpdateState.updateTransform
       VisualUpdateState.updateColor VisualUpdateState.updateSize
       VisualUpdateState.createGeometry].
  split; [reflexivity|]. split; [reflexivity|]. split; [reflexivity|].
  by intros ->.
Qed.

(** X18. The Gaussian density point visual can be marked as a whole only and
    cannot be picked: in every state it reaches, [mark] with other loci than
    the every-loci sentinel returns false and leaves the visual, marker cell
    included, as it is, and [getLoci] returns the empty loci. *)
Theorem gaussian_marks_every_loci_only (loci : Loci) (action : MarkerAction)
    (id : nat) (pickingId : PickingId) (s : State) :
  reachable PointsVisual B C s →
  (isEveryLoci (Some loci) = false →
   markVisual B C loci action s = (s, Ok false))
  ∧ getLoci GaussianDensityPoint.getLoci id pickingId s = (s, Ok EmptyLoci).
Proof.
  intros Hreach.
  destruct (reachable_consistent _ _ _ _ Hreach) as [Heq _].
  destruct s as [ro cp geo cg cs it cid us objs cl].
  destruct ro as [ro|]; [|done].
  destruct (Heq ltac:(by eexists)) as (_ & [g Hg] & [it' Hit]).
  cbn [currentGroup locationIt] in Hg, Hit. subst.
  split; [|reflexivity].
  intros Hevery. unfold markVisual. run_steps. rewrite Hevery.
  cbn [mark GaussianDensityPoint.GaussianDensityPointVisual runMark].
  by destruct ro as [[dc [marker version] tr col sz decl] st].
Qed.

End GaussianVisual.

(** The example visual after its first call. *)
Lemma gaussian_created :
  renderObject GaussianExample.created = Some GaussianExample.createdObject
  ∧ currentProps GaussianExample.created = Some GaussianExample.createdProps
  ∧ currentGroup GaussianExample.created = Some Example.groupG
  ∧ locationIt GaussianExample.created
    = Some {| groupCount := 4; instanceCount := 2; cursor := 0 |}.
Proof. vm_compute. repeat split. Qed.

(** The smoothness of a created visual goes from 15 to 20. *)
Lemma gaussian_update_flags_witness :
  VisualUpdateState.createGeometry
    (updateState
       (update PointsVisual GaussianExample.builder Example.collaborators
          GaussianExample.smoother GaussianExample.created).1)
  = true.
Proof.
  destruct gaussian_created as (Hro & Hcp & Hcur & Hit).
  etrans;
    [exact (proj1 (proj2 (gaussian_update_flags GaussianExample.defaults
       Example.geometryOf Example.iteratorOf Example.collaborators
       GaussianExample.smoother GaussianExample.createdObject
       GaussianExample.createdProps Example.groupG
       {| groupCount := 4; instanceCount := 2; cursor := 0 |}
       (Example.unitA 0 5) GaussianExample.created
       Hro Hcp Hcur Hit eq_refl)))|].
  vm_compute. reflexivity.
Defined.

(** Highlighting the second unit of a created visual. *)
Lemma gaussian_marks_every_loci_only_witness :
  markVisual GaussianExample.builder Example.collaborators
    (ElementLoci [(1, [])]) Highlight GaussianExample.created
  = (GaussianExample.created, Ok false).
Proof.
  exact (proj1 (gaussian_marks_every_loci_only GaussianExample.defaults
    Example.geometryOf Example.iteratorOf Example.collaborators
    (ElementLoci [(1, [])]) Highlight 0
    {| objectId := 0; instanceId := 0; groupId := 0 |}
    GaussianExample.created
    (reachable_createOrUpdate _ _ _ _ noProps (Example.sg Example.groupG)
       (reachable_initial _ _ _ Example.objects0))) eq_refl).
Defined.

(** * The loci of the application *)

Ltac loci_kinds :=
  unfold Loci.areEqual, Loci.isEmpty, Loci.normalize;
  cbn [Loci.isEveryLoci Loci.isEmptyLoci Loci.isEvery Loci.isDataLoci
       Loci.kind Loci.applyGranularity negb];
  repeat match goal with
         | |- context [bool_decide (?a = ?b)] =>
             first [rewrite (bool_decide_eq_true_2 (a = b)) by reflexivity
                   |rewrite (bool_decide_eq_false_2 (a = b)) by discriminate]
         end;
  cbn [andb negb Loci.kind].

Section LociFacts.

Context {SL EL LL ShL GL : Type} (M : Loci.Model SL EL LL ShL GL).

Local Abbreviation loci := (Loci.t SL EL LL ShL GL).

Lemma areEqual_data (d d' : Loci.DataLoci) :
  Loci.areEqual M (Loci.Data d) (Loci.Data d') = bool_decide (d = d').
Proof.
  unfold Loci.areEqual, Loci.areDataLociEqual.
  cbn [Loci.isEveryLoci Loci.isEmptyLoci Loci.kind].
  rewrite !(bool_decide_eq_false_2 ("data-loci" = _)) by done.
  cbn [andb].
  destruct (decide (d = d')) as [->|Hne].
  - by rewrite !bool_decide_eq_true_2.
  - rewrite (bool_decide_eq_false_2 _ Hne).
    apply not_true_is_false. intros H. apply Hne.
    rewrite !andb_true_iff, !bool_decide_eq_true in H.
    destruct H as [[? ?] ?]. destruct d, d'. cbn in *. by subst.
Qed.

(** X19. [Loci.areEqual] holds between loci of one kind only: the two
    sentinels are each equal to themselves, two data loci are equal exactly
    when they agree in their data object, their tag and their indices, and
    loci of different kinds are never equal, not even two that are both
    empty, such as a data loci without indices and the empty loci. *)
Theorem areEqual_within_one_kind (a b : loci) :
  (Loci.areEqual M a b = true → Loci.kind a = Loci.kind b)
  ∧ Loci.areEqual M Loci.Every Loci.Every = true
  ∧ Loci.areEqual M Loci.Empty Loci.Empty = true
  ∧ (∀ d d' : Loci.DataLoci,
       Loci.areEqual M (Loci.Data d) (Loci.Data d') = true ↔ d = d')
  ∧ (∀ data tag,
       Loci.isEmpty M (Loci.createDataLoci data tag []) = true
       ∧ Loci.areEqual M (Loci.createDataLoci data tag []) Loci.Empty = false).
Proof.
  split; [|split; [done|split; [done|split]]].
  - by destruct a, b.
  - intros d d'. by rewrite areEqual_data, bool_decide_eq_true.
  - done.
Qed.

(** X20. [Loci.areEqual] is reflexive exactly when the comparisons of the
    structure model and of the shapes are, and symmetric exactly when they
    are; on the sentinels and the data loci it is both without any
    assumption, whatever the other loci is. *)
Theorem areEqual_reflexive_symmetric :
  ((∀ l : loci, Loci.areEqual M l l = true) ↔
   (∀ a, Loci.Structure_areLociEqual M a a = true)
   ∧ (∀ a, Loci.StructureElement_areEqual M a a = true)
   ∧ (∀ a, Loci.Link_areLociEqual M a a = true)
   ∧ (∀ a, Loci.Shape_areLociEqual M a a = true)
   ∧ (∀ a, Loci.ShapeGroup_areLociEqual M a a = true))
  ∧ ((∀ a b : loci, Loci.areEqual M a b = Loci.areEqual M b a) ↔
     (∀ a b, Loci.Structure_areLociEqual M a b
             = Loci.Structure_areLociEqual M b a)
     ∧ (∀ a b, Loci.StructureElement_areEqual M a b
               = Loci.StructureElement_areEqual M b a)
     ∧ (∀ a b, Loci.Link_areLociEqual M a b = Loci.Link_areLociEqual M b a)
     ∧ (∀ a b, Loci.Shape_areLociEqual M a b = Loci.Shape_areLociEqual M b a)
     ∧ (∀ a b, Loci.ShapeGroup_areLociEqual M a b
               = Loci.ShapeGroup_areLociEqual M b a))
  ∧ (∀ l l' : loci,
       Loci.kind l ∈ ["every-loci"; "empty-loci"; "data-loci"] →
       Loci.areEqual M l l = true
       ∧ Loci.areEqual M l l' = Loci.areEqual M l' l).
Proof.
  split; [|split].
  - split.
    + intros H. split; [|split; [|split; [|split]]]; intros a.
      * exact (H (Loci.OfStructure a)).
      * exact (H (Loci.OfElement a)).
      * exact (H (Loci.OfLink a)).
      * exact (H (Loci.OfShape a)).
      * exact (H (Loci.OfGroup a)).
    + intros (R1 & R2 & R3 & R4 & R5).
      intros [| |d| | | | |]; try (loci_kinds; by auto).
      rewrite areEqual_data. by apply bool_decide_eq_true_2.
  - split.
    + intros H. split; [|split; [|split; [|split]]]; intros a b.
      * exact (H (Loci.OfStructure a) (Loci.OfStructure b)).
      * exact (H (Loci.OfElement a) (Loci.OfElement b)).
      * exact (H (Loci.OfLink a) (Loci.OfLink b)).
      * exact (H (Loci.OfShape a) (Loci.OfShape b)).
      * exact (H (Loci.OfGroup a) (Loci.OfGroup b)).
    + intros (S1 & S2 & S3 & S4 & S5) a b.
      destruct a as [| |d1| | | | |], b as [| |d2| | | | |];
        try (loci_kinds; by auto).
      rewrite !areEqual_data. by apply bool_decide_ext.
  - intros l l'. rewrite !elem_of_cons, elem_of_nil.
    destruct l as [| |d| | | | |];
      try (intros [H|[H|[H|[]]]]; discriminate H); intros _.
    + split; [done|]. by destruct l'.
    + split; [done|]. by destruct l'.
    + split; [rewrite areEqual_data; by apply bool_decide_eq_true_2|].
      destruct l' as [| |d'| | | | |]; try (loci_kinds; done).
      rewrite !areEqual_data. by apply bool_decide_ext.
Qed.

(** X21. [Loci.isEmpty] is false for the every-loci sentinel and true for
    the empty-loci sentinel, the two sentinels exclude each other, and a data
    loci is empty exactly when it has no indices; [Loci.isEvery] is
    [isEveryLoci]. *)
Theorem isEmpty_of_sentinels_and_data (l : loci) :
  (Loci.isEvery (Some l) = true → Loci.isEmpty M l = false)
  ∧ (Loci.isEmptyLoci (Some l) = true → Loci.isEmpty M l = true)
  ∧ (Loci.isEvery (Some l) = true → Loci.isEmptyLoci (Some l) = false)
  ∧ (∀ x : option loci, Loci.isEvery x = Loci.isEveryLoci x)
  ∧ (∀ d, Loci.isEmpty M (Loci.Data d) = true ↔ Loci.indices d = [])
  ∧ Loci.isEmpty M Loci.Every = false
  ∧ Loci.isEmpty M Loci.Empty = true.
Proof.
  split; [|split; [|split; [|split; [|split; [|split]]]]].
  - destruct l; loci_kinds; done.
  - destruct l; loci_kinds; done.
  - destruct l; loci_kinds; done.
  - done.
  - intros d. loci_kinds. unfold Loci.isDataLociEmpty.
    case_bool_decide as H.
    + split; [intros _; by apply nil_length_inv|done].
    + split; [done|]. intros Hnil. by rewrite Hnil in H.
  - by loci_kinds.
  - by loci_kinds.
Qed.

(** X22. [Loci.normalize] returns the sentinels, the data loci and the loci
    of shapes as they are, whatever the granularity.  It never returns a
    structure loci, and it returns a link loci, unchanged, only for the
    granularity [element]; every other loci of the structure model comes back
    as an element loci.  In particular the result is the empty-loci or the
    every-loci sentinel exactly when the argument is. *)
Theorem normalize_kinds (l : loci) (g : option Loci.Granularity) :
  let r := Loci.normalize M l g in
  (Loci.kind l ∈ ["every-loci"; "empty-loci"; "data-loci"; "shape-loci";
                  "group-loci"] → r = l)
  ∧ Loci.kind r ≠ "structure-loci"
  ∧ (Loci.kind r = "link-loci" ↔
     Loci.kind l = "link-loci" ∧ g = Some Loci.element)
  ∧ (Loci.kind l = "link-loci" → g = Some Loci.element → r = l)
  ∧ (Loci.kind r = "element-loci" ↔
     Loci.kind l = "structure-loci" ∨ Loci.kind l = "element-loci"
     ∨ (Loci.kind l = "link-loci" ∧ g ≠ Some Loci.element))
  ∧ Loci.isEmptyLoci (Some r) = Loci.isEmptyLoci (Some l)
  ∧ Loci.isEveryLoci (Some r) = Loci.isEveryLoci (Some l).
Proof.
  intros r. subst r.
  split; [|split; [|split; [|split; [|split; [|split]]]]].
  - rewrite !elem_of_cons, elem_of_nil.
    destruct l; try (intros [H|[H|[H|[H|[H|[]]]]]]; discriminate H);
      intros _; by destruct g as [[]|].
  - destruct l; destruct g as [[]|]; discriminate.
  - destruct l; destruct g as [[]|];
      (split; [try discriminate; by split|try done; intros [H1 H2];
               discriminate H1 || discriminate H2]).
  - destruct l; try discriminate. by intros _ ->.
  - destruct l; destruct g as [[]|];
      (split;
       [first [discriminate
              |intros _;
               first [by left|by right; left
                     |right; right; split; [reflexivity|discriminate]]]
       |intros [H|[H|[H1 H2]]];
        first [reflexivity|discriminate H|discriminate H1|by destruct H2]]).
  - destruct l; destruct g as [[]|]; reflexivity.
  - destruct l; destruct g as [[]|]; reflexivity.
Qed.

End LociFacts.

(** Loci that are numbers, compared by [Nat.eqb]. *)
Lemma areEqual_reflexive_symmetric_witness :
  Loci.areEqual LociExample.model (Loci.OfElement 3) (Loci.OfElement 3) = true
  ∧ Loci.areEqual LociExample.model (Loci.OfLink 3) (Loci.OfLink 4)
    = Loci.areEqual LociExample.model (Loci.OfLink 4) (Loci.OfLink 3).
Proof.
  pose proof (areEqual_reflexive_symmetric LociExample.model)
    as [Hrefl [Hsym _]].
  split.
  - apply Hrefl. repeat split; exact Nat.eqb_refl.
  - apply Hsym. repeat split; exact Nat.eqb_sym.
Defined.

(** A click on a bond at residue granularity, and at element granularity. *)
Lemma normalize_example :
  Loci.normalize LociExample.model (Loci.OfLink 3) (Some Loci.residue)
  = Loci.OfElement 3
  ∧ Loci.normalize LociExample.model (Loci.OfLink 3) (Some Loci.element)
    = Loci.OfLink 3
  ∧ Loci.normalize LociExample.model Loci.Empty (Some Loci.residue)
    = Loci.Empty.
Proof. repeat split. Qed.

(** * The nucleotide visuals *)

Section NucleotideFacts.

Context (nucleotideElements : Unit.t → list nat)
  (unitElements : Unit.t → list nat)
  (unitIndexMap : Unit.SymmetryGroup → gmap nat nat)
  (areEquivalent : Structure → Structure → bool)
  (nucleotideIndex : Unit.t → Nucleotide.Element → nat → option nat).

Local Abbreviation eachNucleotideElement :=
  (Nucleotide.eachNucleotideElement nucleotideElements unitElements
     unitIndexMap areEquivalent nucleotideIndex).

Lemma eachIndex_reports unitIdx groupCount idx values changed k :
  (∀ acc, reportsChanges acc (k acc)) →
  reportsChanges changed
    (Nucleotide.eachIndex unitIdx groupCount idx values changed k).
Proof.
  intros Hk. revert changed.
  induction values as [|v values IH]; intros changed; cbn.
  - apply Hk.
  - destruct (idx v); [|apply IH].
    intros r. destruct r, changed; apply IH.
Qed.

Lemma eachElement_reports group u groupCount es changed :
  reportsChanges changed
    (Nucleotide.eachElement unitElements unitIndexMap nucleotideIndex
       group u groupCount es changed).
Proof.
  revert changed. induction es as [|e es IH]; intros changed; cbn.
  - reflexivity.
  - destruct (unitIndexMap group !! _); [|apply IH].
    destruct (Nucleotide.isAtomic _); [|apply IH].
    destruct (Nucleotide.coversUnit _ _).
    + intros r. destruct r, changed; apply IH.
    + apply eachIndex_reports. intros acc. apply IH.
Qed.

(** X23. [eachNucleotideElement] returns false without calling [apply] for
    loci that are no element loci, for element loci of a structure that is
    not equivalent to that of the structure group, and for a group whose
    first unit is not atomic; it fails, reading the first unit, exactly for
    element loci of an equivalent structure and a group without units.
    Otherwise it returns whether one of its [apply] calls reported a change,
    so that, run with the [apply] of a visual and an action that settles a
    byte in one step, its result says whether the marker array changed. *)
Theorem eachNucleotideElement_reports_changes {SL LL ShL GL : Type}
    (loci : Loci.t SL Nucleotide.StructureElementLoci LL ShL GL)
    (structureGroup : StructureGroup) :
  (Loci.kind loci ≠ "element-loci" →
   eachNucleotideElement loci structureGroup = Ok (Done false))
  ∧ (∀ l, loci = Loci.OfElement l →
       areEquivalent (Nucleotide.lociStructure l) (structure structureGroup)
       = false →
       eachNucleotideElement loci structureGroup = Ok (Done false))
  ∧ (∀ l u, loci = Loci.OfElement l →
       areEquivalent (Nucleotide.lociStructure l) (structure structureGroup)
       = true →
       Unit.units (group structureGroup) !! 0 = Some u →
       Unit.kind u ≠ Unit.Atomic →
       eachNucleotideElement loci structureGroup = Ok (Done false))
  ∧ (eachNucleotideElement loci structureGroup = Throw TypeError ↔
     ∃ l, loci = Loci.OfElement l
       ∧ areEquivalent (Nucleotide.lociStructure l) (structure structureGroup)
         = true
       ∧ Unit.units (group structureGroup) = [])
  ∧ ∀ script, eachNucleotideElement loci structureGroup = Ok script →
      reportsChanges false script
      ∧ ∀ C action array,
          (∀ b, markerByte C action (markerByte C action b)
                = markerByte C action b) →
          (runMark C script action array).2
          = negb (bool_decide ((runMark C script action array).1 = array)).
Proof.
  assert (∀ script, eachNucleotideElement loci structureGroup = Ok script →
            reportsChanges false script) as Hrep.
  { intros script. unfold Nucleotide.eachNucleotideElement.
    destruct loci as [| | | |l| | |]; try (by intros [= <-]).
    destruct (negb (areEquivalent _ _)); [by intros [= <-]|].
    destruct (Unit.units (group structureGroup) !! 0) as [u|]; [|done].
    destruct (negb (Nucleotide.isAtomic u)); [by intros [= <-]|].
    intros [= <-]. apply eachElement_reports. }
  split; [|split; [|split; [|split]]].
  - by destruct loci.
  - intros l -> He. unfold Nucleotide.eachNucleotideElement. by rewrite He.
  - intros l u -> He Hu Hkind. unfold Nucleotide.eachNucleotideElement.
    rewrite He, Hu. cbn [negb]. unfold Nucleotide.isAtomic.
    by rewrite (bool_decide_eq_false_2 _ Hkind).
  - unfold Nucleotide.eachNucleotideElement. split.
    + destruct loci as [| | | |l| | |]; try done.
      destruct (areEquivalent _ _) eqn:He; [|done]. cbn [negb].
      destruct (Unit.units (group structureGroup)) as [|u us] eqn:Hus.
      * intros _. by exists l.
      * cbn [lookup list_lookup]. by destruct (negb _).
    + intros (l & -> & He & Hus). by rewrite He, Hus.
  - intros script Hscript. split; [by apply Hrep|].
    intros C action array Hidem.
    apply (runMark_reports C script action array array false Hidem).
    + by apply Hrep.
    + split; [done|]. intros i b Hb. by left.
    + by rewrite bool_decide_eq_true_2.
Qed.

(** X24. For element loci that hold one whole atomic unit of the group, as an
    interval over all its elements, [eachNucleotideElement] makes one [apply]
    call, with the interval of the slots of that unit: run with the [apply]
    of a visual, it applies the action to the [groupCount] slots from
    [unitIdx * groupCount] on and to no other slot. *)
Theorem eachNucleotideElement_whole_unit {SL LL ShL GL : Type}
    (C : Collaborators) (action : MarkerAction) (array : list byte)
    (st : Structure) (e : Nucleotide.Element)
    (structureGroup : StructureGroup) (u : Unit.t) (unitIdx : nat) :
  areEquivalent st (structure structureGroup) = true →
  Unit.units (group structureGroup) !! 0 = Some u →
  Unit.kind u = Unit.Atomic →
  unitIndexMap (group structureGroup) !! Unit.unitId (Nucleotide.unit e)
  = Some unitIdx →
  Unit.kind (Nucleotide.unit e) = Unit.Atomic →
  Nucleotide.indices e
  = Nucleotide.IntervalSet 0 (length (unitElements (Nucleotide.unit e))) →
  let groupCount := length (nucleotideElements u) in
  ∃ script,
    eachNucleotideElement
      (Loci.OfElement {| Nucleotide.lociStructure := st;
                         Nucleotide.lociElements := [e] |}
       : Loci.t SL Nucleotide.StructureElementLoci LL ShL GL)
      structureGroup = Ok script
    ∧ runMark C script action array
      = applyMarkerAction C array (unitIdx * groupCount)
          (unitIdx * groupCount + groupCount) action
    ∧ ∀ i, (runMark C script action array).1 !! i
           = if bool_decide (unitIdx * groupCount ≤ i
                             < unitIdx * groupCount + groupCount)
             then markerByte C action <$> array !! i
             else array !! i.
Proof.
  intros He Hu Hkind Hidx Hekind Hindices groupCount.
  eexists. split; [|split].
  - unfold Nucleotide.eachNucleotideElement.
    cbn [Nucleotide.lociStructure Nucleotide.lociElements].
    rewrite He, Hu. unfold Nucleotide.isAtomic.
    rewrite (bool_decide_eq_true_2 _ Hkind). cbn [negb].
    cbn [Nucleotide.eachElement]. rewrite Hidx. unfold Nucleotide.isAtomic.
    rewrite (bool_decide_eq_true_2 _ Hekind).
    unfold Nucleotide.coversUnit. rewrite Hindices.
    rewrite !bool_decide_eq_true_2 by done. cbn [andb]. reflexivity.
  - cbn [runMark]. unfold applyInterval.
    cbn [Interval.start Interval.stop]. fold groupCount.
    destruct (applyMarkerAction C array _ _ action) as [array' []];
      reflexivity.
  - intros i. cbn [runMark]. unfold applyInterval.
    cbn [Interval.start Interval.stop]. fold groupCount.
    rewrite <- applyMarkerAction_lookup.
    by destruct (applyMarkerAction C array _ _ action) as [array' []].
Qed.

(** X25. [NucleotideLocationIterator.fromGroup] fails exactly for a group
    without units.  Otherwise its iterator has one instance per unit of the
    group and one group per nucleotide element of the first unit, none when
    the first unit is not atomic; every slot of the iterator has a location,
    whose unit is the unit of the instance and whose element is the
    nucleotide element of the first unit at the group index, whichever the
    instance. *)
Theorem fromGroup_counts (group : Unit.SymmetryGroup) :
  (Nucleotide.fromGroup nucleotideElements group = Throw TypeError
   ↔ Unit.units group = [])
  ∧ ∀ u, Unit.units group !! 0 = Some u →
      ∃ it, Nucleotide.fromGroup nucleotideElements group = Ok it
        ∧ instanceCount it = length (Unit.units group)
        ∧ (Unit.kind u ≠ Unit.Atomic → groupCount it = 0)
        ∧ (Unit.kind u = Unit.Atomic →
           groupCount it = length (nucleotideElements u))
        ∧ ∀ groupIndex instanceIndex,
            groupIndex < groupCount it → instanceIndex < instanceCount it →
            let location :=
              Nucleotide.getLocation nucleotideElements group u groupIndex
                instanceIndex in
            Nucleotide.locationUnit location
            = Unit.units group !! instanceIndex
            ∧ is_Some (Nucleotide.locationUnit location)
            ∧ Nucleotide.locationElement location
              = nucleotideElements u !! groupIndex
            ∧ is_Some (Nucleotide.locationElement location).
Proof.
  unfold Nucleotide.fromGroup. split.
  - destruct (Unit.units group) as [|u us]; [done|]. by cbn.
  - intros u Hu. rewrite Hu. eexists. split; [reflexivity|].
    cbn [instanceCount groupCount].
    unfold Nucleotide.nucleotideElementIndices, Nucleotide.isAtomic.
    split; [done|]. split; [|split].
    + intros Hk. by rewrite (bool_decide_eq_false_2 _ Hk).
    + intros Hk. by rewrite (bool_decide_eq_true_2 _ Hk).
    + intros gi ii Hgi Hii.
      unfold Nucleotide.getLocation, Nucleotide.nucleotideElementIndices,
        Nucleotide.isAtomic.
      cbn [Nucleotide.locationUnit Nucleotide.locationElement].
      case_bool_decide; [|cbn in Hgi; lia].
      split; [done|]. split; [by apply lookup_lt_is_Some|].
      split; [done|]. by apply lookup_lt_is_Some.
Qed.

End NucleotideFacts.

(** The whole second unit of [groupG], highlighted in a cleared marker array
    of two units of four nucleotide elements. *)
Lemma eachNucleotideElement_whole_unit_witness :
  ∃ script,
    Nucleotide.eachNucleotideElement NucleotideExample.nucleotideElements
      NucleotideExample.unitElements NucleotideExample.unitIndexMap
      NucleotideExample.areEquivalent NucleotideExample.nucleotideIndex
      (Loci.OfElement
         {| Nucleotide.lociStructure := Example.structure0;
            Nucleotide.lociElements := [NucleotideExample.secondUnit] |}
       : Loci.t nat Nucleotide.StructureElementLoci nat nat nat)
      NucleotideExample.structureGroup = Ok script
    ∧ runMark Example.collaborators script Highlight (replicate 8 x00)
      = ([x00; x00; x00; x00; x01; x01; x01; x01], true).
Proof.
  destruct (eachNucleotideElement_whole_unit
    NucleotideExample.nucleotideElements NucleotideExample.unitElements
    NucleotideExample.unitIndexMap NucleotideExample.areEquivalent
    NucleotideExample.nucleotideIndex
    (SL := nat) (LL := nat) (ShL := nat) (GL := nat)
    Example.collaborators Highlight (replicate 8 x00)
    Example.structure0 NucleotideExample.secondUnit
    NucleotideExample.structureGroup (Example.unitA 0 5) 1
    eq_refl eq_refl eq_refl eq_refl eq_refl eq_refl)
    as (script & Hscript & Hrun & _).
  exists script. split; [exact Hscript|].
  rewrite Hrun. vm_compute. reflexivity.
Defined.

(** A partial selection in the second unit of [groupG]: the elements 5 to 9,
    which are the second residue. *)
Lemma eachNucleotideElement_example :
  (λ r, match r with
        | Ok script =>
            Some (runMark Example.collaborators script Select
                    (replicate 8 x00))
        | Throw _ => None
        end)
    (Nucleotide.eachNucleotideElement NucleotideExample.nucleotideElements
       NucleotideExample.unitElements NucleotideExample.unitIndexMap
       NucleotideExample.areEquivalent NucleotideExample.nucleotideIndex
       (Loci.OfElement
          {| Nucleotide.lociStructure := Example.structure0;
             Nucleotide.lociElements :=
               [{| Nucleotide.unit := Example.unitA 1 5;
                   Nucleotide.indices := Nucleotide.IntervalSet 5 10 |}] |}
        : Loci.t nat Nucleotide.StructureElementLoci nat nat nat)
       NucleotideExample.structureGroup)
  = Some ([x00; x00; x00; x00; x00; x02; x00; x00], true).
Proof. vm_compute. reflexivity. Qed.

(** The iterator of [groupG]: four groups, two instances. *)
Lemma fromGroup_counts_witness :
  ∃ it, Nucleotide.fromGroup NucleotideExample.nucleotideElements
          Example.groupG = Ok it
    ∧ instanceCount it = 2 ∧ groupCount it = 4.
Proof.
  destruct (proj2 (fromGroup_counts NucleotideExample.nucleotideElements
    Example.groupG) (Example.unitA 0 5) eq_refl)
    as (it & Hit & Hinstances & _ & Hgroups & _).
  exists it. split; [exact Hit|]. split; [exact Hinstances|].
  exact (Hgroups eq_refl).
Defined.
